(** * The Lua scripting engine of Tendis: [tendisplus/script/lua_state.cpp]

    A shallow embedding of the reply translator, the command gateway
    ([redis.call] / [redis.pcall]) and the script runner
    ([evalGenericCommand]), followed by the properties established
    about them. *)

From Stdlib Require Import ZArith Ascii String List Lia Bool.
From Stdlib Require Import Floats.SpecFloat DecimalString DecimalZ DecimalPos.
Import ListNotations.
Local Open Scope Z_scope.
Set Warnings "-register-all".

(** ** Bytes, strings and decimal text *)

(** A [std::string] (and a [char] buffer) is a list of characters. *)
Definition bytes := list ascii.

Definition str (s : string) : bytes := list_ascii_of_string s.

Definition CR : ascii := "013"%char.
Definition LF : ascii := "010"%char.
Definition NUL : ascii := "000"%char.
Definition CRLF : bytes := [CR; LF].

Fixpoint bytes_eqb (a b : bytes) : bool :=
  match a, b with
  | [], [] => true
  | x :: a', y :: b' => Ascii.eqb x y && bytes_eqb a' b'
  | _, _ => false
  end.

Definition INT64_MIN : Z := - 2 ^ 63.
Definition INT64_MAX : Z := 2 ^ 63 - 1.
Definition INT_MAX : Z := 2 ^ 31 - 1.

Definition in_int64 (z : Z) : bool := (INT64_MIN <=? z) && (z <=? INT64_MAX).

(** [operator<<] of a 64-bit integer: the shortest decimal text. *)
Definition ll2string (z : Z) : bytes := str (NilZero.string_of_int (Z.to_int z)).

(** [static_cast<int>] of a wider integer: the low 32 bits, signed. *)
Definition static_cast_int (z : Z) : Z := (z + 2 ^ 31) mod 2 ^ 32 - 2 ^ 31.

(** ** [Status] and [Expected] *)

Inductive ErrorCodes := ERR_LUA | ERR_INTERGER | ERR_CODE (n : Z).

Record Status := mkStatus { status_code : ErrorCodes; status_msg : bytes }.

Inductive Expected (A : Type) :=
| Ok (a : A)
| Err (s : Status).
Arguments Ok {A} a.
Arguments Err {A} s.

Definition expected_ok {A} (e : Expected A) : bool :=
  match e with Ok _ => true | Err _ => false end.

(** Modelled from the spec: [tendisplus::stoll] is declared outside this
    file; the decode grammar reads "ASCII digits up to the first CR", so the
    model accepts an optional minus sign followed by at least one decimal
    digit, with a value that fits 64 signed bits, and fails otherwise. *)
Definition stoll (s : bytes) : Expected Z :=
  match NilZero.int_of_string (string_of_list_ascii s) with
  | Some d =>
      let z := Z.of_int d in
      if in_int64 z then Ok z else Err (mkStatus ERR_INTERGER (str "out of range"))
  | None => Err (mkStatus ERR_INTERGER (str "not a number"))
  end.

(** [string2ll], lines 59-67: on failure [*value] is left unwritten. *)
Definition string2ll (s : bytes) : option Z :=
  match stoll s with
  | Ok v => Some v
  | Err _ => None
  end.

(** ** Reply formatting ([Command::fmt...])

    Modelled from the spec: the formatting helpers of [Command] are declared
    outside this file; each produces the reply of the five-tag wire grammar
    that its name says. *)
Definition fmtBulk (s : bytes) : bytes :=
  str "$" ++ ll2string (Z.of_nat (length s)) ++ CRLF ++ s ++ CRLF.

Definition fmtNull : bytes := str "$-1" ++ CRLF.

Definition fmtOne : bytes := str ":1" ++ CRLF.

Definition fmtOK : bytes := str "+OK" ++ CRLF.

Definition fmtLongLong (v : Z) : bytes := str ":" ++ ll2string v ++ CRLF.

Definition fmtMultiBulkLen (n : Z) : bytes := str "*" ++ ll2string n ++ CRLF.

(** Modelled from the spec: [redis_port::strmapchars(s, from, to, setlen)]
    is declared outside this file; every character of [s] that occurs among
    the first [setlen] characters of [from] is replaced by the character at
    the same position of [to] ("embedded CR/LF characters remapped to
    spaces"). *)
Fixpoint mapchar (c : ascii) (from to : bytes) (setlen : nat) : ascii :=
  match setlen, from, to with
  | S n, f :: from', t :: to' =>
      if Ascii.eqb c f then t else mapchar c from' to' n
  | _, _, _ => c
  end.

Definition strmapchars (s from to : bytes) (setlen : nat) : bytes :=
  map (fun c => mapchar c from to setlen) s.

(** A [std::string] built from a [const char*] stops at the first NUL. *)
Fixpoint c_str (s : bytes) : bytes :=
  match s with
  | [] => []
  | c :: s' => if Ascii.eqb c NUL then [] else c :: c_str s'
  end.

(** ** The script number type

    [lua_Number] is the IEEE-754 binary64 [double]; the Standard Library's
    specification of that format is used as it is. *)
Definition lua_Number := spec_float.

Definition dprec : Z := 53.
Definition demax : Z := 1024.

(** The cast of an integer to [lua_Number] rounds to the nearest double. *)
Definition int_to_double (z : Z) : lua_Number := binary_normalize dprec demax z 0 false.

(** The integer part of a finite double, rounded toward zero. *)
Definition double_trunc (d : lua_Number) : option Z :=
  match d with
  | S754_zero _ => Some 0
  | S754_finite s m e =>
      Some (cond_Zopp s (if 0 <=? e then Z.pos m * 2 ^ e else Z.pos m / 2 ^ (- e)))
  | _ => None
  end.

(** The cast of a double to [int64_t]. The cast of NaN, of an infinity or
    of a value outside the 64-bit range is undefined in C++; the model takes
    the result of the x86-64 conversion instruction, [INT64_MIN]. *)
Definition double_to_int64 (d : lua_Number) : Z :=
  match double_trunc d with
  | Some z => if in_int64 z then z else INT64_MIN
  | None => INT64_MIN
  end.

Definition double_eqb (a b : lua_Number) : bool := SFeqb a b.

(** ** Script values and the evaluation stack *)

Inductive lua_type_tag :=
| LUA_TNONE | LUA_TNIL | LUA_TBOOLEAN | LUA_TNUMBER
| LUA_TSTRING | LUA_TTABLE | LUA_TFUNCTION.

Definition lua_type_tag_eqb (a b : lua_type_tag) : bool :=
  match a, b with
  | LUA_TNONE, LUA_TNONE | LUA_TNIL, LUA_TNIL | LUA_TBOOLEAN, LUA_TBOOLEAN
  | LUA_TNUMBER, LUA_TNUMBER | LUA_TSTRING, LUA_TSTRING
  | LUA_TTABLE, LUA_TTABLE | LUA_TFUNCTION, LUA_TFUNCTION => true
  | _, _ => false
  end.

(** Table keys: the translator and the runner only ever index tables by
    strings, numbers and booleans. *)
Inductive LuaKey :=
| KNumber (n : lua_Number)
| KString (s : bytes)
| KBoolean (b : bool).

(** Script values. A table is the sequence of its entries, in insertion
    order; tables are finite trees here (no metatables, no cycles): the
    tables the decoder and the C functions of this file build, and the ones
    a table constructor gives. A table that a script has given a metatable
    is not a value of this type. A function is an opaque handle of the
    interpreter. *)
Inductive LuaValue :=
| LNil
| LBoolean (b : bool)
| LNumber (n : lua_Number)
| LString (s : bytes)
| LTable (t : list (LuaKey * LuaValue))
| LFunction (f : N).

Definition table := list (LuaKey * LuaValue).

Definition type_of (v : LuaValue) : lua_type_tag :=
  match v with
  | LNil => LUA_TNIL
  | LBoolean _ => LUA_TBOOLEAN
  | LNumber _ => LUA_TNUMBER
  | LString _ => LUA_TSTRING
  | LTable _ => LUA_TTABLE
  | LFunction _ => LUA_TFUNCTION
  end.

Definition key_eqb (a b : LuaKey) : bool :=
  match a, b with
  | KNumber x, KNumber y => double_eqb x y
  | KString x, KString y => bytes_eqb x y
  | KBoolean x, KBoolean y => Bool.eqb x y
  | _, _ => false
  end.

(** A value used as a key; nil and NaN are not keys. *)
Definition key_of (v : LuaValue) : option LuaKey :=
  match v with
  | LNumber S754_nan => None
  | LNumber n => Some (KNumber n)
  | LString s => Some (KString s)
  | LBoolean b => Some (KBoolean b)
  | _ => None
  end.

Fixpoint rawget (t : table) (k : LuaKey) : LuaValue :=
  match t with
  | [] => LNil
  | (k', v) :: t' => if key_eqb k' k then v else rawget t' k
  end.

Fixpoint table_remove (t : table) (k : LuaKey) : table :=
  match t with
  | [] => []
  | (k', v) :: t' => if key_eqb k' k then t' else (k', v) :: table_remove t' k
  end.

Fixpoint table_put (t : table) (k : LuaKey) (v : LuaValue) : table :=
  match t with
  | [] => [(k, v)]
  | (k', v') :: t' =>
      if key_eqb k' k then (k', v) :: t' else (k', v') :: table_put t' k v
  end.

(** Storing nil removes the entry. *)
Definition rawset (t : table) (k : LuaKey) (v : LuaValue) : table :=
  match v with
  | LNil => table_remove t k
  | _ => table_put t k v
  end.

(** The interpreter state seen through the C API: the evaluation stack (top
    first), the global table, what [lua_getstack]/[lua_getinfo] report for
    call level 1 (source and current line, when there is such a level), and
    the count hook installed by [lua_sethook]. *)
Record lua_State := mkLua {
  stack : list LuaValue;
  globals : table;
  level1 : option (bytes * Z);
  hook : option Z
}.

Definition with_stack (L : lua_State) (s : list LuaValue) : lua_State :=
  mkLua s (globals L) (level1 L) (hook L).

Definition with_globals (L : lua_State) (g : table) : lua_State :=
  mkLua (stack L) g (level1 L) (hook L).

Definition with_hook (L : lua_State) (h : option Z) : lua_State :=
  mkLua (stack L) (globals L) (level1 L) h.

Notation "x <- e ;; k" :=
  (match e with Some x => k | None => None end)
  (at level 61, e at next level, right associativity).
Notation "' p <- e ;; k" :=
  (match e with Some p => k | None => None end)
  (at level 61, p pattern, e at next level, right associativity).

(** Position of a stack index counted from the top: negative indices count
    from the top, positive ones from the bottom of the frame. *)
Definition index_pos (L : lua_State) (idx : Z) : option nat :=
  if idx <? 0 then Some (Z.to_nat (- idx - 1))
  else if (0 <? idx) && (idx <=? Z.of_nat (length (stack L)))
       then Some (Z.to_nat (Z.of_nat (length (stack L)) - idx))
       else None.

Definition index2adr (L : lua_State) (idx : Z) : option LuaValue :=
  p <- index_pos L idx ;; nth_error (stack L) p.

Fixpoint list_set {A} (l : list A) (n : nat) (x : A) : list A :=
  match l, n with
  | [], _ => []
  | _ :: l', O => x :: l'
  | a :: l', S n' => a :: list_set l' n' x
  end.

Definition lua_gettop (L : lua_State) : Z := Z.of_nat (length (stack L)).

Definition lua_type (L : lua_State) (idx : Z) : lua_type_tag :=
  match index2adr L idx with
  | Some v => type_of v
  | None => LUA_TNONE
  end.

Definition lua_push (L : lua_State) (v : LuaValue) : lua_State :=
  with_stack L (v :: stack L).

Definition lua_pushnil (L : lua_State) := lua_push L LNil.
Definition lua_pushboolean (L : lua_State) (b : Z) := lua_push L (LBoolean (negb (b =? 0))).
Definition lua_pushnumber (L : lua_State) (n : lua_Number) := lua_push L (LNumber n).
Definition lua_pushlstring (L : lua_State) (s : bytes) := lua_push L (LString s).
(** [lua_pushstring] takes a C string. *)
Definition lua_pushstring (L : lua_State) (s : bytes) := lua_push L (LString (c_str s)).
Definition lua_newtable (L : lua_State) := lua_push L (LTable []).

Definition lua_pushvalue (L : lua_State) (idx : Z) : option lua_State :=
  v <- index2adr L idx ;; Some (lua_push L v).

Definition lua_pop (L : lua_State) (n : nat) : option lua_State :=
  if (n <=? length (stack L))%nat then Some (with_stack L (skipn n (stack L))) else None.

(** [lua_settable(L, idx)]: [t[k] = v] for the table at [idx], with [v] on
    top and [k] below it; both are popped. The raw assignment, as for
    [lua_gettable]. *)
Definition lua_settable (L : lua_State) (idx : Z) : option lua_State :=
  p <- index_pos L idx ;;
  t <- nth_error (stack L) p ;;
  match t, stack L with
  | LTable es, v :: kv :: _ =>
      k <- key_of kv ;;
      lua_pop (with_stack L (list_set (stack L) p (LTable (rawset es k v)))) 2
  | _, _ => None
  end.

(** [lua_gettable(L, idx)]: the key on top is replaced by [t[k]]. On the
    tables of this model, which carry no metatable, the access is the raw
    one and runs no code of the script. *)
Definition lua_gettable (L : lua_State) (idx : Z) : option lua_State :=
  t <- index2adr L idx ;;
  match t, stack L with
  | LTable es, kv :: s' =>
      match key_of kv with
      | Some k => Some (with_stack L (rawget es k :: s'))
      | None => Some (with_stack L (LNil :: s'))
      end
  | _, _ => None
  end.

(** [lua_rawseti(L, idx, n)]: [t[n] = v] with [v] on top; [v] is popped. *)
Definition lua_rawseti (L : lua_State) (idx : Z) (n : Z) : option lua_State :=
  p <- index_pos L idx ;;
  t <- nth_error (stack L) p ;;
  match t, stack L with
  | LTable es, v :: _ =>
      lua_pop (with_stack L (list_set (stack L) p (LTable (rawset es (KNumber (int_to_double n)) v)))) 1
  | _, _ => None
  end.

Definition lua_getglobal (L : lua_State) (name : bytes) : lua_State :=
  lua_push L (rawget (globals L) (KString (c_str name))).

Definition lua_setglobal (L : lua_State) (name : bytes) : option lua_State :=
  match stack L with
  | v :: s' => Some (mkLua s' (rawset (globals L) (KString (c_str name)) v) (level1 L) (hook L))
  | [] => None
  end.

Definition lua_toboolean (L : lua_State) (idx : Z) : bool :=
  match index2adr L idx with
  | Some LNil | Some (LBoolean false) | None => false
  | Some _ => true
  end.

Definition lua_tonumber (L : lua_State) (idx : Z) : lua_Number :=
  match index2adr L idx with
  | Some (LNumber n) => n
  | _ => S754_zero false
  end.

(** [lua_tolstring] on a string value; NULL on a value that is neither a
    string nor a number (numbers are never passed to it here). *)
Definition lua_tolstring (L : lua_State) (idx : Z) : option bytes :=
  match index2adr L idx with
  | Some (LString s) => Some s
  | _ => None
  end.

(** [lua_tostring] read as a C string. *)
Definition lua_tostring (L : lua_State) (idx : Z) : option bytes :=
  s <- lua_tolstring L idx ;; Some (c_str s).

Definition lua_isnil (L : lua_State) (idx : Z) : bool :=
  lua_type_tag_eqb (lua_type L idx) LUA_TNIL.

Definition lua_sethook (L : lua_State) (count : option Z) : lua_State :=
  with_hook L count.

(** ** Reply translator: wire reply to script value (lines 46-131)

    A [const char*] into the reply is the list of the characters from that
    position to the end of the buffer; the terminating NUL is implicit.
    The functions read a reply "generated by Redis directly" without
    any sanity check; where the source would read unwritten memory or leave
    the buffer, the model has no result ([None]). *)

(** [strchr(s, c)]: the characters before the first [c], and the pointer to
    it; NULL when a NUL or the end of the buffer comes first. *)
Fixpoint strchr (s : bytes) (c : ascii) : option (bytes * bytes) :=
  match s with
  | [] => None
  | a :: s' =>
      if Ascii.eqb a c then Some ([], s)
      else if Ascii.eqb a NUL then None
      else '(l, r) <- strchr s' c ;; Some (a :: l, r)
  end.

(** [p + n] for a pointer that stays inside the buffer. *)
Definition advance (p : bytes) (n : Z) : option bytes :=
  if (0 <=? n) && (n <=? Z.of_nat (length p)) then Some (skipn (Z.to_nat n) p) else None.

Definition redisProtocolToLuaType_Int (lua : lua_State) (reply : bytes)
  : option (lua_State * bytes) :=
  '(line, p) <- strchr (tl reply) CR ;;
  value <- string2ll line ;;
  let lua := lua_pushnumber lua (int_to_double value) in
  p <- advance p 2 ;;
  Some (lua, p).

Definition redisProtocolToLuaType_Bulk (lua : lua_State) (reply : bytes)
  : option (lua_State * bytes) :=
  '(line, p) <- strchr (tl reply) CR ;;
  bulklen <- string2ll line ;;
  if bulklen =? -1 then
    let lua := lua_pushboolean lua 0 in
    p <- advance p 2 ;;
    Some (lua, p)
  else
    if bulklen <? 0 then None else
    q <- advance p 2 ;;
    e <- advance q bulklen ;;
    let lua := lua_pushlstring lua (firstn (Z.to_nat bulklen) q) in
    p <- advance e 2 ;;
    Some (lua, p).

Definition redisProtocolToLuaType_Status (lua : lua_State) (reply : bytes)
  : option (lua_State * bytes) :=
  '(line, p) <- strchr (tl reply) CR ;;
  let lua := lua_newtable lua in
  let lua := lua_pushstring lua (str "ok") in
  let lua := lua_pushlstring lua line in
  lua <- lua_settable lua (-3) ;;
  p <- advance p 2 ;;
  Some (lua, p).

Definition redisProtocolToLuaType_Error (lua : lua_State) (reply : bytes)
  : option (lua_State * bytes) :=
  '(line, p) <- strchr (tl reply) CR ;;
  let lua := lua_newtable lua in
  let lua := lua_pushstring lua (str "err") in
  let lua := lua_pushlstring lua line in
  lua <- lua_settable lua (-3) ;;
  p <- advance p 2 ;;
  Some (lua, p).

(** The [for] loop of [redisProtocolToLuaType_MultiBulk]; [rec] is the
    recursive call to [redisProtocolToLuaType] and [n] bounds the number of
    iterations. *)
Fixpoint multibulk_loop (rec : lua_State -> bytes -> option (lua_State * bytes))
    (n : nat) (j mbulklen : Z) (lua : lua_State) (p : bytes)
  : option (lua_State * bytes) :=
  if j <? mbulklen then
    match n with
    | O => None
    | S n' =>
        let lua := lua_pushnumber lua (int_to_double (j + 1)) in
        '(lua, p) <- rec lua p ;;
        lua <- lua_settable lua (-3) ;;
        multibulk_loop rec n' (j + 1) mbulklen lua p
    end
  else Some (lua, p).

Definition redisProtocolToLuaType_MultiBulk
    (rec : lua_State -> bytes -> option (lua_State * bytes)) (n : nat)
    (lua : lua_State) (reply : bytes) : option (lua_State * bytes) :=
  '(line, p) <- strchr (tl reply) CR ;;
  mbulklen <- string2ll line ;;
  p <- advance p 2 ;;
  if mbulklen =? -1 then
    let lua := lua_pushboolean lua 0 in
    Some (lua, p)
  else
    let lua := lua_newtable lua in
    multibulk_loop rec n 0 mbulklen lua p.

(** [redisProtocolToLuaType] with the depth of the recursion bounded by
    [fuel]. The [switch] has no [default]: any other first byte (the
    terminating NUL of an empty buffer included) leaves [p = reply]. *)
Fixpoint redisProtocolToLuaType_fuel (fuel : nat) (lua : lua_State) (reply : bytes)
  : option (lua_State * bytes) :=
  match fuel with
  | O => None
  | S fuel' =>
      match reply with
      | [] => Some (lua, reply)
      | c :: _ =>
          if Ascii.eqb c ":" then redisProtocolToLuaType_Int lua reply
          else if Ascii.eqb c "$" then redisProtocolToLuaType_Bulk lua reply
          else if Ascii.eqb c "+" then redisProtocolToLuaType_Status lua reply
          else if Ascii.eqb c "-" then redisProtocolToLuaType_Error lua reply
          else if Ascii.eqb c "*" then
            redisProtocolToLuaType_MultiBulk (redisProtocolToLuaType_fuel fuel') fuel' lua reply
          else Some (lua, reply)
      end
  end.

(** Every nested reply and every loop iteration consumes at least one
    character, so the length of the buffer bounds both. *)
Definition redisProtocolToLuaType (lua : lua_State) (reply : bytes)
  : option (lua_State * bytes) :=
  redisProtocolToLuaType_fuel (S (length reply)) lua reply.

(** ** Reply translator: script value to wire reply (lines 854-938) *)

Definition value_size_list (value_size : LuaValue -> nat) : table -> nat :=
  fix go (t : table) : nat :=
    match t with
    | [] => O
    | (_, v) :: t' => (value_size v + go t')%nat
    end.

Fixpoint value_size (v : LuaValue) : nat :=
  match v with
  | LTable t => S (value_size_list value_size t)
  | _ => 1%nat
  end.

(** The [while (1)] loop of the table case; [rec] is the recursive call to
    [luaReplyToRedisReply] and [n] bounds the number of iterations. *)
Fixpoint reply_loop (rec : lua_State -> option (bytes * lua_State))
    (n : nat) (j mbulklen : Z) (rsp : bytes) (lua : lua_State)
  : option (Z * bytes * lua_State) :=
  match n with
  | O => None
  | S n' =>
      let lua := lua_pushnumber lua (int_to_double j) in
      lua <- lua_gettable lua (-2) ;;
      if lua_type_tag_eqb (lua_type lua (-1)) LUA_TNIL then
        lua <- lua_pop lua 1 ;;
        Some (mbulklen, rsp, lua)
      else
        '(r, lua) <- rec lua ;;
        reply_loop rec n' (j + 1) (mbulklen + 1) (rsp ++ r) lua
  end.

(** [luaReplyToRedisReply] with the depth of the recursion bounded by
    [fuel]. Every path of the source returns a value, so the result is the
    reply text together with the interpreter state. *)
Fixpoint luaReplyToRedisReply_fuel (fuel : nat) (lua : lua_State)
  : option (bytes * lua_State) :=
  match fuel with
  | O => None
  | S fuel' =>
      match lua_type lua (-1) with
      | LUA_TSTRING =>
          s <- lua_tolstring lua (-1) ;;
          let repl := fmtBulk s in
          lua <- lua_pop lua 1 ;;
          Some (repl, lua)
      | LUA_TBOOLEAN =>
          let repl := if lua_toboolean lua (-1) then fmtOne else fmtNull in
          lua <- lua_pop lua 1 ;;
          Some (repl, lua)
      | LUA_TNUMBER =>
          let repl := fmtLongLong (double_to_int64 (lua_tonumber lua (-1))) in
          lua <- lua_pop lua 1 ;;
          Some (repl, lua)
      | LUA_TTABLE =>
          let lua := lua_pushstring lua (str "err") in
          lua <- lua_gettable lua (-2) ;;
          if lua_type_tag_eqb (lua_type lua (-1)) LUA_TSTRING then
            err <- lua_tostring lua (-1) ;;
            let err := strmapchars err [CR; LF] (str "  ") 2 in
            lua <- lua_pop lua 2 ;;
            Some (str "-" ++ err ++ CRLF, lua)
          else
            lua <- lua_pop lua 1 ;;
            let lua := lua_pushstring lua (str "ok") in
            lua <- lua_gettable lua (-2) ;;
            if lua_type_tag_eqb (lua_type lua (-1)) LUA_TSTRING then
              ok <- lua_tostring lua (-1) ;;
              let ok := strmapchars ok [CR; LF] (str "  ") 2 in
              lua <- lua_pop lua 2 ;;
              Some (fmtBulk ok, lua)
            else
              lua <- lua_pop lua 1 ;;
              '(mbulklen, rsp, lua) <-
                reply_loop (luaReplyToRedisReply_fuel fuel') fuel' 1 0 [] lua ;;
              lua <- lua_pop lua 1 ;;
              Some (fmtMultiBulkLen mbulklen ++ rsp, lua)
      | _ =>
          lua <- lua_pop lua 1 ;;
          Some (fmtNull, lua)
      end
  end.

(** The value on top of the stack bounds the recursion and the loops. *)
Definition luaReplyToRedisReply (lua : lua_State) : option (bytes * lua_State) :=
  luaReplyToRedisReply_fuel
    (S (match stack lua with v :: _ => value_size v | [] => O end)) lua.

(** ** The engine and its collaborators *)

(** The part of a session that the engine reads or writes: the argument
    vector and the fields of its context. *)
Record Session := mkSession {
  sess_args : list bytes;
  ctx_authed : bool;
  ctx_dbId : Z;
  ctx_isInMulti : bool;
  ctx_flags : Z;
  sess_inLua : bool
}.

Definition setArgs (s : Session) (args : list bytes) : Session :=
  mkSession args (ctx_authed s) (ctx_dbId s) (ctx_isInMulti s) (ctx_flags s) (sess_inLua s).
Definition setAuthed (s : Session) : Session :=
  mkSession (sess_args s) true (ctx_dbId s) (ctx_isInMulti s) (ctx_flags s) (sess_inLua s).
Definition setDbId (s : Session) (id : Z) : Session :=
  mkSession (sess_args s) (ctx_authed s) id (ctx_isInMulti s) (ctx_flags s) (sess_inLua s).
Definition setMultiTo (s : Session) (b : bool) : Session :=
  mkSession (sess_args s) (ctx_authed s) (ctx_dbId s) b (ctx_flags s) (sess_inLua s).
Definition setFlags (s : Session) (f : Z) : Session :=
  mkSession (sess_args s) (ctx_authed s) (ctx_dbId s) (ctx_isInMulti s) f (sess_inLua s).
Definition setInLua (s : Session) (b : bool) : Session :=
  mkSession (sess_args s) (ctx_authed s) (ctx_dbId s) (ctx_isInMulti s) (ctx_flags s) b.

(** What the engine reads of the server entry. *)
Record ServerEntry := mkServer {
  isClusterEnabled : bool;
  isRunning : bool;
  luaTimeLimit : Z
}.

(** Calls that leave the engine, in the order they are made: a ghost log
    kept next to the state, used to state what was and was not called, and
    in which order. [RandomOutput] records a value handed back to the script
    by [math.random]. *)
Inductive Call :=
| CallSrand48 (seed : Z)
| CallLrand48
| RandomOutput (v : LuaValue)
| CallGetGlobal (name : bytes)
| CallSetGlobal (name : bytes) (v : LuaValue)
| CallLoadBuffer (chunk : bytes)
| CallPcall (f : LuaValue)
| CallSetHook (on : bool)
| CallLockKeys (keyidx : list Z)
| CallPrecheck (args : list bytes)
| CallRunSessionCmd (args : list bytes).

(** Result of a C function registered in the interpreter: the number of
    results left on the stack, or a raised error ([lua_error]). *)
Inductive CResult :=
| CReturn (n : Z)
| CRaise (v : LuaValue).

(** Result of a protected call. *)
Inductive PcallResult :=
| PcallOk (v : LuaValue)
| PcallErr (e : LuaValue).

Section Engine.

(** The store behind the command executor and the state of the [_rand]
    generator are opaque. *)
Context {DB RedisRand : Type}.

Record LuaState := mkLuaState {
  _lua : lua_State;
  _svr : ServerEntry;
  _sess : option Session;
  _fakeSess : option Session;
  inuse : Z;
  lua_random_dirty : Z;
  lua_write_dirty : Z;
  lua_replicate_commands : Z;
  lua_timedout : Z;
  lua_time_start : Z;
  _rand : RedisRand;
  db : DB;
  calls : list Call
}.

Definition set_lua (ls : LuaState) (x : lua_State) : LuaState :=
  mkLuaState x (_svr ls) (_sess ls) (_fakeSess ls) (inuse ls) (lua_random_dirty ls)
    (lua_write_dirty ls) (lua_replicate_commands ls) (lua_timedout ls)
    (lua_time_start ls) (_rand ls) (db ls) (calls ls).
Definition set_sess (ls : LuaState) (x : option Session) : LuaState :=
  mkLuaState (_lua ls) (_svr ls) x (_fakeSess ls) (inuse ls) (lua_random_dirty ls)
    (lua_write_dirty ls) (lua_replicate_commands ls) (lua_timedout ls)
    (lua_time_start ls) (_rand ls) (db ls) (calls ls).
Definition set_fakeSess (ls : LuaState) (x : option Session) : LuaState :=
  mkLuaState (_lua ls) (_svr ls) (_sess ls) x (inuse ls) (lua_random_dirty ls)
    (lua_write_dirty ls) (lua_replicate_commands ls) (lua_timedout ls)
    (lua_time_start ls) (_rand ls) (db ls) (calls ls).
Definition set_inuse (ls : LuaState) (x : Z) : LuaState :=
  mkLuaState (_lua ls) (_svr ls) (_sess ls) (_fakeSess ls) x (lua_random_dirty ls)
    (lua_write_dirty ls) (lua_replicate_commands ls) (lua_timedout ls)
    (lua_time_start ls) (_rand ls) (db ls) (calls ls).
Definition set_random_dirty (ls : LuaState) (x : Z) : LuaState :=
  mkLuaState (_lua ls) (_svr ls) (_sess ls) (_fakeSess ls) (inuse ls) x
    (lua_write_dirty ls) (lua_replicate_commands ls) (lua_timedout ls)
    (lua_time_start ls) (_rand ls) (db ls) (calls ls).
Definition set_write_dirty (ls : LuaState) (x : Z) : LuaState :=
  mkLuaState (_lua ls) (_svr ls) (_sess ls) (_fakeSess ls) (inuse ls) (lua_random_dirty ls)
    x (lua_replicate_commands ls) (lua_timedout ls)
    (lua_time_start ls) (_rand ls) (db ls) (calls ls).
Definition set_replicate_commands (ls : LuaState) (x : Z) : LuaState :=
  mkLuaState (_lua ls) (_svr ls) (_sess ls) (_fakeSess ls) (inuse ls) (lua_random_dirty ls)
    (lua_write_dirty ls) x (lua_timedout ls)
    (lua_time_start ls) (_rand ls) (db ls) (calls ls).
Definition set_timedout (ls : LuaState) (x : Z) : LuaState :=
  mkLuaState (_lua ls) (_svr ls) (_sess ls) (_fakeSess ls) (inuse ls) (lua_random_dirty ls)
    (lua_write_dirty ls) (lua_replicate_commands ls) x
    (lua_time_start ls) (_rand ls) (db ls) (calls ls).
Definition set_time_start (ls : LuaState) (x : Z) : LuaState :=
  mkLuaState (_lua ls) (_svr ls) (_sess ls) (_fakeSess ls) (inuse ls) (lua_random_dirty ls)
    (lua_write_dirty ls) (lua_replicate_commands ls) (lua_timedout ls)
    x (_rand ls) (db ls) (calls ls).
Definition set_rand (ls : LuaState) (x : RedisRand) : LuaState :=
  mkLuaState (_lua ls) (_svr ls) (_sess ls) (_fakeSess ls) (inuse ls) (lua_random_dirty ls)
    (lua_write_dirty ls) (lua_replicate_commands ls) (lua_timedout ls)
    (lua_time_start ls) x (db ls) (calls ls).
Definition set_db (ls : LuaState) (x : DB) : LuaState :=
  mkLuaState (_lua ls) (_svr ls) (_sess ls) (_fakeSess ls) (inuse ls) (lua_random_dirty ls)
    (lua_write_dirty ls) (lua_replicate_commands ls) (lua_timedout ls)
    (lua_time_start ls) (_rand ls) x (calls ls).
Definition log (ls : LuaState) (c : Call) : LuaState :=
  mkLuaState (_lua ls) (_svr ls) (_sess ls) (_fakeSess ls) (inuse ls) (lua_random_dirty ls)
    (lua_write_dirty ls) (lua_replicate_commands ls) (lua_timedout ls)
    (lua_time_start ls) (_rand ls) (db ls) (calls ls ++ [c]).

(** The server-side collaborators: the generator behind [_rand], the
    command table and executor, the key-lock manager, and the constants
    and library routines declared outside this file. *)
Class Collaborators := {
  (** [_rand.redisSrand48(seed)]. Modelled from the spec: seeding fixes the
      whole state of the generator. *)
  redisSrand48 : Z -> RedisRand;
  redisLrand48 : RedisRand -> Z * RedisRand;
  REDIS_LRAND48_MAX : Z;
  (** [SHA1Init]/[SHA1Update]/[SHA1Final]: the 20 bytes of the digest. *)
  SHA1 : bytes -> list Z;
  CMD_WRITE : Z;
  CMD_RANDOM : Z;
  CMD_NOSCRIPT : Z;
  CMD_SORT_FOR_SCRIPT : Z;
  CLIENT_READONLY : Z;
  Command_precheck : Session -> Expected bytes;
  (** [commandMap().find(name)->second->getFlags()]. *)
  command_flags : bytes -> Z;
  Command_runSessionCmd : DB -> Session -> DB * Expected bytes;
  Status_toString : Status -> bytes;
  (** [getSegmentMgr()->getAllKeysLocked(sess, args, keyidx, LOCK_X)]. *)
  getAllKeysLocked : DB -> Session -> list bytes -> list Z -> Expected unit;
  (** A fresh [LocalSessionGuard] session. *)
  LocalSession : ServerEntry -> Session;
  toLower : bytes -> bytes;
  (** [snprintf(dbuf, sizeof(dbuf), "%.17g", num)]. *)
  fmt_17g : lua_Number -> bytes;
  (** What the auxiliary library raises: [luaL_error] and [luaL_argerror]
      add position information to their message. *)
  luaL_error : bytes -> LuaValue;
  luaL_argerror : Z -> bytes -> LuaValue;
  (** Conversion of a string to a number by the interpreter. *)
  lua_str2number : bytes -> option lua_Number
}.

(** The interpreter proper: compiling a chunk, calling a function value in
    protected mode (with every effect the callee has on the engine), and
    [table.sort]. *)
Class Interpreter := {
  (** [luaL_loadbuffer(L, buf, len, name)]: a function or a message. *)
  compile_chunk : bytes -> bytes -> LuaValue + bytes;
  (** The callee and the error handler, if any. *)
  run_pcall : LuaValue -> option LuaValue -> LuaState -> PcallResult * LuaState;
  (** [table.sort(t)] and [table.sort(t, __redis__compare_helper)], as
      the interpreter in the state given has them, seen by what they do
      to the array: the array as the call leaves it, and the error value
      when the call raises. *)
  table_sort : lua_State -> LuaValue -> LuaValue * option LuaValue;
  table_sort_compare_helper : lua_State -> LuaValue -> LuaValue * option LuaValue
}.

Context {C : Collaborators} {I : Interpreter}.

Definition has_flag (flags mask : Z) : bool := negb (Z.land flags mask =? 0).

(** *** [luaPushError] and [luaRaiseError] (lines 138-169) *)

Definition luaPushError (lua : lua_State) (error : bytes) : option lua_State :=
  let lua := lua_newtable lua in
  let lua := lua_pushstring lua (str "err") in
  let lua :=
    match level1 lua with
    | Some (source, currentline) =>
        let msg := c_str source ++ str ": " ++ ll2string currentline
                   ++ str ": " ++ c_str error in
        lua_pushstring lua msg
    | None => lua_pushstring lua error
    end in
  lua_settable lua (-3).

(** [lua_error] raises the value on top of the stack. *)
Definition luaRaiseError (lua : lua_State) : option (CResult * lua_State) :=
  let lua := lua_pushstring lua (str "err") in
  lua <- lua_gettable lua (-2) ;;
  v <- index2adr lua (-1) ;;
  Some (CRaise v, lua).

(** *** [luaSortArray] (lines 177-200)

    The array on top of the stack is sorted in place by [table.sort] under
    [lua_pcall]; when that call fails its error is dropped and the sort is
    retried with [__redis__compare_helper] under [lua_call], which is not
    protected: an error of the retry is raised to the caller of the C
    function that called [luaSortArray]. The result is that error, if any,
    and the stack as it is then: the array and the global [table], with
    the error above them when there is one. *)
Definition luaSortArray (lua : lua_State) : option (option LuaValue * lua_State) :=
  array <- index2adr lua (-1) ;;
  let lua := lua_getglobal lua (str "table") in
  let '(array, err) := table_sort lua array in
  let lua := with_stack lua (list_set (stack lua) 1 array) in
  match err with
  | None => lua <- lua_pop lua 1 ;; Some (None, lua)
  | Some _ =>
      let '(array, err) := table_sort_compare_helper lua array in
      let lua := with_stack lua (list_set (stack lua) 1 array) in
      match err with
      | None => lua <- lua_pop lua 1 ;; Some (None, lua)
      | Some e => Some (Some e, lua_push lua e)
      end
  end.

(** *** [sha1hex] (lines 940-955) *)

Definition cset : bytes := str "0123456789abcdef".

Definition sha1hex (script : bytes) : bytes :=
  let hash := SHA1 script in
  flat_map
    (fun j =>
       let h := nth j hash 0 in
       [nth (Z.to_nat (Z.shiftr (Z.land h 240) 4)) cset NUL;
        nth (Z.to_nat (Z.land h 15)) cset NUL])
    (seq 0 20).

(** *** Calls into the interpreter, logged *)

Definition ls_getglobal (ls : LuaState) (name : bytes) : LuaState :=
  set_lua (log ls (CallGetGlobal (c_str name))) (lua_getglobal (_lua ls) name).

Definition ls_setglobal (ls : LuaState) (name : bytes) : option LuaState :=
  v <- index2adr (_lua ls) (-1) ;;
  lua <- lua_setglobal (_lua ls) name ;;
  Some (set_lua (log ls (CallSetGlobal (c_str name) v)) lua).

(** [luaL_loadbuffer]: the compiled chunk or the error message is pushed. *)
Definition luaL_loadbuffer (ls : LuaState) (buf name : bytes) : Z * LuaState :=
  let ls := log ls (CallLoadBuffer buf) in
  match compile_chunk buf name with
  | inl f => (0, set_lua ls (lua_push (_lua ls) f))
  | inr msg => (1, set_lua ls (lua_push (_lua ls) (LString msg)))
  end.

(** [lua_pcall(L, 0, nresults, errfunc)]: the function on top is popped and
    called; on success [nresults] (0 or 1) results are pushed, on failure
    the error value is. *)
Definition lua_pcall (ls : LuaState) (nresults : Z) (errfunc : Z) : option (Z * LuaState) :=
  match stack (_lua ls) with
  | f :: s' =>
      let h := if errfunc =? 0 then None else index2adr (_lua ls) errfunc in
      let ls := log ls (CallPcall f) in
      let '(r, ls') := run_pcall f h (set_lua ls (with_stack (_lua ls) s')) in
      match r with
      | PcallOk v =>
          Some (0, set_lua ls' (with_stack (_lua ls')
                                  (if nresults =? 0 then s' else v :: s')))
      | PcallErr e => Some (1, set_lua ls' (with_stack (_lua ls') (e :: s')))
      end
  | [] => None
  end.

(** *** [luaCreateFunction] (lines 202-236) *)

Definition luaCreateFunction (ls : LuaState) (body : bytes)
  : option (Expected bytes * LuaState) :=
  let funcname := str "f_" ++ sha1hex body in
  let funcdef := str "function " ++ funcname ++ str "() " ++ body
                 ++ [LF] ++ str "end" in
  let '(rc, ls) := luaL_loadbuffer ls funcdef (str "@user_script") in
  if negb (rc =? 0) then
    msg <- lua_tostring (_lua ls) (-1) ;;
    let err := str "Error compiling script (new function):" ++ msg in
    lua <- lua_pop (_lua ls) 1 ;;
    Some (Err (mkStatus ERR_LUA err), set_lua ls lua)
  else
    '(rc, ls) <- lua_pcall ls 0 0 ;;
    if negb (rc =? 0) then
      msg <- lua_tostring (_lua ls) (-1) ;;
      let err := str "Error running script (new function):" ++ msg in
      lua <- lua_pop (_lua ls) 1 ;;
      Some (Err (mkStatus ERR_LUA err), set_lua ls lua)
    else Some (Ok funcname, ls).

(** *** [luaSetGlobalArray] (lines 240-250) *)

Fixpoint luaSetGlobalArray_loop (lua : lua_State) (args : list bytes)
    (start : Z) (n : nat) (j : Z) : option lua_State :=
  match n with
  | O => Some lua
  | S n' =>
      a <- nth_error args (Z.to_nat (start + j)) ;;
      let lua := lua_pushlstring lua a in
      lua <- lua_rawseti lua (-2) (j + 1) ;;
      luaSetGlobalArray_loop lua args start n' (j + 1)
  end.

Definition luaSetGlobalArray (ls : LuaState) (var : bytes) (args : list bytes)
    (start num : Z) : option LuaState :=
  let lua := lua_newtable (_lua ls) in
  lua <- luaSetGlobalArray_loop lua args start (Z.to_nat num) 0 ;;
  ls_setglobal (set_lua ls lua) var.

(** *** The deterministic [math.random] (lines 262-296)

    A C function sees its arguments as the whole stack, first argument at
    index 1. *)

Definition type_name (t : lua_type_tag) : bytes :=
  match t with
  | LUA_TNONE => str "no value"
  | LUA_TNIL => str "nil"
  | LUA_TBOOLEAN => str "boolean"
  | LUA_TNUMBER => str "number"
  | LUA_TSTRING => str "string"
  | LUA_TTABLE => str "table"
  | LUA_TFUNCTION => str "function"
  end.

(** What the auxiliary library raises is pushed before it is raised:
    [luaL_error] and [luaL_argerror] leave their message on top of the
    stack of the C function. *)
Definition lua_raise (lua : lua_State) (e : LuaValue) : LuaValue * lua_State :=
  (e, lua_push lua e).

(** [luaL_checkint]: the argument as a number, truncated to [lua_Integer]
    and then to [int]; a type error otherwise, for which [luaL_typerror]
    first pushes the text "number expected, got ..." and [luaL_argerror]
    then pushes and raises the message built from it. *)
Definition luaL_checkint (lua : lua_State) (narg : Z) : (LuaValue * lua_State) + Z :=
  let msg := str "number expected, got " ++ type_name (lua_type lua narg) in
  let bad := lua_raise (lua_pushstring lua msg) (luaL_argerror narg msg) in
  match index2adr lua narg with
  | Some (LNumber n) => inr (static_cast_int (double_to_int64 n))
  | Some (LString s) =>
      match lua_str2number s with
      | Some n => inr (static_cast_int (double_to_int64 n))
      | None => inl bad
      end
  | _ => inl bad
  end.

(** A C function left by an error raised on its stack. *)
Definition leave_raising (ls : LuaState) (r : LuaValue * lua_State) : CResult * LuaState :=
  (CRaise (fst r), set_lua ls (snd r)).

(** [floor] of a double. *)
Definition double_floor (d : lua_Number) : lua_Number :=
  match d with
  | S754_finite s m e =>
      if 0 <=? e then d
      else
        let q := Z.pos m / 2 ^ (- e) in
        let exact := Z.pos m mod 2 ^ (- e) =? 0 in
        let z := if s then (if exact then - q else - q - 1) else q in
        binary_normalize dprec demax z 0 s
  | _ => d
  end.

Definition dmul (a b : lua_Number) : lua_Number := SFmul dprec demax a b.
Definition dadd (a b : lua_Number) : lua_Number := SFadd dprec demax a b.
Definition ddiv (a b : lua_Number) : lua_Number := SFdiv dprec demax a b.

Definition random_return (ls : LuaState) (n : lua_Number) : CResult * LuaState :=
  let ls := set_lua ls (lua_pushnumber (_lua ls) n) in
  (CReturn 1, log ls (RandomOutput (LNumber n))).

Definition redis_math_random (ls : LuaState) : CResult * LuaState :=
  let L := _lua ls in
  let '(x, rnd) := redisLrand48 (_rand ls) in
  let ls := set_rand (log ls CallLrand48) rnd in
  let r := ddiv (int_to_double (Z.rem x REDIS_LRAND48_MAX))
                (int_to_double REDIS_LRAND48_MAX) in
  let top := lua_gettop L in
  if top =? 0 then random_return ls r
  else if top =? 1 then
    match luaL_checkint L 1 with
    | inl e => leave_raising ls e
    | inr u =>
        if negb (1 <=? u) then
          leave_raising ls (lua_raise L (luaL_argerror 1 (str "interval is empty")))
        else random_return ls (dadd (double_floor (dmul r (int_to_double u)))
                                    (int_to_double 1))
    end
  else if top =? 2 then
    match luaL_checkint L 1 with
    | inl e => leave_raising ls e
    | inr l =>
        match luaL_checkint L 2 with
        | inl e => leave_raising ls e
        | inr u =>
            if negb (l <=? u) then
              leave_raising ls (lua_raise L (luaL_argerror 2 (str "interval is empty")))
            else
              random_return ls
                (dadd (double_floor
                         (dmul r (int_to_double (static_cast_int (u - l + 1)))))
                      (int_to_double l))
        end
    end
  else leave_raising ls (lua_raise L (luaL_error (str "wrong number of arguments"))).

Definition redis_math_randomseed (ls : LuaState) : CResult * LuaState :=
  match luaL_checkint (_lua ls) 1 with
  | inl e => leave_raising ls e
  | inr seed => (CReturn 0, set_rand (log ls (CallSrand48 seed)) (redisSrand48 seed))
  end.

(** *** [updateFakeClient] (lines 1137-1150) *)

Definition updateFakeClient (ls : LuaState) : option LuaState :=
  sess <- _sess ls ;;
  let fake :=
    match _fakeSess ls with
    | None => setInLua (LocalSession (_svr ls)) true
    | Some f => f
    end in
  let fake :=
    if negb (ctx_authed fake) && ctx_authed sess then setAuthed fake else fake in
  let fake :=
    if negb (ctx_dbId fake =? ctx_dbId sess) then setDbId fake (ctx_dbId sess)
    else fake in
  Some (set_fakeSess ls (Some fake)).

(** *** [luaRedisGenericCommand] (lines 299-479)

    The engine recovers itself from the global [lua_state]
    ([getLuaStateFromLua]); the model passes the engine state. *)

Definition recursion_warning : bytes :=
  str "luaRedisGenericCommand() recursive call detected. " ++
  str "Are you doing funny stuff with Lua debug hooks?".

Definition write_after_random_error : bytes :=
  str "Write commands not allowed after non deterministic commands." ++
  str "Call redis.replicate_commands() at the start of your script " ++
  str "in order to switch to single commands replication mode.".

(** The argument loop (lines 336-354): the arguments converted so far and
    the index at which the loop stopped. *)
Fixpoint collect_args (lua : lua_State) (n : nat) (j : Z) (args : list bytes)
  : list bytes * Z :=
  match n with
  | O => (args, j)
  | S n' =>
      if lua_type_tag_eqb (lua_type lua (j + 1)) LUA_TNUMBER then
        let num := lua_tonumber lua (j + 1) in
        collect_args lua n' (j + 1) (args ++ [fmt_17g num])
      else
        match lua_tolstring lua (j + 1) with
        | None => (args, j)
        | Some s => collect_args lua n' (j + 1) (args ++ [s])
        end
  end.

(** Early exits taken before the scope guard exists (lines 327-333 and
    359-365): the flag is released by hand. *)
Definition early_exit (ls : LuaState) (raise_error : Z) (msg : bytes)
  : option (CResult * LuaState) :=
  lua <- luaPushError (_lua ls) msg ;;
  let ls := set_lua ls lua in
  let ls := set_inuse ls (inuse ls - 1) in
  if negb (raise_error =? 0) then
    '(r, lua) <- luaRaiseError (_lua ls) ;; Some (r, set_lua ls lua)
  else Some (CReturn 1, ls).

(** The scope guard (lines 367-378), run at every [return] that follows
    its construction, with the value [raise_error] has at that point. An
    error raised out of [luaSortArray] (line 474) leaves the function
    without a [return]: the guard does not run and [inuse] keeps the value
    the increment of line 324 gave it. *)
Definition guard_exit (ls : LuaState) (raise_error : Z) : option (CResult * LuaState) :=
  if negb (raise_error =? 0) then
    let ls := set_inuse ls (inuse ls - 1) in
    '(r, lua) <- luaRaiseError (_lua ls) ;; Some (r, set_lua ls lua)
  else
    let ls := set_inuse ls (inuse ls - 1) in
    Some (CReturn 1, ls).

Definition luaRedisGenericCommand (ls : LuaState) (raise_error : Z)
  : option (CResult * LuaState) :=
  let argc := lua_gettop (_lua ls) in
  ls <- updateFakeClient ls ;;
  sess <- _sess ls ;;
  fake <- _fakeSess ls ;;
  let ls := set_fakeSess ls (Some (setMultiTo fake (ctx_isInMulti sess))) in
  if negb (inuse ls =? 0) then
    lua <- luaPushError (_lua ls) recursion_warning ;;
    Some (CReturn 1, set_lua ls lua)
  else
  let ls := set_inuse ls (inuse ls + 1) in
  if argc =? 0 then
    early_exit ls raise_error
      (str "Please specify at least one argument for redis.call()")
  else
  let '(args, j) := collect_args (_lua ls) (Z.to_nat argc) 0 [] in
  if negb (j =? argc) then
    early_exit ls raise_error
      (str "Lua redis() command arguments must be strings or integers")
  else
  fake <- _fakeSess ls ;;
  let fake := setArgs fake args in
  let ls := set_fakeSess ls (Some fake) in
  let ls := log ls (CallPrecheck args) in
  match Command_precheck fake with
  | Err st =>
      '(lua, _) <- redisProtocolToLuaType (_lua ls) (Status_toString st) ;;
      guard_exit (set_lua ls lua) raise_error
  | Ok _ =>
  let commandName := toLower (hd [] args) in
  let flags := command_flags commandName in
  if has_flag flags CMD_NOSCRIPT then
    lua <- luaPushError (_lua ls) (str "This Redis command is not allowed from scripts") ;;
    guard_exit (set_lua ls lua) raise_error
  else
  if has_flag flags CMD_WRITE
     && negb (lua_random_dirty ls =? 0) && (lua_replicate_commands ls =? 0) then
    lua <- luaPushError (_lua ls) write_after_random_error ;;
    guard_exit (set_lua ls lua) raise_error
  else
  let ls := if has_flag flags CMD_RANDOM then set_random_dirty ls 1 else ls in
  let ls := if has_flag flags CMD_WRITE then set_write_dirty ls 1 else ls in
  let ls :=
    if isClusterEnabled (_svr ls) && isRunning (_svr ls) && (ctx_flags sess =? 0) then
      let flags := ctx_flags fake in
      let flags := Z.ldiff flags CLIENT_READONLY in
      let flags := Z.lor flags (Z.land (ctx_flags sess) CLIENT_READONLY) in
      set_fakeSess ls (Some (setFlags fake flags))
    else ls in
  fake <- _fakeSess ls ;;
  let ls := log ls (CallRunSessionCmd args) in
  let '(db', expect) := Command_runSessionCmd (db ls) fake in
  let ls := set_db ls db' in
  match expect with
  | Err st =>
      '(lua, _) <- redisProtocolToLuaType (_lua ls) (Status_toString st) ;;
      guard_exit (set_lua ls lua) raise_error
  | Ok value =>
      let raise_error :=
        if negb (raise_error =? 0)
           && negb (match value with c :: _ => Ascii.eqb c "-" | [] => true end)
        then 0 else raise_error in
      '(lua, _) <- redisProtocolToLuaType (_lua ls) value ;;
      let ls := set_lua ls lua in
      if has_flag flags CMD_SORT_FOR_SCRIPT
         && (lua_replicate_commands ls =? 0)
         && match value with
            | c0 :: c1 :: _ => Ascii.eqb c0 "*" && negb (Ascii.eqb c1 "-")
            | _ => false
            end
      then
        '(err, lua) <- luaSortArray (_lua ls) ;;
        match err with
        | Some e => Some (CRaise e, set_lua ls lua)
        | None => guard_exit (set_lua ls lua) raise_error
        end
      else guard_exit ls raise_error
  end
  end.

(** [redis.call] and [redis.pcall] (lines 482-489). *)
Definition luaRedisCallCommand (ls : LuaState) := luaRedisGenericCommand ls 1.
Definition luaRedisPCallCommand (ls : LuaState) := luaRedisGenericCommand ls 0.

(** *** [evalGenericCommand] (lines 1001-1135)

    [funcname0] is the content of the local array [funcname] when the
    function is entered, and [now] the reading of [msSinceEpoch()]. *)

(** Lines 1038-1063: look the function up, define it when it is missing
    and the body is at hand. A failed [serverAssert] has no result. *)
Definition evalGenericCommand_resolve (ls : LuaState) (args : list bytes)
    (evalsha : Z) (funcname : bytes) : option (Expected unit * LuaState) :=
  let ls := ls_getglobal ls (str "__redis__err__handler") in
  let ls := ls_getglobal ls funcname in
  if lua_isnil (_lua ls) (-1) then
    lua <- lua_pop (_lua ls) 1 ;;
    let ls := set_lua ls lua in
    if negb (evalsha =? 0) then
      lua <- lua_pop (_lua ls) 1 ;;
      Some (Err (mkStatus ERR_LUA
                   (str "-NOSCRIPT No matching script. Please use EVAL." ++ CRLF)),
            set_lua ls lua)
    else
      body <- nth_error args 1 ;;
      '(ret, ls) <- luaCreateFunction ls body ;;
      if negb (expected_ok ret) then
        lua <- lua_pop (_lua ls) 1 ;;
        Some (Err (mkStatus ERR_LUA (str "luaCreateFunction failed")), set_lua ls lua)
      else
        let ls := ls_getglobal ls funcname in
        if lua_isnil (_lua ls) (-1) then None else Some (Ok tt, ls)
  else Some (Ok tt, ls).

(** Lines 1067-1069. *)
Definition evalGenericCommand_bind (ls : LuaState) (args : list bytes) (numkeys : Z)
  : option LuaState :=
  ls <- luaSetGlobalArray ls (str "KEYS") args 3 numkeys ;;
  luaSetGlobalArray ls (str "ARGV") args (3 + numkeys)
    (Z.of_nat (length args) - 3 - numkeys).

(** Lines 1094-1134: the call itself and the translation of its result. *)
Definition evalGenericCommand_run (ls : LuaState) (funcname : bytes) (now : Z)
  : option (Expected bytes * LuaState) :=
  let ls := set_time_start ls now in
  let delhook := 0 <? luaTimeLimit (_svr ls) in
  let ls :=
    if delhook then
      set_lua (log ls (CallSetHook true)) (lua_sethook (_lua ls) (Some 100000))
    else ls in
  '(err, ls) <- lua_pcall ls 1 (-2) ;;
  let ls :=
    if delhook then set_lua (log ls (CallSetHook false)) (lua_sethook (_lua ls) None)
    else ls in
  let ls := if negb (lua_timedout ls =? 0) then set_timedout ls 0 else ls in
  if negb (err =? 0) then
    msg <- lua_tostring (_lua ls) (-1) ;;
    let errInfo := str "Error running script (call to " ++ c_str funcname
                   ++ str "):" ++ msg in
    lua <- lua_pop (_lua ls) 2 ;;
    Some (Err (mkStatus ERR_LUA errInfo), set_lua ls lua)
  else
    '(ret, lua) <- luaReplyToRedisReply (_lua ls) ;;
    lua <- lua_pop lua 1 ;;
    Some (Ok ret, set_lua ls lua).

(** Lines 1065-1135: bind KEYS and ARGV, lock the keys, call. From the
    construction of the scope guard on, every return resets [_sess]. *)
Definition evalGenericCommand_invoke (ls : LuaState) (args : list bytes)
    (numkeys : Z) (funcname : bytes) (now : Z) : option (Expected bytes * LuaState) :=
  ls <- evalGenericCommand_bind ls args numkeys ;;
  ls <- updateFakeClient ls ;;
  fake <- _fakeSess ls ;;
  let keyidx := map Z.of_nat (seq 3 (Z.to_nat numkeys)) in
  let ls := log ls (CallLockKeys keyidx) in
  match getAllKeysLocked (db ls) fake args keyidx with
  | Err st =>
      lua <- lua_pop (_lua ls) 2 ;;
      Some (Err st, set_sess (set_lua ls lua) None)
  | Ok _ =>
      '(ret, ls) <- evalGenericCommand_run ls funcname now ;;
      Some (ret, set_sess ls None)
  end.

Definition evalGenericCommand (ls : LuaState) (sess : Session) (evalsha : Z)
    (funcname0 : bytes) (now : Z) : option (Expected bytes * LuaState) :=
  let ls := set_sess ls (Some sess) in
  let args := sess_args sess in
  let ls := set_rand (log ls (CallSrand48 0)) (redisSrand48 0) in
  let ls := set_random_dirty ls 0 in
  let ls := set_write_dirty ls 0 in
  let lua_always_replicate_commands := 0 in
  let ls := set_replicate_commands ls lua_always_replicate_commands in
  a2 <- nth_error args 2 ;;
  match stoll a2 with
  | Err st => Some (Err st, ls)
  | Ok numkeys =>
  if numkeys >? static_cast_int (Z.of_nat (length args) - 3) then
    Some (Err (mkStatus ERR_LUA
                 (str "Number of keys can't be greater than number of args")), ls)
  else if numkeys <? 0 then
    Some (Err (mkStatus ERR_LUA (str "Number of keys can't be negative")), ls)
  else
  hex <- (if evalsha =? 0
          then a1 <- nth_error args 1 ;; Some (sha1hex a1 ++ [NUL])
          else Some (skipn 2 funcname0)) ;;
  let funcname := "f"%char :: "_"%char :: hex in
  '(res, ls) <- evalGenericCommand_resolve ls args evalsha funcname ;;
  match res with
  | Err st => Some (Err st, ls)
  | Ok _ =>
  evalGenericCommand_invoke ls args numkeys funcname now
  end
  end.

Definition evalCommand (ls : LuaState) (sess : Session) (funcname0 : bytes) (now : Z) :=
  evalGenericCommand ls sess 0 funcname0 now.

(** *** Scripts that only use the deterministic generator

    The behaviour of a function value that does nothing but call
    [math.random] and [math.randomseed], as a tree: each call hands its
    result to the rest of the script. [SDefine] is the function statement
    of a chunk, which assigns a global. *)
Inductive Script :=
| SReturn (v : LuaValue)
| SError (e : LuaValue)
| SRandom (args : list LuaValue) (k : LuaValue -> Script)
| SRandomSeed (args : list LuaValue) (k : Script)
| SDefine (name : bytes) (f : LuaValue) (k : Script).

(** A C function runs on a frame of its own that holds its arguments. *)
Definition call_c (f : LuaState -> CResult * LuaState) (args : list LuaValue)
    (ls : LuaState) : (LuaValue + LuaValue) * LuaState :=
  let saved := stack (_lua ls) in
  let '(r, ls') := f (set_lua ls (with_stack (_lua ls) (rev args))) in
  let back := set_lua ls' (with_stack (_lua ls') saved) in
  match r with
  | CReturn n =>
      (inl (if n =? 0 then LNil else hd LNil (stack (_lua ls'))), back)
  | CRaise e => (inr e, back)
  end.

Fixpoint exec_script (p : Script) (ls : LuaState) : PcallResult * LuaState :=
  match p with
  | SReturn v => (PcallOk v, ls)
  | SError e => (PcallErr e, ls)
  | SRandom args k =>
      match call_c redis_math_random args ls with
      | (inl v, ls) => exec_script (k v) ls
      | (inr e, ls) => (PcallErr e, ls)
      end
  | SRandomSeed args k =>
      match call_c redis_math_randomseed args ls with
      | (inl _, ls) => exec_script k ls
      | (inr e, ls) => (PcallErr e, ls)
      end
  | SDefine name f k =>
      exec_script k
        (set_lua ls (with_globals (_lua ls) (rawset (globals (_lua ls)) (KString name) f)))
  end.

End Engine.

Arguments LuaState : clear implicits.
Arguments Collaborators : clear implicits.
Arguments Interpreter : clear implicits.

(** An interpreter whose function values behave as the scripts [sem] gives
    them; the error handler leaves the error value as it is, and
    [table.sort], which is no part of those scripts, raises whatever it is
    called on. *)
Definition ScriptInterpreter {DB RedisRand : Type} {C : Collaborators DB RedisRand}
    (compile : bytes -> bytes -> LuaValue + bytes) (sem : LuaValue -> Script)
  : Interpreter DB RedisRand :=
  {| compile_chunk := compile;
     run_pcall := fun f _ ls => exec_script (sem f) ls;
     table_sort := fun _ a => (a, Some (LString (str "attempt to call a nil value")));
     table_sort_compare_helper :=
       fun _ a => (a, Some (LString (str "attempt to call a nil value"))) |}.

(** ** The wire grammar

    The replies of the five-tag grammar, as a tree, and their text. *)
Inductive Reply :=
| RInteger (z : Z)
| RBulk (s : bytes)
| RNil
| RStatus (line : bytes)
| RError (line : bytes)
| RArray (l : list Reply)
| RNilArray.

Fixpoint wire (r : Reply) : bytes :=
  match r with
  | RInteger z => str ":" ++ ll2string z ++ CRLF
  | RBulk s => str "$" ++ ll2string (Z.of_nat (length s)) ++ CRLF ++ s ++ CRLF
  | RNil => str "$-1" ++ CRLF
  | RStatus line => str "+" ++ line ++ CRLF
  | RError line => str "-" ++ line ++ CRLF
  | RArray l => str "*" ++ ll2string (Z.of_nat (length l)) ++ CRLF ++ flat_map wire l
  | RNilArray => str "*-1" ++ CRLF
  end.

(** Characters that end neither a line nor a C string. *)
Definition plain_char (c : ascii) : bool :=
  negb (Ascii.eqb c CR) && negb (Ascii.eqb c NUL).

(** A line holds no CR, LF or NUL. *)
Definition line_char (c : ascii) : bool :=
  negb (Ascii.eqb c CR) && negb (Ascii.eqb c LF) && negb (Ascii.eqb c NUL).

(** Well-formed replies: integers fit 64 signed bits, lines are lines, and
    the lengths fit the counters of the translator ([int]). *)
Fixpoint wf (r : Reply) : bool :=
  match r with
  | RInteger z => in_int64 z
  | RBulk s => Z.of_nat (length s) <=? INT64_MAX
  | RStatus line | RError line => forallb line_char line
  | RArray l => (Z.of_nat (length l) <=? INT_MAX) && forallb wf l
  | RNil | RNilArray => true
  end.

(** The entries of an array table whose first index is [j]. *)
Fixpoint entries_from (j : Z) (vs : list LuaValue) : table :=
  match vs with
  | [] => []
  | v :: vs' => (KNumber (int_to_double j), v) :: entries_from (j + 1) vs'
  end.

(** The script value a reply stands for. *)
Fixpoint value_of (r : Reply) : LuaValue :=
  match r with
  | RInteger z => LNumber (int_to_double z)
  | RBulk s => LString s
  | RNil | RNilArray => LBoolean false
  | RStatus line => LTable [(KString (str "ok"), LString line)]
  | RError line => LTable [(KString (str "err"), LString line)]
  | RArray l => LTable (entries_from 1 (map value_of l))
  end.

(** A reply round-trips when decoding its text and encoding the value
    obtained gives the text back, consuming the whole text and the value. *)
Definition round_trips (r : Reply) : Prop :=
  forall lua : lua_State,
  exists lua' : lua_State,
    redisProtocolToLuaType lua (wire r) = Some (lua', [])
    /\ luaReplyToRedisReply lua' = Some (wire r, lua).

Fixpoint reply_size (r : Reply) : nat :=
  match r with
  | RArray l => S (list_sum (map reply_size l))
  | RStatus _ | RError _ => 2%nat
  | _ => 1%nat
  end.

(** The text obtained by decoding the text of a reply and encoding the
    value: what [luaReplyToRedisReply] makes of [value_of r]. *)
Fixpoint reencode (r : Reply) : bytes :=
  match r with
  | RInteger z => fmtLongLong (double_to_int64 (int_to_double z))
  | RBulk s => fmtBulk s
  | RNil | RNilArray => fmtNull
  | RStatus line => fmtBulk (strmapchars (c_str line) [CR; LF] (str "  ") 2)
  | RError line => str "-" ++ strmapchars (c_str line) [CR; LF] (str "  ") 2 ++ CRLF
  | RArray l => fmtMultiBulkLen (Z.of_nat (length l)) ++ flat_map reencode l
  end.

(** The byte a pointer to the start of a buffer reads: its first character,
    or the terminating NUL. *)
Definition first_byte (reply : bytes) : ascii := hd NUL reply.

Definition grammar_tags : list ascii := [":"; "$"; "+"; "-"; "*"]%char.

(** ** Order of the calls of a run *)

Definition is_bind (c : Call) : bool :=
  match c with
  | CallSetGlobal n _ => bytes_eqb n (str "KEYS") || bytes_eqb n (str "ARGV")
  | _ => false
  end.

Definition is_reseed (c : Call) : bool :=
  match c with CallSrand48 _ => true | _ => false end.

Definition is_lock (c : Call) : bool :=
  match c with CallLockKeys _ => true | _ => false end.

(** Every call selected by [p] is made before every call selected by [q]. *)
Fixpoint all_before (p q : Call -> bool) (l : list Call) : bool :=
  match l with
  | [] => true
  | c :: l' => (if q c then negb (existsb p l') else true) && all_before p q l'
  end.

(** The array table that holds the strings [l] at the indices 1, 2, ... *)
Definition string_array (l : list bytes) : LuaValue :=
  LTable (entries_from 1 (map LString l)).

(** An interpreter only ever adds to the log of calls. *)
Definition log_extending {DB RedisRand : Type} (I : Interpreter DB RedisRand) : Prop :=
  forall f h (ls : LuaState DB RedisRand),
  exists new, calls (snd (run_pcall f h ls)) = calls ls ++ new.

Definition resolution_failure (st : Status) : Prop :=
  st = mkStatus ERR_LUA (str "-NOSCRIPT No matching script. Please use EVAL." ++ CRLF)
  \/ st = mkStatus ERR_LUA (str "luaCreateFunction failed").

Definition handler_name : bytes := str "__redis__err__handler".

(** What the lookup of a defined function leaves: the handler and the
    function on the stack, two lookups in the log, nothing else. *)
Definition after_lookup {DB RedisRand : Type} (ls : LuaState DB RedisRand)
    (funcname : bytes) (f : LuaValue) : LuaState DB RedisRand :=
  set_lua (log (log ls (CallGetGlobal handler_name)) (CallGetGlobal (c_str funcname)))
    (with_stack (_lua ls)
       (f :: rawget (globals (_lua ls)) (KString handler_name) :: stack (_lua ls))).

(** ** The gateway seen from a script run *)

(** The message [luaPushError] stores: the caller's position, when the
    interpreter has one to report, then the text. *)
Definition error_text (lua : lua_State) (error : bytes) : bytes :=
  match level1 lua with
  | Some (source, currentline) =>
      c_str (c_str source ++ str ": " ++ ll2string currentline ++ str ": " ++ c_str error)
  | None => c_str error
  end.

Definition error_table (lua : lua_State) (error : bytes) : LuaValue :=
  LTable [(KString (str "err"), LString (error_text lua error))].

(** The session [updateFakeClient] leaves in [_fakeSess] when the invoking
    session is [sess]. *)
Definition synced_fake {DB RedisRand : Type} {C : Collaborators DB RedisRand}
    (ls : LuaState DB RedisRand) (sess : Session) : Session :=
  let fake :=
    match _fakeSess ls with
    | None => setInLua (LocalSession (_svr ls)) true
    | Some f => f
    end in
  let fake :=
    if negb (ctx_authed fake) && ctx_authed sess then setAuthed fake else fake in
  if negb (ctx_dbId fake =? ctx_dbId sess) then setDbId fake (ctx_dbId sess) else fake.

Section ScriptRun.

Context {DB RedisRand : Type} {C : Collaborators DB RedisRand}
        {I : Interpreter DB RedisRand}.

(** A C function entered with [frame] as its arguments. *)
Definition enter (ls : LuaState DB RedisRand) (frame : list LuaValue)
  : LuaState DB RedisRand :=
  set_lua ls (with_stack (_lua ls) frame).

(** The arguments of a gateway call as the argument loop collects them,
    and the flags of the command they name. *)
Definition called_args (ls : LuaState DB RedisRand) : list bytes :=
  fst (collect_args (_lua ls) (Z.to_nat (lua_gettop (_lua ls))) 0 []).

Definition called_flags (ls : LuaState DB RedisRand) : Z :=
  command_flags (toLower (hd [] (called_args ls))).

(** The gateway call made from [ls] went as far as the command executor. *)
Definition executes (ls : LuaState DB RedisRand) (raise_error : Z)
    (ls' : LuaState DB RedisRand) : Prop :=
  exists r,
    luaRedisGenericCommand ls raise_error = Some (r, ls')
    /\ calls ls'
       = calls ls ++ [CallPrecheck (called_args ls); CallRunSessionCmd (called_args ls)].

(** The session a gateway call made from [ls] hands to the precheck
    (lines 303-310 and 381-387): the fake client, synchronised with the
    invoking session, in the MULTI state of that session and with the
    arguments of the call. *)
Definition prechecked_session (ls : LuaState DB RedisRand) : option Session :=
  sess <- _sess ls ;;
  Some (setArgs (setMultiTo (synced_fake ls sess) (ctx_isInMulti sess)) (called_args ls)).

(** The session handed to the command executor (line 444): the same, with
    the READONLY flag of the invoking session on a running cluster node
    when that session has no flags of its own (lines 429-436). *)
Definition executed_session (ls : LuaState DB RedisRand) : option Session :=
  sess <- _sess ls ;;
  fake <- prechecked_session ls ;;
  Some (if isClusterEnabled (_svr ls) && isRunning (_svr ls) && (ctx_flags sess =? 0)
        then setFlags fake
               (Z.lor (Z.ldiff (ctx_flags fake) CLIENT_READONLY)
                  (Z.land (ctx_flags sess) CLIENT_READONLY))
        else fake).

(** The gateway call made from [ls] gets as far as the lookup of the
    command: it is made on behalf of a session, it is not a nested call, it
    has arguments, all of them strings or numbers, and the precheck accepts
    the session it is given. *)
Definition reaches_lookup (ls : LuaState DB RedisRand) : Prop :=
  inuse ls = 0
  /\ lua_gettop (_lua ls) <> 0
  /\ snd (collect_args (_lua ls) (Z.to_nat (lua_gettop (_lua ls))) 0 [])
     = lua_gettop (_lua ls)
  /\ exists s, prechecked_session ls = Some s
               /\ expected_ok (Command_precheck s) = true.


(** The retry of the sort by [luaSortArray] raises [e]: [table.sort] with
    the comparison helper fails on some array with that error. *)
Definition sort_retry_raises (e : LuaValue) : Prop :=
  exists (lua : lua_State) (a : LuaValue),
    snd (table_sort_compare_helper lua a) = Some e.



End ScriptRun.

(** ** Scripts that only draw random numbers *)

Fixpoint rng_only (p : Script) : Prop :=
  match p with
  | SReturn _ | SError _ => True
  | SRandom _ k => forall v, rng_only (k v)
  | SRandomSeed _ k => rng_only k
  | SDefine _ _ _ => False
  end.

(** The values [math.random] handed to the script, in order. *)
Definition random_outputs (cs : list Call) : list LuaValue :=
  flat_map (fun c => match c with RandomOutput v => [v] | _ => [] end) cs.

Definition set_calls {DB RedisRand : Type} (ls : LuaState DB RedisRand) (cs : list Call)
  : LuaState DB RedisRand :=
  mkLuaState (_lua ls) (_svr ls) (_sess ls) (_fakeSess ls) (inuse ls) (lua_random_dirty ls)
    (lua_write_dirty ls) (lua_replicate_commands ls) (lua_timedout ls)
    (lua_time_start ls) (_rand ls) (db ls) cs.

(** The chunk [luaCreateFunction] compiles for a body. *)
Definition funcdef_of {DB RedisRand : Type} {C : Collaborators DB RedisRand}
    (body : bytes) : bytes :=
  str "function " ++ (str "f_" ++ sha1hex body) ++ str "() " ++ body ++ [LF] ++ str "end".

(** The engine after a script has drawn from the generator: the log has
    grown by [evs] and the generator is [rnd]; nothing else has changed. *)
Definition after_draws {DB RedisRand : Type} (ls : LuaState DB RedisRand)
    (evs : list Call) (rnd : RedisRand) : LuaState DB RedisRand :=
  set_rand (set_calls ls (calls ls ++ evs)) rnd.

(** ** A small instance

    Concrete collaborators on which the definitions can be evaluated: the
    store counts the commands executed on it, the generator is a linear
    congruential one whose state is its last output, and the numbers
    formatted are whole numbers. *)
Module Demo.

Definition flags_of (name : bytes) : Z :=
  if bytes_eqb name (str "set") then 1
  else if bytes_eqb name (str "spop") then 3
  else if bytes_eqb name (str "randomkey") then 2
  else if bytes_eqb name (str "keys") then 8
  else if bytes_eqb name (str "multi") then 4
  else 0.

Definition precheck (s : Session) : Expected bytes :=
  match sess_args s with
  | [] => Err (mkStatus (ERR_CODE 1) (str "empty"))
  | name :: _ =>
      if bytes_eqb name (str "nosuchcommand")
      then Err (mkStatus (ERR_CODE 2) (str "unknown command"))
      else Ok name
  end.

Definition run (n : nat) (s : Session) : nat * Expected bytes :=
  (S n, match sess_args s with
        | name :: _ =>
            if bytes_eqb name (str "get") then Ok (str "$3" ++ CRLF ++ str "bar" ++ CRLF)
            else if bytes_eqb name (str "randomkey")
                 then Ok (str "$3" ++ CRLF ++ str "foo" ++ CRLF)
            else if bytes_eqb name (str "keys")
                 then Ok (str "*2" ++ CRLF ++ str "$1" ++ CRLF ++ str "b" ++ CRLF
                          ++ str "$1" ++ CRLF ++ str "a" ++ CRLF)
            else Ok (str "+OK" ++ CRLF)
        | [] => Ok (str "+OK" ++ CRLF)
        end).

#[export] Instance collaborators : Collaborators nat Z :=
  {| redisSrand48 := fun seed => seed;
     redisLrand48 := fun x => let y := (x * 1103515245 + 12345) mod 2 ^ 31 in (y, y);
     REDIS_LRAND48_MAX := 2 ^ 31 - 1;
     SHA1 := fun s => repeat (Z.of_nat (length s)) 20;
     CMD_WRITE := 1;
     CMD_RANDOM := 2;
     CMD_NOSCRIPT := 4;
     CMD_SORT_FOR_SCRIPT := 8;
     CLIENT_READONLY := 16;
     Command_precheck := precheck;
     command_flags := flags_of;
     Command_runSessionCmd := run;
     Status_toString := fun st => str "-ERR " ++ status_msg st ++ CRLF;
     getAllKeysLocked := fun _ _ _ _ => Ok tt;
     LocalSession := fun _ => mkSession [] false 0 false 0 false;
     toLower := fun s => s;
     fmt_17g := fun d => ll2string (double_to_int64 d);
     luaL_error := fun msg => LString msg;
     luaL_argerror := fun _ msg => LString msg;
     lua_str2number := fun _ => None |}.

(** Function [1] returns the number 1; function [2] draws two random
    numbers and returns the second; a chunk [3] defines function [1] under
    the name of the script [return 1]. *)
Definition sem (f : LuaValue) : Script :=
  match f with
  | LFunction 1 => SReturn (LNumber (int_to_double 1))
  | LFunction 2 =>
      SRandom [] (fun _ => SRandom [LNumber (int_to_double 10)] (fun v => SReturn v))
  | LFunction 3 =>
      SDefine (str "f_" ++ sha1hex (str "return 1")) (LFunction 1) (SReturn LNil)
  | LFunction 4 =>
      SDefine (str "f_" ++ sha1hex (str "return math.random(10)")) (LFunction 2)
        (SReturn LNil)
  | _ => SError (LString (str "attempt to call a value that is not a function"))
  end.

Definition compile (buf name : bytes) : LuaValue + bytes :=
  if bytes_eqb buf (str "function " ++ str "f_" ++ sha1hex (str "return 1")
                    ++ str "() " ++ str "return 1" ++ [LF] ++ str "end")
  then inl (LFunction 3)
  else if bytes_eqb buf (str "function " ++ str "f_"
                         ++ sha1hex (str "return math.random(10)")
                         ++ str "() " ++ str "return math.random(10)" ++ [LF]
                         ++ str "end")
  then inl (LFunction 4)
  else inr (str "syntax error").

#[export] Instance interpreter : Interpreter nat Z := ScriptInterpreter compile sem.

Definition server : ServerEntry := mkServer false true 5000.

Definition client (args : list bytes) : Session := mkSession args true 0 false 0 false.

(** A fresh engine: empty stack, no globals, nothing called yet. *)
Definition engine : LuaState nat Z :=
  mkLuaState (mkLua [] [] None None) server None None 0 0 0 0 0 0 0 O [].

(** The engine in the middle of a script run on behalf of [client]. *)
Definition running (frame : list LuaValue) (busy random_dirty : Z) : LuaState nat Z :=
  mkLuaState (mkLua frame [] None None) server (Some (client [])) None
    busy random_dirty 0 0 0 0 0 O [].

End Demo.

Definition eval_args (l : list string) : Session := Demo.client (map str l).

(** The state a run ends in. *)
Definition run_of {A B : Type} (r : option (A * B)) (default : B) : B :=
  match r with Some (_, b) => b | None => default end.

(** ** Definitions for the further properties *)

(** The characters of a digest. *)
Definition hex_digit (c : ascii) : bool := existsb (Ascii.eqb c) cset.

(** A byte, as [unsigned char hash[20]] holds them. *)
Definition is_byte (z : Z) : bool := (0 <=? z) && (z <? 256).

(** Lines 1142-1149: the fake client brought to the authentication and
    the database of the invoking session. *)
Definition sync_fake (fake sess : Session) : Session :=
  let fake :=
    if negb (ctx_authed fake) && ctx_authed sess then setAuthed fake else fake in
  if negb (ctx_dbId fake =? ctx_dbId sess) then setDbId fake (ctx_dbId sess) else fake.

(** What the argument loop of the gateway accepts: numbers and strings. *)
Definition arg_ok (v : LuaValue) : bool :=
  match v with
  | LNumber _ | LString _ => true
  | _ => false
  end.

Definition is_error_reply (r : Reply) : bool :=
  match r with RError _ => true | _ => false end.

(** The parts of the interpreter state that are not the stack. *)
Definition same_env (L L' : lua_State) : Prop :=
  globals L' = globals L /\ level1 L' = level1 L /\ hook L' = hook L.

Section GatewayRun.

Context {DB RedisRand : Type} {C : Collaborators DB RedisRand}.

(** An argument of a gateway call as the command receives it (lines
    341-353): a number through ["%.17g"], a string as it is. *)
Definition arg_bytes (v : LuaValue) : bytes :=
  match v with
  | LNumber n => fmt_17g n
  | LString s => s
  | _ => []
  end.

End GatewayRun.

(** [name[i]] as a script reads it: the entry [i] of the table bound to
    the global [name], nil when there is no such table or entry. *)
Definition global_index (lua : lua_State) (name : bytes) (i : Z) : LuaValue :=
  match rawget (globals lua) (KString name) with
  | LTable t => rawget t (KNumber (int_to_double i))
  | _ => LNil
  end.

(** ** The other functions of the capability table

    *** [lua_tolstring] and [lua_tonumber] with their conversions

    On a number [lua_tolstring] changes the stack slot into the string it
    returns ([lua_number2str], the ["%.14g"] of the interpreter); on any
    other value that is not a string, and on an index above the top, it
    returns NULL. [lua_tonumber] and [lua_isnumber] accept the strings that
    [lua_str2number] converts. *)

Section Conversions.

Context {DB RedisRand : Type} {C : Collaborators DB RedisRand}.

Variable lua_number2str : lua_Number -> bytes.

Definition lua_tolstring_conv (L : lua_State) (idx : Z) : option bytes * lua_State :=
  match index_pos L idx with
  | Some p =>
      match nth_error (stack L) p with
      | Some (LString s) => (Some s, L)
      | Some (LNumber n) =>
          let s := lua_number2str n in
          (Some s, with_stack L (list_set (stack L) p (LString s)))
      | _ => (None, L)
      end
  | None => (None, L)
  end.

Definition lua_tonumber_conv (L : lua_State) (idx : Z) : option lua_Number :=
  match index2adr L idx with
  | Some (LNumber n) => Some n
  | Some (LString s) => lua_str2number s
  | _ => None
  end.

Definition lua_isnumber (L : lua_State) (idx : Z) : bool :=
  match lua_tonumber_conv L idx with Some _ => true | None => false end.

(** [lua_error]: the value on top of the stack is raised. *)
Definition lua_error (L : lua_State) : option (CResult * lua_State) :=
  v <- index2adr L (-1) ;; Some (CRaise v, L).

(** *** [luaRedisSha1hexCommand] (lines 494-509)

    With an argument that is neither a string nor a number [lua_tolstring]
    returns NULL and stores 0 in [len]: the digest is the one of the empty
    string. *)
Definition luaRedisSha1hexCommand (lua : lua_State) : option (CResult * lua_State) :=
  let argc := lua_gettop lua in
  if negb (argc =? 1) then
    let lua := lua_pushstring lua (str "wrong number of arguments") in
    lua_error lua
  else
    let '(s, lua) := lua_tolstring_conv lua 1 in
    let s := match s with Some s => s | None => [] end in
    let digest := sha1hex s ++ [NUL] in
    let lua := lua_pushstring lua digest in
    Some (CReturn 1, lua).

(** *** [luaRedisReturnSingleFieldTable] (lines 518-539) *)
Definition luaRedisReturnSingleFieldTable (lua : lua_State) (field : bytes)
  : option (CResult * lua_State) :=
  if negb (lua_gettop lua =? 1)
     || negb (lua_type_tag_eqb (lua_type lua (-1)) LUA_TSTRING) then
    lua <- luaPushError lua (str "wrong number or type of arguments") ;;
    Some (CReturn 1, lua)
  else
    let lua := lua_newtable lua in
    let lua := lua_pushstring lua field in
    lua <- lua_pushvalue lua (-3) ;;
    lua <- lua_settable lua (-3) ;;
    Some (CReturn 1, lua).

Definition luaRedisErrorReplyCommand (lua : lua_State) :=
  luaRedisReturnSingleFieldTable lua (str "err").

Definition luaRedisStatusReplyCommand (lua : lua_State) :=
  luaRedisReturnSingleFieldTable lua (str "ok").

(** *** [luaLogCommand] (lines 563-594)

    The log levels are declared outside this file; [LL_DEBUG] is the
    lowest and [LL_WARNING] the highest. The result carries what is handed
    to [serverLogNew]: the level and the text, a C string. The conversion
    of the level to [int] is undefined outside the range of [int]: no
    result. *)
Variables LL_DEBUG LL_WARNING : Z.

Definition double_to_int (d : lua_Number) : option Z :=
  match double_trunc d with
  | Some z => if (- 2 ^ 31 <=? z) && (z <=? INT_MAX) then Some z else None
  | None => None
  end.

(** The loop of lines 582-591, from [j] on, over [n] arguments. *)
Fixpoint luaLog_glue (lua : lua_State) (argc : Z) (n : nat) (j : Z) (log : bytes)
  : bytes * lua_State :=
  match n with
  | O => (log, lua)
  | S n' =>
      match lua_tolstring_conv lua (- argc + j) with
      | (Some s, lua) =>
          let log := if negb (j =? 1) then log ++ str " " else log in
          luaLog_glue lua argc n' (j + 1) (log ++ s)
      | (None, lua) => luaLog_glue lua argc n' (j + 1) log
      end
  end.

Definition luaLogCommand (lua : lua_State)
  : option (CResult * lua_State * option (Z * bytes)) :=
  let argc := lua_gettop lua in
  if argc <? 2 then
    let lua := lua_pushstring lua (str "redis.log() requires two arguments or more.") in
    '(r, lua) <- lua_error lua ;; Some (r, lua, None)
  else if negb (lua_isnumber lua (- argc)) then
    let lua := lua_pushstring lua (str "First argument must be a number (log level).") in
    '(r, lua) <- lua_error lua ;; Some (r, lua, None)
  else
    d <- lua_tonumber_conv lua (- argc) ;;
    level <- double_to_int d ;;
    if (level <? LL_DEBUG) || (LL_WARNING <? level) then
      let lua := lua_pushstring lua (str "Invalid debug level.") in
      '(r, lua) <- lua_error lua ;; Some (r, lua, None)
    else
      let '(log, lua) := luaLog_glue lua argc (Z.to_nat (argc - 1)) 1 [] in
      Some (CReturn 0, lua, Some (level, c_str log)).

End Conversions.

(** *** [luaRemoveUnsupportedFunctions] (lines 630-635) *)
Definition luaRemoveUnsupportedFunctions (lua : lua_State) : option lua_State :=
  let lua := lua_pushnil lua in
  lua <- lua_setglobal lua (str "loadfile") ;;
  let lua := lua_pushnil lua in
  lua_setglobal lua (str "dofile").

(** A table has one entry per key. *)
Fixpoint unique_keys (t : table) : Prop :=
  match t with
  | [] => True
  | (k, _) :: t' => (forall e, In e t' -> key_eqb (fst e) k = false) /\ unique_keys t'
  end.

(** The strings joined by single spaces. *)
Definition join_spaces (l : list bytes) : bytes :=
  match l with
  | [] => []
  | x :: l' => x ++ flat_map (fun y => str " " ++ y) l'
  end.

(** The small instance over a store whose keys another session holds, and
    an engine that has the function [f] under [name]. *)
Definition locked_collaborators : Collaborators nat Z :=
  {| redisSrand48 := fun seed => seed;
     redisLrand48 := fun x => let y := (x * 1103515245 + 12345) mod 2 ^ 31 in (y, y);
     REDIS_LRAND48_MAX := 2 ^ 31 - 1;
     SHA1 := fun s => repeat (Z.of_nat (length s)) 20;
     CMD_WRITE := 1;
     CMD_RANDOM := 2;
     CMD_NOSCRIPT := 4;
     CMD_SORT_FOR_SCRIPT := 8;
     CLIENT_READONLY := 16;
     Command_precheck := Demo.precheck;
     command_flags := Demo.flags_of;
     Command_runSessionCmd := Demo.run;
     Status_toString := fun st => str "-ERR " ++ status_msg st ++ CRLF;
     getAllKeysLocked := fun _ _ _ _ => Err (mkStatus (ERR_CODE 3) (str "lock timeout"));
     LocalSession := fun _ => mkSession [] false 0 false 0 false;
     toLower := fun s => s;
     fmt_17g := fun d => ll2string (double_to_int64 d);
     luaL_error := fun msg => LString msg;
     luaL_argerror := fun _ msg => LString msg;
     lua_str2number := fun _ => None |}.

Definition engine_with (name : bytes) (f : LuaValue) : LuaState nat Z :=
  mkLuaState (mkLua [] [(KString name, f)] None None) Demo.server None None
    0 0 0 0 0 0 0 O [].

(** An interpreter whose functions all raise "boom": the error handler,
    when the call has one, puts the position in front of the message. *)
Definition raising_interpreter : Interpreter nat Z :=
  {| compile_chunk := fun _ _ => inr (str "syntax error");
     run_pcall := fun _ h ls =>
       (PcallErr (LString (match h with
                           | Some (LFunction _) => str "@user_script: 1: boom"
                           | _ => str "boom"
                           end)), ls);
     table_sort := fun _ a => (a, None);
     table_sort_compare_helper := fun _ a => (a, None) |}.

Definition engine_with_handler (name : bytes) (f h : LuaValue) : LuaState nat Z :=
  mkLuaState (mkLua [] [(KString name, f); (KString handler_name, h)] None None)
    Demo.server None None 0 0 0 0 0 0 0 O [].

(** A message as one line: cut at its first NUL, every CR and LF replaced
    by a space. *)
Definition one_line (s : bytes) : bytes :=
  map (fun c => if Ascii.eqb c CR || Ascii.eqb c LF then " "%char else c) (c_str s).
Lemma digits2_pos_size (p : positive) : digits2_pos p = Pos.size p.
Proof. induction p; simpl; congruence. Qed.

Lemma iter_xO_value (n p : positive) :
  Z.pos (Pos.iter xO p n) = Z.pos p * 2 ^ Z.pos n.
Proof.
  induction n using Pos.peano_ind.
  - simpl. lia.
  - rewrite Pos.iter_succ, Pos2Z.inj_succ, Z.pow_succ_r by lia.
    rewrite Pos2Z.inj_xO, IHn. ring.
Qed.

Lemma iter_xO_size (n p : positive) :
  Z.pos (Pos.size (Pos.iter xO p n)) = Z.pos (Pos.size p) + Z.pos n.
Proof.
  induction n using Pos.peano_ind.
  - simpl. lia.
  - rewrite Pos.iter_succ. simpl Pos.size. rewrite Pos2Z.inj_succ, IHn. lia.
Qed.

Lemma size_bound (p : positive) :
  Z.pos p < 2 ^ 53 -> Z.pos (Pos.size p) <= 53.
Proof.
  intros H.
  pose proof (Pos.size_le p) as Hle.
  assert (Hz : 2 ^ Z.pos (Pos.size p) <= 2 * Z.pos p).
  { change (2 * Z.pos p) with (Z.pos p~0).
    rewrite <- Pos2Z.inj_pow. apply Pos2Z.pos_le_pos. exact Hle. }
  destruct (Z_le_gt_dec (Z.pos (Pos.size p)) 53) as [|Hgt]; [assumption|].
  exfalso.
  assert (2 ^ 54 <= 2 ^ Z.pos (Pos.size p)) by (apply Z.pow_le_mono_r; lia).
  change (2 ^ 54) with (2 * 2 ^ 53) in *. lia.
Qed.

Lemma shr_fexp_exact (m : positive) (e : Z) :
  Z.pos (Pos.size m) = 53 -> -1074 <= e ->
  shr_fexp dprec demax (Z.pos m) e loc_Exact
  = ({| shr_m := Z.pos m; shr_r := false; shr_s := false |}, e).
Proof.
  intros Hm He. unfold shr_fexp. simpl Zdigits2. rewrite digits2_pos_size, Hm.
  replace (fexp dprec demax (53 + e) - e) with 0
    by (unfold fexp, emin, dprec, demax; lia).
  reflexivity.
Qed.

Lemma binary_round_aux_exact (s : bool) (m : positive) (e : Z) :
  Z.pos (Pos.size m) = 53 -> -1074 <= e <= 971 ->
  binary_round_aux dprec demax s (Z.pos m) e loc_Exact = S754_finite s m e.
Proof.
  intros Hm He. unfold binary_round_aux.
  rewrite shr_fexp_exact by lia. cbn [shr_m loc_of_shr_record round_nearest_even].
  rewrite shr_fexp_exact by lia. cbn [shr_m].
  replace (e <=? demax - dprec) with true; [reflexivity|].
  symmetry. apply Z.leb_le. unfold demax, dprec. lia.
Qed.

(** The double nearest to a small positive integer, written out. *)
Lemma binary_round_small (s : bool) (p : positive) :
  Z.pos p < 2 ^ 53 ->
  exists m e, binary_round dprec demax s p 0 = S754_finite s m e
              /\ -52 <= e <= 0 /\ Z.pos m = Z.pos p * 2 ^ (- e).
Proof.
  intros Hp. pose proof (size_bound p Hp) as Hs.
  unfold binary_round. rewrite digits2_pos_size.
  replace (fexp dprec demax (Z.pos (Pos.size p) + 0)) with (Z.pos (Pos.size p) - 53)
    by (unfold fexp, emin, dprec, demax; lia).
  unfold shl_align.
  destruct (Z.pos (Pos.size p) - 53 - 0) as [|q|q] eqn:Hk; try lia.
  - exists p, 0. rewrite binary_round_aux_exact by lia.
    split; [reflexivity|]. split; [lia|]. simpl. lia.
  - assert (Hm : Z.pos (Pos.size (Pos.iter xO p q)) = 53)
      by (rewrite iter_xO_size; lia).
    exists (Pos.iter xO p q), (Z.pos (Pos.size p) - 53).
    rewrite binary_round_aux_exact by lia.
    split; [reflexivity|]. split; [lia|].
    rewrite iter_xO_value. f_equal. f_equal. lia.
Qed.

Lemma double_trunc_int (z : Z) :
  Z.abs z < 2 ^ 53 -> double_trunc (int_to_double z) = Some z.
Proof.
  intros Hz. unfold int_to_double, binary_normalize.
  destruct z as [|p|p].
  - reflexivity.
  - destruct (binary_round_small false p) as (m & e & -> & He & Hm); [lia|].
    unfold double_trunc, cond_Zopp. rewrite Hm. f_equal.
    destruct (Z.leb_spec 0 e).
    + replace e with 0 by lia. change (2 ^ (- 0)) with 1. change (2 ^ 0) with 1. lia.
    + apply Z.div_mul. apply Z.pow_nonzero; lia.
  - destruct (binary_round_small true p) as (m & e & -> & He & Hm); [lia|].
    unfold double_trunc, cond_Zopp. rewrite Hm. f_equal.
    destruct (Z.leb_spec 0 e).
    + replace e with 0 by lia. change (2 ^ (- 0)) with 1. change (2 ^ 0) with 1. lia.
    + rewrite Z.div_mul by (apply Z.pow_nonzero; lia). reflexivity.
Qed.

Lemma double_to_int64_int (z : Z) :
  Z.abs z <= 2 ^ 53 -> double_to_int64 (int_to_double z) = z.
Proof.
  intros Hz.
  destruct (Z.eq_dec z (2 ^ 53)) as [->|H1]; [reflexivity|].
  destruct (Z.eq_dec z (- 2 ^ 53)) as [->|H2]; [reflexivity|].
  unfold double_to_int64. rewrite double_trunc_int by lia.
  replace (in_int64 z) with true; [reflexivity|].
  symmetry. unfold in_int64, INT64_MIN, INT64_MAX. 
  assert (2 ^ 53 < 2 ^ 63) by (apply Z.pow_lt_mono_r; lia).
  apply andb_true_iff; split; apply Z.leb_le; lia.
Qed.

Lemma SFeqb_finite (s1 s2 : bool) (m1 m2 : positive) (e1 e2 : Z) :
  SFeqb (S754_finite s1 m1 e1) (S754_finite s2 m2 e2) = true ->
  s1 = s2 /\ m1 = m2 /\ e1 = e2.
Proof.
  unfold SFeqb, SFcompare.
  destruct s1, s2; try discriminate;
    destruct (Z.compare_spec e1 e2); try discriminate;
    change (Pos.compare_cont Eq m1 m2) with (Pos.compare m1 m2);
    destruct (Pos.compare_spec m1 m2); try discriminate; intros _; subst; auto.
Qed.

Lemma SFeqb_finite_refl (s : bool) (m : positive) (e : Z) :
  SFeqb (S754_finite s m e) (S754_finite s m e) = true.
Proof.
  unfold SFeqb, SFcompare.
  destruct s; rewrite Z.compare_refl;
    change (Pos.compare_cont Eq m m) with (Pos.compare m m);
    rewrite Pos.compare_refl; reflexivity.
Qed.

(** On the integers from 1 to 2^53 the equality of doubles is the equality
    of integers. *)
Lemma double_eqb_int (i j : Z) :
  0 < i < 2 ^ 53 -> 0 < j < 2 ^ 53 ->
  double_eqb (int_to_double i) (int_to_double j) = (i =? j).
Proof.
  intros Hi Hj.
  pose proof (double_trunc_int i ltac:(lia)) as Ti.
  pose proof (double_trunc_int j ltac:(lia)) as Tj.
  destruct i as [|p|p]; try lia. destruct j as [|q|q]; try lia.
  unfold int_to_double, binary_normalize in *.
  destruct (binary_round_small false p) as (m & e & Ep & _ & _); [lia|].
  destruct (binary_round_small false q) as (m' & e' & Eq' & _ & _); [lia|].
  rewrite Ep, Eq' in *. unfold double_eqb.
  destruct (Z.eqb_spec (Z.pos p) (Z.pos q)) as [E|N].
  - injection E as E. subst q. rewrite Ep in Eq'. injection Eq' as E1 E2. subst m' e'.
    apply SFeqb_finite_refl.
  - destruct (SFeqb _ _) eqn:B; [|reflexivity].
    apply SFeqb_finite in B. destruct B as (_ & B1 & B2). subst m' e'. congruence.
Qed.

Lemma int_to_double_not_nan (i : Z) :
  0 < i < 2 ^ 53 -> key_of (LNumber (int_to_double i)) = Some (KNumber (int_to_double i)).
Proof.
  intros Hi. destruct i as [|p|p]; try lia.
  unfold int_to_double, binary_normalize.
  destruct (binary_round_small false p) as (m & e & -> & _ & _); [lia|]. reflexivity.
Qed.

(** ** Decimal text *)

Lemma stoll_ll2string (z : Z) : in_int64 z = true -> stoll (ll2string z) = Ok z.
Proof.
  intros Hz. unfold stoll, ll2string, str.
  rewrite string_of_list_ascii_of_string, NilZero.isi.
  - rewrite DecimalZ.of_to, Hz. reflexivity.
  - destruct z; simpl; try discriminate.
    intros [= E]. exact (Unsigned.to_uint_nonnil _ E).
  - destruct z; simpl; try discriminate.
    intros [= E]. exact (Unsigned.to_uint_nonnil _ E).
Qed.

Lemma string2ll_ll2string (z : Z) : in_int64 z = true -> string2ll (ll2string z) = Some z.
Proof. intros Hz. unfold string2ll. rewrite stoll_ll2string by assumption. reflexivity. Qed.

Lemma uint_plain (d : Decimal.uint) :
  forallb plain_char (list_ascii_of_string (NilEmpty.string_of_uint d)) = true.
Proof. induction d; simpl; auto. Qed.

Lemma ll2string_plain (z : Z) : forallb plain_char (ll2string z) = true.
Proof.
  unfold ll2string, str, NilZero.string_of_int, NilZero.string_of_uint.
  destruct (Z.to_int z) as [d|d]; destruct d; simpl; try reflexivity; apply uint_plain.
Qed.

Lemma line_char_plain (l : bytes) :
  forallb line_char l = true -> forallb plain_char l = true.
Proof.
  induction l as [|c l IH]; simpl; [reflexivity|].
  intros H. apply andb_true_iff in H. destruct H as [Hc Hl].
  rewrite IH by assumption. unfold line_char in Hc. unfold plain_char.
  destruct (Ascii.eqb c CR), (Ascii.eqb c LF), (Ascii.eqb c NUL);
    simpl in *; try discriminate; reflexivity.
Qed.

(** ** Pointers into the reply *)

Lemma strchr_line (l rest : bytes) :
  forallb plain_char l = true ->
  strchr (l ++ CR :: rest) CR = Some (l, CR :: rest).
Proof.
  induction l as [|c l IH]; simpl.
  - reflexivity.
  - intros H. apply andb_true_iff in H. destruct H as [Hc Hl].
    unfold plain_char in Hc. apply andb_true_iff in Hc. destruct Hc as [H1 H2].
    apply negb_true_iff in H1, H2. rewrite H1, H2, IH by assumption. reflexivity.
Qed.

Lemma advance_app (pre rest : bytes) :
  advance (pre ++ rest) (Z.of_nat (length pre)) = Some rest.
Proof.
  unfold advance. rewrite length_app, Nat2Z.id, skipn_app, skipn_all, Nat.sub_diag.
  replace ((0 <=? Z.of_nat (length pre))
           && (Z.of_nat (length pre) <=? Z.of_nat (length pre + length rest))) with true.
  - reflexivity.
  - symmetry. apply andb_true_iff. split; apply Z.leb_le; lia.
Qed.

Lemma advance_crlf (rest : bytes) : advance (CR :: LF :: rest) 2 = Some rest.
Proof. exact (advance_app [CR; LF] rest). Qed.

(** ** Stack operations on explicit stacks *)

Lemma with_stack_idem (L : lua_State) (a b : list LuaValue) :
  with_stack (with_stack L a) b = with_stack L b.
Proof. reflexivity. Qed.

Lemma lua_push_with_stack (L : lua_State) (s : list LuaValue) (v : LuaValue) :
  lua_push (with_stack L s) v = with_stack L (v :: s).
Proof. reflexivity. Qed.

Ltac norm_stack :=
  unfold lua_pushnumber, lua_pushstring, lua_pushlstring, lua_pushboolean, lua_newtable;
  rewrite ?lua_push_with_stack, ?with_stack_idem.

Lemma with_stack_same (L : lua_State) : with_stack L (stack L) = L.
Proof. destruct L; reflexivity. Qed.

Lemma lua_settable_3 (L : lua_State) (v kv : LuaValue) (es : table)
    (s : list LuaValue) (k : LuaKey) :
  stack L = v :: kv :: LTable es :: s -> key_of kv = Some k ->
  lua_settable L (-3) = Some (with_stack L (LTable (rawset es k v) :: s)).
Proof.
  intros Hs Hk. unfold lua_settable, index_pos. simpl. rewrite Hs. simpl.
  rewrite Hk. reflexivity.
Qed.

Lemma lua_gettable_2 (L : lua_State) (kv : LuaValue) (es : table)
    (s : list LuaValue) (k : LuaKey) :
  stack L = kv :: LTable es :: s -> key_of kv = Some k ->
  lua_gettable L (-2) = Some (with_stack L (rawget es k :: LTable es :: s)).
Proof.
  intros Hs Hk. unfold lua_gettable, index2adr, index_pos. simpl. rewrite Hs. simpl.
  rewrite Hk. reflexivity.
Qed.

Lemma lua_pop_1 (L : lua_State) (v : LuaValue) (s : list LuaValue) :
  stack L = v :: s -> lua_pop L 1 = Some (with_stack L s).
Proof. intros Hs. unfold lua_pop. rewrite Hs. reflexivity. Qed.

Lemma lua_pop_2 (L : lua_State) (v w : LuaValue) (s : list LuaValue) :
  stack L = v :: w :: s -> lua_pop L 2 = Some (with_stack L s).
Proof. intros Hs. unfold lua_pop. rewrite Hs. reflexivity. Qed.

Lemma lua_type_top (L : lua_State) (v : LuaValue) (s : list LuaValue) :
  stack L = v :: s -> lua_type L (-1) = type_of v.
Proof. intros Hs. unfold lua_type, index2adr, index_pos. simpl. rewrite Hs. reflexivity. Qed.

(** ** Array tables *)

Lemma value_of_not_nil (r : Reply) : value_of r <> LNil.
Proof. destruct r; discriminate. Qed.

Lemma table_put_entries (vs : list LuaValue) (a : Z) (v : LuaValue) :
  0 < a -> a + Z.of_nat (length vs) < 2 ^ 53 ->
  table_put (entries_from a vs) (KNumber (int_to_double (a + Z.of_nat (length vs)))) v
  = entries_from a (vs ++ [v]).
Proof.
  revert a. induction vs as [|x vs IH]; intros a Ha Hb.
  - simpl. rewrite Z.add_0_r. reflexivity.
  - cbn [entries_from app table_put key_eqb length].
    rewrite double_eqb_int by (cbn [length] in Hb; lia).
    replace (a =? a + Z.of_nat (S (length vs))) with false
      by (symmetry; apply Z.eqb_neq; lia).
    f_equal.
    replace (a + Z.of_nat (S (length vs))) with (a + 1 + Z.of_nat (length vs)) by lia.
    apply IH; cbn [length] in Hb; lia.
Qed.

Lemma rawget_entries_string (vs : list LuaValue) (a : Z) (s : bytes) :
  rawget (entries_from a vs) (KString s) = LNil.
Proof. revert a. induction vs as [|x vs IH]; intros a; simpl; auto. Qed.

Lemma rawget_entries_hit (vs : list LuaValue) (a : Z) (pre : list LuaValue)
    (v : LuaValue) (post : list LuaValue) :
  vs = pre ++ v :: post -> 0 < a -> a + Z.of_nat (length vs) < 2 ^ 53 ->
  rawget (entries_from a vs) (KNumber (int_to_double (a + Z.of_nat (length pre)))) = v.
Proof.
  intros ->. revert a. induction pre as [|x pre IH]; intros a Ha Hb.
  - cbn [app entries_from rawget key_eqb length]. rewrite Z.add_0_r.
    rewrite double_eqb_int, Z.eqb_refl by (rewrite length_app in Hb; lia). reflexivity.
  - cbn [app entries_from rawget key_eqb length].
    cbn [app length] in Hb. rewrite length_app in Hb. cbn [length] in Hb.
    rewrite double_eqb_int by lia.
    replace (a =? a + Z.of_nat (S (length pre))) with false
      by (symmetry; apply Z.eqb_neq; lia).
    replace (a + Z.of_nat (S (length pre))) with (a + 1 + Z.of_nat (length pre)) by lia.
    apply IH; [lia|]. rewrite length_app. cbn [length]. lia.
Qed.

Lemma rawget_entries_miss (vs : list LuaValue) (a j : Z) :
  0 < a -> a + Z.of_nat (length vs) <= j < 2 ^ 53 ->
  rawget (entries_from a vs) (KNumber (int_to_double j)) = LNil.
Proof.
  revert a. induction vs as [|x vs IH]; intros a Ha Hb; [reflexivity|].
  cbn [entries_from rawget key_eqb length] in *.
  rewrite double_eqb_int by lia.
  replace (a =? j) with false by (symmetry; apply Z.eqb_neq; lia).
  apply IH; lia.
Qed.

(** ** Decoding the text of a reply *)

Ltac norm_wire :=
  cbn [wire]; unfold str, CRLF; cbn [list_ascii_of_string app];
  repeat first [rewrite <- app_assoc | progress cbn [app]].

Lemma decode_Int (z : Z) (lua : lua_State) (rest : bytes) :
  in_int64 z = true ->
  redisProtocolToLuaType_Int lua (wire (RInteger z) ++ rest)
  = Some (lua_push lua (value_of (RInteger z)), rest).
Proof.
  intros Hz. norm_wire. unfold redisProtocolToLuaType_Int. cbn [tl].
  rewrite strchr_line by apply ll2string_plain.
  rewrite string2ll_ll2string by assumption.
  rewrite advance_crlf. reflexivity.
Qed.

Lemma decode_Nil (lua : lua_State) (rest : bytes) :
  redisProtocolToLuaType_Bulk lua (wire RNil ++ rest)
  = Some (lua_push lua (value_of RNil), rest).
Proof.
  norm_wire. unfold redisProtocolToLuaType_Bulk. cbn [tl].
  change ("-"%char :: "1"%char :: CR :: LF :: rest)
    with (ll2string (-1) ++ CR :: LF :: rest).
  rewrite strchr_line by apply ll2string_plain.
  rewrite string2ll_ll2string by reflexivity.
  rewrite advance_crlf. reflexivity.
Qed.

Lemma decode_Bulk (s : bytes) (lua : lua_State) (rest : bytes) :
  Z.of_nat (length s) <= INT64_MAX ->
  redisProtocolToLuaType_Bulk lua (wire (RBulk s) ++ rest)
  = Some (lua_push lua (value_of (RBulk s)), rest).
Proof.
  intros Hs. norm_wire. unfold redisProtocolToLuaType_Bulk. cbn [tl].
  rewrite strchr_line by apply ll2string_plain.
  rewrite string2ll_ll2string
    by (unfold in_int64, INT64_MIN; apply andb_true_iff; split; apply Z.leb_le; lia).
  replace (Z.of_nat (length s) =? -1) with false by (symmetry; apply Z.eqb_neq; lia).
  replace (Z.of_nat (length s) <? 0) with false by (symmetry; apply Z.ltb_ge; lia).
  rewrite advance_crlf. cbv beta iota.
  rewrite advance_app. cbv beta iota. rewrite advance_crlf.
  rewrite Nat2Z.id, firstn_app, firstn_all, Nat.sub_diag. cbn [firstn].
  rewrite app_nil_r. reflexivity.
Qed.

Lemma decode_Status (line : bytes) (lua : lua_State) (rest : bytes) :
  forallb line_char line = true ->
  redisProtocolToLuaType_Status lua (wire (RStatus line) ++ rest)
  = Some (lua_push lua (value_of (RStatus line)), rest).
Proof.
  intros Hl. norm_wire. unfold redisProtocolToLuaType_Status. cbn [tl].
  rewrite strchr_line by (apply line_char_plain; assumption).
  rewrite advance_crlf. reflexivity.
Qed.

Lemma decode_Error (line : bytes) (lua : lua_State) (rest : bytes) :
  forallb line_char line = true ->
  redisProtocolToLuaType_Error lua (wire (RError line) ++ rest)
  = Some (lua_push lua (value_of (RError line)), rest).
Proof.
  intros Hl. norm_wire. unfold redisProtocolToLuaType_Error. cbn [tl].
  rewrite strchr_line by (apply line_char_plain; assumption).
  rewrite advance_crlf. reflexivity.
Qed.

Lemma decode_NilArray (rec : lua_State -> bytes -> option (lua_State * bytes))
    (n : nat) (lua : lua_State) (rest : bytes) :
  redisProtocolToLuaType_MultiBulk rec n lua (wire RNilArray ++ rest)
  = Some (lua_push lua (value_of RNilArray), rest).
Proof.
  norm_wire. unfold redisProtocolToLuaType_MultiBulk. cbn [tl].
  change ("-"%char :: "1"%char :: CR :: LF :: rest)
    with (ll2string (-1) ++ CR :: LF :: rest).
  rewrite strchr_line by apply ll2string_plain.
  rewrite string2ll_ll2string by reflexivity.
  rewrite advance_crlf. reflexivity.
Qed.

(** The loop over the elements, once every element decodes to its value. *)
Lemma multibulk_loop_spec (rec : lua_State -> bytes -> option (lua_State * bytes))
    (l : list Reply) :
  Forall (fun r => forall lua rest,
            rec lua (wire r ++ rest) = Some (lua_push lua (value_of r), rest)) l ->
  forall (n : nat) (vs : list LuaValue) (lua : lua_State) (s : list LuaValue)
         (rest : bytes),
    (length l <= n)%nat ->
    Z.of_nat (length vs) + Z.of_nat (length l) < 2 ^ 53 ->
    multibulk_loop rec n (Z.of_nat (length vs))
      (Z.of_nat (length vs) + Z.of_nat (length l))
      (with_stack lua (LTable (entries_from 1 vs) :: s)) (flat_map wire l ++ rest)
    = Some (with_stack lua (LTable (entries_from 1 (vs ++ map value_of l)) :: s), rest).
Proof.
  induction 1 as [|r l Hr Hl IH]; intros n vs lua s rest Hn Hb.
  - cbn [length flat_map app map]. rewrite Z.add_0_r, app_nil_r.
    destruct n; cbn [multibulk_loop]; rewrite Z.ltb_irrefl; reflexivity.
  - cbn [length] in Hn, Hb. destruct n as [|n]; [lia|].
    cbn [multibulk_loop flat_map map].
    replace (Z.of_nat (length vs) <? Z.of_nat (length vs) + Z.of_nat (length (r :: l)))
      with true by (symmetry; apply Z.ltb_lt; cbn [length]; lia).
    rewrite <- app_assoc, Hr.
    erewrite lua_settable_3;
      [| reflexivity | apply int_to_double_not_nan; lia].
    unfold rawset.
    assert (Hput : table_put (entries_from 1 vs)
                     (KNumber (int_to_double (Z.of_nat (length vs) + 1))) (value_of r)
                   = entries_from 1 (vs ++ [value_of r])).
    { replace (Z.of_nat (length vs) + 1) with (1 + Z.of_nat (length vs)) by lia.
      apply table_put_entries; lia. }
    replace (match value_of r with
             | LNil => table_remove (entries_from 1 vs)
                         (KNumber (int_to_double (Z.of_nat (length vs) + 1)))
             | _ => table_put (entries_from 1 vs)
                      (KNumber (int_to_double (Z.of_nat (length vs) + 1))) (value_of r)
             end) with (entries_from 1 (vs ++ [value_of r]))
      by (rewrite <- Hput; pose proof (value_of_not_nil r); destruct (value_of r);
          congruence).
    cbn [lua_pushnumber lua_push]. repeat rewrite with_stack_idem.
    replace (Z.of_nat (length vs) + 1) with (Z.of_nat (length (vs ++ [value_of r])))
      by (rewrite length_app; cbn [length]; lia).
    replace (Z.of_nat (length vs) + Z.of_nat (length (r :: l)))
      with (Z.of_nat (length (vs ++ [value_of r])) + Z.of_nat (length l))
      by (rewrite length_app; cbn [length]; lia).
    rewrite IH.
    + rewrite <- app_assoc. reflexivity.
    + lia.
    + rewrite length_app. cbn [length]. lia.
Qed.

(** Induction on replies, with the hypothesis on every element of an array. *)
Lemma Reply_nested_ind (P : Reply -> Prop) :
  (forall z, P (RInteger z)) -> (forall s, P (RBulk s)) -> P RNil ->
  (forall line, P (RStatus line)) -> (forall line, P (RError line)) ->
  (forall l, Forall P l -> P (RArray l)) -> P RNilArray ->
  forall r, P r.
Proof.
  intros HI HB HN HS HE HA HNA.
  fix IH 1. intros [z|s| |line|line|l| ].
  - apply HI.
  - apply HB.
  - exact HN.
  - apply HS.
  - apply HE.
  - apply HA. induction l as [|x l IHl]; constructor; [apply IH | exact IHl].
  - exact HNA.
Qed.

Lemma list_sum_ge_length (l : list Reply) : (length l <= list_sum (map reply_size l))%nat.
Proof.
  induction l as [|r l IH]; simpl; [lia|].
  assert (1 <= reply_size r)%nat by (destruct r; simpl; lia). lia.
Qed.

Lemma INT_MAX_lt : INT_MAX < 2 ^ 53.
Proof. reflexivity. Qed.

Theorem decode_wire (r : Reply) :
  wf r = true ->
  forall (fuel : nat) (lua : lua_State) (rest : bytes),
    (reply_size r <= fuel)%nat ->
    redisProtocolToLuaType_fuel fuel lua (wire r ++ rest)
    = Some (lua_push lua (value_of r), rest).
Proof.
  induction r as [z|s| |line|line|l IH| ] using Reply_nested_ind;
    intros Hwf fuel lua rest Hfuel;
    (destruct fuel as [|fuel]; [cbn in Hfuel; lia|]).
  - rewrite <- decode_Int by assumption. reflexivity.
  - rewrite <- decode_Bulk by (apply Z.leb_le; assumption). reflexivity.
  - rewrite <- decode_Nil. reflexivity.
  - rewrite <- decode_Status by assumption. reflexivity.
  - rewrite <- decode_Error by assumption. reflexivity.
  - cbn [wf] in Hwf. apply andb_true_iff in Hwf. destruct Hwf as [Hlen Hall].
    apply Z.leb_le in Hlen. cbn [reply_size] in Hfuel.
    pose proof (list_sum_ge_length l) as Hsum. pose proof INT_MAX_lt.
    norm_wire. cbn [redisProtocolToLuaType_fuel]. cbn [Ascii.eqb Bool.eqb].
    unfold redisProtocolToLuaType_MultiBulk. cbn [tl].
    rewrite strchr_line by apply ll2string_plain.
    rewrite string2ll_ll2string
      by (unfold in_int64, INT64_MIN, INT64_MAX, INT_MAX in *;
          apply andb_true_iff; split; apply Z.leb_le; lia).
    rewrite advance_crlf.
    replace (Z.of_nat (length l) =? -1) with false by (symmetry; apply Z.eqb_neq; lia).
    pose proof (multibulk_loop_spec (redisProtocolToLuaType_fuel fuel) l) as Hloop.
    specialize (Hloop ltac:(
      rewrite Forall_forall in IH |- *; intros r Hin lua' rest';
      apply IH; [assumption| |];
      [ rewrite forallb_forall in Hall; apply Hall; assumption
      | assert (reply_size r <= list_sum (map reply_size l))%nat
          by (clear - Hin; induction l as [|x l IHl]; [destruct Hin|];
              simpl; destruct Hin as [->|Hin]; [lia|];
              specialize (IHl Hin); lia);
        lia ])).
    specialize (Hloop fuel [] lua (stack lua) rest ltac:(lia) ltac:(cbn [length]; lia)).
    cbn [length Z.of_nat Z.add app entries_from] in Hloop.
    exact Hloop.
  - rewrite <- (decode_NilArray (redisProtocolToLuaType_fuel fuel) fuel). reflexivity.
Qed.

(** ** Encoding the value of a reply *)

Lemma value_size_pos (v : LuaValue) : (1 <= value_size v)%nat.
Proof. destruct v; simpl; lia. Qed.

Lemma value_size_entries (a : Z) (vs : list LuaValue) :
  value_size_list value_size (entries_from a vs) = list_sum (map value_size vs).
Proof. revert a. induction vs as [|v vs IH]; intros a; simpl; [|rewrite IH]; reflexivity. Qed.

Lemma list_sum_value_ge_length (vs : list LuaValue) :
  (length vs <= list_sum (map value_size vs))%nat.
Proof.
  induction vs as [|v vs IH]; simpl; [lia|].
  pose proof (value_size_pos v). lia.
Qed.

Lemma list_sum_value_in (v : LuaValue) (vs : list LuaValue) :
  In v vs -> (value_size v <= list_sum (map value_size vs))%nat.
Proof.
  induction vs as [|x vs IH]; [intros []|]. simpl.
  intros [->|Hin]; [lia|]. specialize (IH Hin). lia.
Qed.

Lemma type_of_value_not_nil (r : Reply) :
  lua_type_tag_eqb (type_of (value_of r)) LUA_TNIL = false.
Proof. destruct r; reflexivity. Qed.

(** The loop over the indices of an array table, once every remaining
    element encodes to its text. *)
Lemma reply_loop_spec (rec : lua_State -> option (bytes * lua_State))
    (post : list Reply) :
  Forall (fun r => forall L s,
            rec (with_stack L (value_of r :: s)) = Some (reencode r, with_stack L s)) post ->
  forall (n : nat) (pre : list Reply) (rsp : bytes) (L : lua_State) (s : list LuaValue),
    (length post < n)%nat ->
    Z.of_nat (length (pre ++ post)) < 2 ^ 53 - 1 ->
    reply_loop rec n (1 + Z.of_nat (length pre)) (Z.of_nat (length pre)) rsp
      (with_stack L (LTable (entries_from 1 (map value_of (pre ++ post))) :: s))
    = Some (Z.of_nat (length (pre ++ post)), rsp ++ flat_map reencode post,
            with_stack L (LTable (entries_from 1 (map value_of (pre ++ post))) :: s)).
Proof.
  induction 1 as [|r post Hr Hpost IH]; intros n pre rsp L s Hn Hb;
    (destruct n as [|n]; [simpl in Hn; lia|]); cbn [reply_loop].
  - rewrite app_nil_r in *. cbn [flat_map]. rewrite app_nil_r.
    norm_stack.
    erewrite lua_gettable_2;
      [| reflexivity | apply int_to_double_not_nan; lia].
    rewrite rawget_entries_miss by (try rewrite length_map; lia).
    norm_stack.
    erewrite lua_type_top by reflexivity. cbn [type_of lua_type_tag_eqb].
    erewrite lua_pop_1 by reflexivity. norm_stack. reflexivity.
  - norm_stack.
    erewrite lua_gettable_2;
      [| reflexivity | apply int_to_double_not_nan; rewrite length_app in Hb; lia].
    norm_stack.
    assert (Hget : rawget (entries_from 1 (map value_of (pre ++ r :: post)))
                     (KNumber (int_to_double (1 + Z.of_nat (length pre)))) = value_of r).
    { rewrite <- (length_map value_of pre).
      apply rawget_entries_hit with (post := map value_of post);
        [rewrite map_app; reflexivity | lia | rewrite length_map; lia]. }
    rewrite Hget.
    erewrite lua_type_top by reflexivity. rewrite type_of_value_not_nil.
    rewrite Hr.
    specialize (IH n (pre ++ [r]) (rsp ++ reencode r) L s).
    rewrite <- app_assoc in IH. cbn [app] in IH.
    replace (1 + Z.of_nat (length pre) + 1) with (1 + Z.of_nat (length (pre ++ [r])))
      by (rewrite length_app; cbn [length]; lia).
    replace (Z.of_nat (length pre) + 1) with (Z.of_nat (length (pre ++ [r])))
      by (rewrite length_app; cbn [length]; lia).
    rewrite IH by (cbn [length] in Hn; lia || assumption).
    cbn [flat_map]. rewrite <- app_assoc. reflexivity.
Qed.

Lemma reply_size_value_size (r : Reply) : value_size (value_of r) = reply_size r.
Proof.
  induction r as [z|s| |line|line|l IH| ] using Reply_nested_ind; try reflexivity.
  cbn [value_of reply_size].
  change (value_size (LTable (entries_from 1 (map value_of l))))
    with (S (value_size_list value_size (entries_from 1 (map value_of l)))).
  rewrite value_size_entries, map_map. f_equal.
  induction IH as [|x l Hx Hl IHl]; simpl; congruence.
Qed.

Lemma reply_size_in (r : Reply) (l : list Reply) :
  In r l -> (reply_size r <= list_sum (map reply_size l))%nat.
Proof.
  induction l as [|x l IH]; [intros []|]. simpl.
  intros [->|Hin]; [lia|]. specialize (IH Hin). lia.
Qed.

Lemma encode_value_of (r : Reply) :
  wf r = true ->
  forall (fuel : nat) (L : lua_State) (s : list LuaValue),
    (reply_size r < fuel)%nat ->
    luaReplyToRedisReply_fuel fuel (with_stack L (value_of r :: s))
    = Some (reencode r, with_stack L s).
Proof.
  induction r as [z|s0| |line|line|l IH| ] using Reply_nested_ind;
    intros Hwf fuel L s Hfuel;
    (destruct fuel as [|fuel]; [simpl in Hfuel; lia|]); try reflexivity.
  cbn [wf] in Hwf. apply andb_true_iff in Hwf. destruct Hwf as [Hlen Hall].
  apply Z.leb_le in Hlen. cbn [reply_size] in Hfuel. pose proof INT_MAX_lt.
  cbn [luaReplyToRedisReply_fuel value_of].
  erewrite lua_type_top by reflexivity. cbn [type_of].
  norm_stack.
  erewrite lua_gettable_2; [| reflexivity | reflexivity].
  rewrite rawget_entries_string. norm_stack.
  erewrite lua_type_top by reflexivity. cbn [type_of lua_type_tag_eqb].
  erewrite lua_pop_1 by reflexivity. norm_stack.
  erewrite lua_gettable_2; [| reflexivity | reflexivity].
  rewrite rawget_entries_string. norm_stack.
  erewrite lua_type_top by reflexivity. cbn [type_of lua_type_tag_eqb].
  erewrite lua_pop_1 by reflexivity. norm_stack.
  pose proof (reply_loop_spec (luaReplyToRedisReply_fuel fuel) l) as Hloop.
  specialize (Hloop ltac:(
    rewrite Forall_forall in IH |- *; intros r Hin L' s';
    apply IH; [assumption| |];
    [ rewrite forallb_forall in Hall; apply Hall; assumption
    | pose proof (reply_size_in r l Hin); lia ])).
  pose proof (list_sum_ge_length l).
  specialize (Hloop fuel [] [] L s ltac:(lia)
                ltac:(cbn [app]; unfold INT_MAX in *; lia)).
  cbn [app length Z.of_nat Z.add] in Hloop. rewrite Hloop.
  erewrite lua_pop_1 by reflexivity. norm_stack. reflexivity.
Qed.

Lemma reply_size_le_wire (r : Reply) : (reply_size r <= length (wire r))%nat.
Proof.
  induction r as [z|s| |line|line|l IH| ] using Reply_nested_ind;
    try (cbn [reply_size wire]; unfold str, CRLF; cbn [list_ascii_of_string app length];
         rewrite ?length_app; cbn [length]; lia).
  cbn [reply_size wire]. unfold str. cbn [list_ascii_of_string app length].
  rewrite !length_app.
  assert (list_sum (map reply_size l) <= length (flat_map wire l))%nat.
  { induction IH as [|x l Hx Hl IHl]; simpl; [lia|]. rewrite length_app. lia. }
  lia.
Qed.

(** Decoding the text of a well-formed reply gives its value, and encoding
    that value gives [reencode]. *)
Lemma decode_top (r : Reply) (lua : lua_State) :
  wf r = true ->
  redisProtocolToLuaType lua (wire r) = Some (lua_push lua (value_of r), []).
Proof.
  intros Hwf. unfold redisProtocolToLuaType.
  pose proof (decode_wire r Hwf (S (length (wire r))) lua []) as H.
  rewrite app_nil_r in H. apply H. pose proof (reply_size_le_wire r). lia.
Qed.

Lemma encode_top (r : Reply) (lua : lua_State) :
  wf r = true ->
  luaReplyToRedisReply (lua_push lua (value_of r)) = Some (reencode r, lua).
Proof.
  intros Hwf. unfold luaReplyToRedisReply.
  change (stack (lua_push lua (value_of r))) with (value_of r :: stack lua).
  cbv beta iota. rewrite reply_size_value_size. unfold lua_push.
  rewrite encode_value_of by (assumption || lia).
  rewrite with_stack_same. reflexivity.
Qed.

Lemma round_trips_iff (r : Reply) :
  wf r = true -> (round_trips r <-> reencode r = wire r).
Proof.
  intros Hwf. unfold round_trips. split.
  - intros H. destruct (H (mkLua [] [] None None)) as (lua' & Hd & He).
    rewrite decode_top in Hd by assumption. injection Hd as <-.
    rewrite encode_top in He by assumption. congruence.
  - intros E lua. exists (lua_push lua (value_of r)).
    rewrite decode_top, encode_top by assumption. rewrite E. auto.
Qed.

(** ** Properties of the reply translator *)

Lemma c_str_line (line : bytes) : forallb line_char line = true -> c_str line = line.
Proof.
  induction line as [|c l IH]; simpl; [reflexivity|].
  intros H. apply andb_true_iff in H. destruct H as [Hc Hl].
  unfold line_char in Hc. destruct (Ascii.eqb c NUL).
  - rewrite andb_false_r in Hc. discriminate.
  - rewrite IH by assumption. reflexivity.
Qed.

Lemma strmapchars_line (line : bytes) :
  forallb line_char line = true -> strmapchars line [CR; LF] (str "  ") 2 = line.
Proof.
  induction line as [|c l IH]; [reflexivity|].
  intros H. cbn [forallb] in H. apply andb_true_iff in H. destruct H as [Hc Hl].
  unfold strmapchars in *. cbn [map]. rewrite IH by assumption. f_equal.
  unfold line_char in Hc. unfold str. cbn [mapchar list_ascii_of_string].
  destruct (Ascii.eqb c CR), (Ascii.eqb c LF); simpl in Hc; try discriminate; reflexivity.
Qed.

Lemma reencode_array (l : list Reply) :
  (forall e, In e l -> reencode e = wire e) ->
  reencode (RArray l) = wire (RArray l).
Proof.
  intros H. cbn [reencode wire]. unfold fmtMultiBulkLen.
  rewrite <- !app_assoc. do 3 f_equal.
  induction l as [|x l IH]; [reflexivity|]. cbn [flat_map].
  rewrite H by (left; reflexivity). f_equal. apply IH. intros e He. apply H. right. exact He.
Qed.

(** C1 (as the code has it): integer replies of magnitude at most 2^53, bulk
    replies, the nil bulk reply and error replies round-trip through
    [redisProtocolToLuaType] and [luaReplyToRedisReply]; an array reply
    round-trips whenever all of its elements do; and the encoding of the
    boolean false is the nil bulk reply, never the nil array reply. *)
Theorem round_trip_by_tag :
  (forall z, Z.abs z <= 2 ^ 53 -> round_trips (RInteger z))
  /\ (forall s, Z.of_nat (length s) <= INT64_MAX -> round_trips (RBulk s))
  /\ round_trips RNil
  /\ (forall line, forallb line_char line = true -> round_trips (RError line))
  /\ (forall l, wf (RArray l) = true ->
                (forall e, In e l -> round_trips e) -> round_trips (RArray l))
  /\ (forall lua, luaReplyToRedisReply (lua_pushboolean lua 0) = Some (fmtNull, lua))
  /\ fmtNull = wire RNil /\ fmtNull <> wire RNilArray.
Proof.
  assert (H53 : 2 ^ 53 < 2 ^ 63) by reflexivity.
  repeat split.
  - intros z Hz. apply round_trips_iff.
    + unfold wf, in_int64, INT64_MIN, INT64_MAX.
      apply andb_true_iff; split; apply Z.leb_le; lia.
    + cbn [reencode wire]. rewrite double_to_int64_int by assumption. reflexivity.
  - intros s Hs. apply round_trips_iff; [apply Z.leb_le; exact Hs | reflexivity].
  - apply round_trips_iff; reflexivity.
  - intros line Hl. apply round_trips_iff; [exact Hl|].
    cbn [reencode wire]. rewrite c_str_line, strmapchars_line by assumption. reflexivity.
  - intros l Hwf Hall. apply round_trips_iff; [exact Hwf|].
    apply reencode_array. intros e He. apply round_trips_iff; [|apply Hall; exact He].
    cbn [wf] in Hwf. apply andb_true_iff in Hwf. destruct Hwf as [_ Hwf].
    rewrite forallb_forall in Hwf. apply Hwf. exact He.
  - intros lua. exact (encode_top RNil lua eq_refl).
  - discriminate.
Qed.

(** The integer part of C1 at [12], the array part at [*2 :7 $-1]. *)
Lemma round_trip_by_tag_witness :
  round_trips (RInteger 12) /\ round_trips (RArray [RInteger 7; RNil]).
Proof.
  destruct round_trip_by_tag as (HI & _ & HN & _ & HA & _).
  split.
  - apply HI. vm_compute. discriminate.
  - apply HA; [reflexivity|].
    intros e [<-|[<-|[]]]; [apply HI; vm_compute; discriminate | exact HN].
Defined.

(** C1 as stated fails: the integer reply [:9007199254740993] comes back as
    [:9007199254740992], and the status reply [+OK] comes back as the bulk
    reply [$2 OK]. *)
Lemma round_trip_counterexample :
  wf (RInteger 9007199254740993) = true
  /\ ~ round_trips (RInteger 9007199254740993)
  /\ wf (RStatus (str "OK")) = true
  /\ ~ round_trips (RStatus (str "OK")).
Proof.
  split; [reflexivity|]. split; [|split; [reflexivity|]].
  - intros H. apply round_trips_iff in H; [|reflexivity]. vm_compute in H. discriminate.
  - intros H. apply round_trips_iff in H; [|reflexivity]. vm_compute in H. discriminate.
Qed.

(** C2 at the table [{ok = "OK"}]: the [err] entry is absent, the [ok] entry
    is a string, and the reply produced is the bulk reply [$2 OK], not the
    status reply [+OK]. *)
Lemma ok_table_encoded_as_bulk :
  luaReplyToRedisReply
    (mkLua [LTable [(KString (str "ok"), LString (str "OK"))]] [] None None)
  = Some (str "$2" ++ CRLF ++ str "OK" ++ CRLF, mkLua [] [] None None)
  /\ str "$2" ++ CRLF ++ str "OK" ++ CRLF <> wire (RStatus (str "OK")).
Proof. split; [reflexivity | discriminate]. Qed.

(** The part of C2 about [err]: a table with a string-typed [err] entry is
    encoded as an error reply whose message, read as a C string, has every CR
    and LF replaced by a space. *)
Lemma err_table_encoded_as_error (lua : lua_State) (t : table) (s : list LuaValue)
    (msg : bytes) :
  stack lua = LTable t :: s ->
  rawget t (KString (str "err")) = LString msg ->
  luaReplyToRedisReply lua
  = Some (str "-" ++ map (fun c => if Ascii.eqb c CR then " "%char
                                   else if Ascii.eqb c LF then " "%char else c)
                         (c_str msg) ++ CRLF,
          with_stack lua s).
Proof.
  intros Hs Hget. unfold luaReplyToRedisReply. rewrite Hs.
  cbn [luaReplyToRedisReply_fuel].
  erewrite lua_type_top by eassumption. cbn [type_of].
  unfold lua_pushstring. change (c_str (str "err")) with (str "err").
  erewrite lua_gettable_2;
    [| cbn [lua_push with_stack stack]; rewrite Hs; reflexivity | reflexivity].
  rewrite Hget. norm_stack.
  erewrite lua_type_top by reflexivity. cbn [type_of lua_type_tag_eqb].
  unfold lua_tostring, lua_tolstring, index2adr, index_pos.
  cbn [Z.ltb Z.compare Z.opp Z.sub Z.add Z.to_nat Pos.to_nat Pos.iter_op Z.pos_sub
       Pos.add Pos.succ Pos.pred_double Nat.add nth_error stack with_stack lua_push].
  erewrite lua_pop_2 by reflexivity. norm_stack.
  unfold strmapchars, str. cbn [list_ascii_of_string mapchar].
  reflexivity.
Qed.

(** C10: when the first byte of the buffer is none of the five tags, the
    decoder pushes nothing and returns its argument. *)
Theorem unknown_tag_no_progress (lua : lua_State) (reply : bytes) :
  ~ In (first_byte reply) grammar_tags ->
  redisProtocolToLuaType lua reply = Some (lua, reply).
Proof.
  intros H. unfold redisProtocolToLuaType. destruct reply as [|c reply]; [reflexivity|].
  cbn [redisProtocolToLuaType_fuel length].
  unfold first_byte, grammar_tags in H. cbn [hd In] in H.
  destruct (Ascii.eqb_spec c ":"); [exfalso; apply H; auto|].
  destruct (Ascii.eqb_spec c "$"); [exfalso; apply H; auto|].
  destruct (Ascii.eqb_spec c "+"); [exfalso; apply H; auto|].
  destruct (Ascii.eqb_spec c "-"); [exfalso; apply H; auto|].
  destruct (Ascii.eqb_spec c "*"); [exfalso; apply H; auto 6|].
  reflexivity.
Qed.

Lemma unknown_tag_no_progress_witness :
  redisProtocolToLuaType (mkLua [LNil] [] None None) (str "xyz")
  = Some (mkLua [LNil] [] None None, str "xyz").
Proof.
  apply unknown_tag_no_progress. cbn. intros [H|[H|[H|[H|[H|[]]]]]]; discriminate H.
Defined.

(** ** The script runner *)

Section RunnerFacts.

Context {DB RedisRand : Type} {C : Collaborators DB RedisRand}
        {I : Interpreter DB RedisRand}.

Lemma static_cast_int_id (z : Z) : - 2 ^ 31 <= z < 2 ^ 31 -> static_cast_int z = z.
Proof.
  intros H. unfold static_cast_int. rewrite Z.mod_small; lia.
Qed.

Lemma lua_rawseti_2 (L : lua_State) (v : LuaValue) (es : table)
    (s : list LuaValue) (n : Z) :
  stack L = v :: LTable es :: s ->
  lua_rawseti L (-2) n
  = Some (with_stack L (LTable (rawset es (KNumber (int_to_double n)) v) :: s)).
Proof.
  intros Hs. unfold lua_rawseti, index_pos. simpl. rewrite Hs. reflexivity.
Qed.

(** The loop of [luaSetGlobalArray] appends the arguments to the table. *)
Lemma luaSetGlobalArray_loop_spec (args : list bytes) (start : Z) (l : list bytes) :
  forall (done : list bytes) (L : lua_State) (s : list LuaValue),
    0 <= start ->
    firstn (length l) (skipn (Z.to_nat start + length done) args) = l ->
    (Z.to_nat start + length done + length l <= length args)%nat ->
    Z.of_nat (length done) + Z.of_nat (length l) < 2 ^ 53 - 1 ->
    luaSetGlobalArray_loop
      (with_stack L (LTable (entries_from 1 (map LString done)) :: s))
      args start (length l) (Z.of_nat (length done))
    = Some (with_stack L (LTable (entries_from 1 (map LString (done ++ l))) :: s)).
Proof.
  induction l as [|a l IH]; intros done L s Hstart Hl Hlen Hb.
  - rewrite app_nil_r. reflexivity.
  - cbn [length luaSetGlobalArray_loop] in *.
    assert (Hnth : nth_error args (Z.to_nat (start + Z.of_nat (length done))) = Some a).
    { replace (Z.to_nat (start + Z.of_nat (length done)))
        with (Z.to_nat start + length done)%nat by lia.
      destruct (skipn (Z.to_nat start + length done) args) as [|x rest] eqn:E;
        [discriminate|].
      cbn [firstn] in Hl. injection Hl as -> Hl.
      rewrite <- (firstn_skipn (Z.to_nat start + length done) args), E.
      rewrite nth_error_app2 by (rewrite length_firstn; lia).
      rewrite length_firstn, Nat.min_l by lia.
      rewrite Nat.sub_diag. reflexivity. }
    rewrite Hnth. norm_stack.
    erewrite lua_rawseti_2 by reflexivity. norm_stack.
    unfold rawset.
    replace (Z.of_nat (length done) + 1) with (1 + Z.of_nat (length (map LString done)))
      by (rewrite length_map; lia).
    rewrite table_put_entries by (rewrite ?length_map; lia).
    replace (map LString done ++ [LString a]) with (map LString (done ++ [a]))
      by (rewrite map_app; reflexivity).
    replace (1 + Z.of_nat (length (map LString done)))
      with (Z.of_nat (length (done ++ [a])))
      by (rewrite length_map, length_app; cbn [length]; lia).
    rewrite IH.
    + rewrite <- app_assoc. reflexivity.
    + assumption.
    + rewrite length_app. cbn [length].
      destruct (skipn (Z.to_nat start + length done) args) as [|x rest] eqn:E;
        [discriminate|].
      cbn [firstn] in Hl. injection Hl as _ Hl.
      replace (Z.to_nat start + (length done + 1))%nat
        with (1 + (Z.to_nat start + length done))%nat by lia.
      rewrite <- skipn_skipn, E. exact Hl.
    + rewrite length_app. cbn [length]. lia.
    + rewrite length_app. cbn [length]. lia.
Qed.

Lemma luaSetGlobalArray_spec (ls : LuaState DB RedisRand) (var : bytes)
    (args : list bytes) (start num : Z) :
  0 <= start -> 0 <= num -> start + num <= Z.of_nat (length args) ->
  num < 2 ^ 53 - 1 ->
  let t := string_array (firstn (Z.to_nat num) (skipn (Z.to_nat start) args)) in
  luaSetGlobalArray ls var args start num
  = Some (set_lua (log ls (CallSetGlobal (c_str var) t))
            (with_globals (_lua ls) (rawset (globals (_lua ls)) (KString (c_str var)) t))).
Proof.
  intros Hs Hn Hlen Hb t. unfold luaSetGlobalArray.
  set (l := firstn (Z.to_nat num) (skipn (Z.to_nat start) args)).
  assert (Hll : length l = Z.to_nat num).
  { unfold l. rewrite length_firstn, length_skipn. lia. }
  pose proof (luaSetGlobalArray_loop_spec args start l [] (_lua ls) (stack (_lua ls)))
    as H.
  cbn [length app map entries_from Z.of_nat] in H. rewrite Nat.add_0_r in H.
  rewrite Hll in H. unfold lua_newtable, lua_push.
  rewrite H; try lia.
  - unfold ls_setglobal, lua_setglobal, index2adr, index_pos. cbn. 
    destruct ls as [[st g l1 hk] ? ? ? ? ? ? ? ? ? ? ? ?]. reflexivity.
  - reflexivity.
Qed.

End RunnerFacts.

Ltac break_match_in H :=
  repeat match type of H with
         | context [match ?x with _ => _ end] => destruct x eqn:?; try discriminate H
         end.

Ltac simpl_state :=
  cbn [calls log set_lua set_sess set_fakeSess set_inuse set_random_dirty
       set_write_dirty set_replicate_commands set_timedout set_time_start
       set_rand set_db _lua _svr _sess _fakeSess inuse lua_random_dirty
       lua_write_dirty lua_replicate_commands lua_timedout lua_time_start
       _rand db] in *.

Ltac ext_log :=
  unfold ls_getglobal in *; simpl_state;
  repeat match goal with
         | H : calls ?a = _ |- context [calls ?a] => rewrite H
         end;
  rewrite <- ?app_assoc;
  first [ eexists; reflexivity | exists []; rewrite app_nil_r; reflexivity ].

Section RunnerProperties.

Context {DB RedisRand : Type} {C : Collaborators DB RedisRand}
        {I : Interpreter DB RedisRand}.

Let LuaState := LuaState DB RedisRand.

Lemma resolve_hit (ls : LuaState) (args : list bytes) (evalsha : Z)
    (funcname : bytes) (f : LuaValue) :
  rawget (globals (_lua ls)) (KString (c_str funcname)) = f -> f <> LNil ->
  evalGenericCommand_resolve ls args evalsha funcname
  = Some (Ok tt, after_lookup ls funcname f).
Proof.
  intros Hf Hn. unfold evalGenericCommand_resolve, ls_getglobal, lua_getglobal.
  cbn [_lua set_lua log lua_push globals with_stack stack].
  unfold lua_isnil, lua_type, index2adr, index_pos.
  cbn [Z.ltb Z.compare Z.opp Z.sub Z.add Z.to_nat Z.pos_sub nth_error stack
       _lua set_lua].
  rewrite Hf. destruct f; try contradiction; reflexivity.
Qed.

Lemma resolve_ok_defined (ls ls1 : LuaState) (args : list bytes) (evalsha : Z)
    (funcname : bytes) :
  evalGenericCommand_resolve ls args evalsha funcname = Some (Ok tt, ls1) ->
  exists f s, stack (_lua ls1) = f :: s /\ f <> LNil
              /\ rawget (globals (_lua ls1)) (KString (c_str funcname)) = f.
Proof.
  unfold evalGenericCommand_resolve. intros H.
  match type of H with
  | context [lua_isnil (_lua ?x) _] => destruct (lua_isnil (_lua x) (-1)) eqn:Hnil
  end.
  - break_match_in H. injection H as <-.
    unfold ls_getglobal, lua_getglobal in *.
    cbn [_lua set_lua log lua_push globals with_stack stack] in *.
    eexists _, _. split; [reflexivity|]. split; [|reflexivity].
    match goal with
    | Hn : lua_isnil _ _ = false |- ?v <> LNil =>
        intros E; unfold lua_isnil, lua_type, index2adr, index_pos in Hn;
        cbn in Hn; rewrite E in Hn; discriminate Hn
    end.
  - injection H as <-.
    unfold ls_getglobal, lua_getglobal in *.
    cbn [_lua set_lua log lua_push globals with_stack stack] in *.
    eexists _, _. split; [reflexivity|]. split; [|reflexivity].
    intros E. unfold lua_isnil, lua_type, index2adr, index_pos in Hnil.
    cbn in Hnil. rewrite E in Hnil. discriminate Hnil.
Qed.

(** C8: when a first resolution of a body has succeeded, a second one
    finds the function under the digest-derived name and leaves it on the
    stack after two lookups in the global table: nothing is compiled,
    nothing is called, and the global table is as it was. *)
Theorem resolve_twice_no_recompile (ls ls1 : LuaState) (args : list bytes)
    (body : bytes) :
  let funcname := "f"%char :: "_"%char :: sha1hex body ++ [NUL] in
  evalGenericCommand_resolve ls args 0 funcname = Some (Ok tt, ls1) ->
  exists f s,
    stack (_lua ls1) = f :: s /\ f <> LNil
    /\ rawget (globals (_lua ls1)) (KString (c_str funcname)) = f
    /\ evalGenericCommand_resolve ls1 args 0 funcname
       = Some (Ok tt, after_lookup ls1 funcname f).
Proof.
  intros funcname H.
  destruct (resolve_ok_defined _ _ _ _ _ H) as (f & s & Hs & Hn & Hg).
  exists f, s. repeat split; try assumption.
  apply resolve_hit; assumption.
Qed.

(** C6: a key count that is negative or larger than the number of
    arguments after the first three is answered with an error; the
    interpreter state and the store are untouched, and the only call made is
    the reseeding of the generator. *)
Theorem numkeys_rejected_before_interpreter (ls : LuaState) (sess : Session)
    (evalsha : Z) (funcname0 : bytes) (now : Z) (a2 : bytes) (numkeys : Z) :
  nth_error (sess_args sess) 2 = Some a2 ->
  stoll a2 = Ok numkeys ->
  Z.of_nat (length (sess_args sess)) - 3 <= INT_MAX ->
  numkeys < 0 \/ Z.of_nat (length (sess_args sess)) - 3 < numkeys ->
  exists st ls',
    evalGenericCommand ls sess evalsha funcname0 now = Some (Err st, ls')
    /\ _lua ls' = _lua ls /\ db ls' = db ls
    /\ calls ls' = calls ls ++ [CallSrand48 0].
Proof.
  intros Ha2 Hst Hlen Hbad.
  assert (Hge : (2 < length (sess_args sess))%nat)
    by (apply nth_error_Some; rewrite Ha2; discriminate).
  unfold evalGenericCommand. rewrite Ha2, Hst.
  rewrite static_cast_int_id by (unfold INT_MAX in Hlen; lia).
  destruct (Z.gtb_spec numkeys (Z.of_nat (length (sess_args sess)) - 3)).
  - eexists _, _. split; [reflexivity|]. repeat split.
  - destruct (Z.ltb_spec numkeys 0); [|lia].
    eexists _, _. split; [reflexivity|]. repeat split.
Qed.

Lemma lua_pcall_log (ls ls' : LuaState) (nresults errfunc rc : Z) :
  log_extending I ->
  lua_pcall ls nresults errfunc = Some (rc, ls') ->
  exists new, calls ls' = calls ls ++ new.
Proof.
  intros HI H. unfold lua_pcall in H.
  destruct (stack (_lua ls)) as [|f s'] eqn:Hs; [discriminate|].
  match type of H with
  | context [run_pcall ?f ?h ?x] =>
      destruct (HI f h x) as (new & Hnew); destruct (run_pcall f h x) as [r l0]
  end.
  cbn [snd] in Hnew.
  destruct r; injection H as _ <-; ext_log.
Qed.

Lemma luaCreateFunction_log (ls ls' : LuaState) (body : bytes) (ret : Expected bytes) :
  log_extending I ->
  luaCreateFunction ls body = Some (ret, ls') ->
  exists new, calls ls' = calls ls ++ new.
Proof.
  intros HI H. unfold luaCreateFunction, luaL_loadbuffer in H.
  destruct (compile_chunk _ _) as [f|msg].
  - cbn [negb Z.eqb] in H.
    destruct (lua_pcall _ 0 0) as [[rc l0]|] eqn:Hp; [|discriminate].
    apply lua_pcall_log in Hp; [|assumption]. destruct Hp as (new & Hnew).
    cbn [calls log set_lua] in Hnew.
    break_match_in H; injection H as _ <-; ext_log.
  - cbn [negb Z.eqb] in H. break_match_in H. injection H as _ <-. ext_log.
Qed.

Lemma resolve_log (ls ls' : LuaState) (args : list bytes) (evalsha : Z)
    (funcname : bytes) (res : Expected unit) :
  log_extending I ->
  evalGenericCommand_resolve ls args evalsha funcname = Some (res, ls') ->
  exists new, calls ls' = calls ls ++ new.
Proof.
  intros HI H. unfold evalGenericCommand_resolve in H.
  match type of H with
  | context [lua_isnil (_lua ?x) _] => destruct (lua_isnil (_lua x) (-1))
  end.
  - destruct (lua_pop _ 1) as [lua1|]; [|discriminate].
    destruct (negb (evalsha =? 0)).
    + break_match_in H. injection H as _ <-. ext_log.
    + destruct (nth_error args 1) as [body|]; [|discriminate].
      destruct (luaCreateFunction _ body) as [[ret l0]|] eqn:Hc; [|discriminate].
      apply luaCreateFunction_log in Hc; [|assumption]. destruct Hc as (new & Hnew).
      cbn [calls log set_lua ls_getglobal] in Hnew.
      break_match_in H; injection H as _ <-; unfold ls_getglobal; ext_log.
  - injection H as _ <-. unfold ls_getglobal. ext_log.
Qed.

Lemma resolve_err (ls ls' : LuaState) (args : list bytes) (evalsha : Z)
    (funcname : bytes) (st : Status) :
  evalGenericCommand_resolve ls args evalsha funcname = Some (Err st, ls') ->
  resolution_failure st.
Proof.
  intros H. unfold evalGenericCommand_resolve in H.
  break_match_in H; injection H as <- _; [left | right]; reflexivity.
Qed.

Lemma run_log (ls ls' : LuaState) (funcname : bytes) (now : Z) (ret : Expected bytes) :
  log_extending I ->
  evalGenericCommand_run ls funcname now = Some (ret, ls') ->
  exists new, calls ls' = calls ls ++ new.
Proof.
  intros HI H. unfold evalGenericCommand_run in H.
  destruct (lua_pcall _ 1 (-2)) as [[rc l0]|] eqn:Hp; [|discriminate].
  apply lua_pcall_log in Hp; [|assumption]. destruct Hp as (new & Hnew).
  destruct (0 <? luaTimeLimit (_svr (set_time_start ls now)));
    cbn [calls log set_lua set_time_start] in Hnew;
    break_match_in H; injection H as _ <-; ext_log.
Qed.

(** C9 (as the code has it): in an invocation with a valid key count,
    either resolution fails, or the calls made are, in this order: the
    reseeding of the generator, the calls of the resolution, the binding of
    KEYS to the array of the [numkeys] arguments from position 3 and of ARGV
    to the array of the remaining ones, and the request for the key locks. *)
Theorem bind_after_reseed_before_lock (ls ls' : LuaState) (sess : Session)
    (evalsha : Z) (funcname0 : bytes) (now : Z) (a2 : bytes) (numkeys : Z)
    (r : Expected bytes) :
  let args := sess_args sess in
  log_extending I ->
  nth_error args 2 = Some a2 ->
  stoll a2 = Ok numkeys ->
  0 <= numkeys <= Z.of_nat (length args) - 3 ->
  Z.of_nat (length args) - 3 <= INT_MAX ->
  evalGenericCommand ls sess evalsha funcname0 now = Some (r, ls') ->
  (exists st, r = Err st /\ resolution_failure st)
  \/ (exists pre post,
        calls ls'
        = calls ls ++ CallSrand48 0 :: pre
          ++ CallSetGlobal (str "KEYS")
               (string_array (firstn (Z.to_nat numkeys) (skipn 3 args)))
          :: CallSetGlobal (str "ARGV")
               (string_array (skipn (3 + Z.to_nat numkeys) args))
          :: CallLockKeys (map Z.of_nat (seq 3 (Z.to_nat numkeys)))
          :: post).
Proof.
  intros args HI Ha2 Hst Hnk Hlen H.
  unfold evalGenericCommand in H. fold args in H. rewrite Ha2, Hst in H.
  rewrite static_cast_int_id in H by (unfold INT_MAX in Hlen; lia).
  replace (numkeys >? Z.of_nat (length args) - 3) with false in H
    by (symmetry; rewrite Z.gtb_ltb; apply Z.ltb_ge; lia).
  replace (numkeys <? 0) with false in H by (symmetry; apply Z.ltb_ge; lia).
  match type of H with
  | context [match ?x with Some hex => _ | None => None end] =>
      destruct x as [hex|]; [|discriminate]
  end.
  destruct (evalGenericCommand_resolve _ args evalsha _) as [[res l0]|] eqn:Hres;
    [|discriminate].
  pose proof (resolve_log _ _ _ _ _ _ HI Hres) as (pre & Hpre).
  cbn [calls log set_lua set_sess set_rand set_random_dirty set_write_dirty
       set_replicate_commands] in Hpre.
  destruct res as [[]|st].
  2:{ injection H as <- _. left. exists st. split; [reflexivity|].
      eapply resolve_err; eassumption. }
  right. unfold evalGenericCommand_invoke, evalGenericCommand_bind in H.
  rewrite luaSetGlobalArray_spec in H
    by (unfold INT_MAX in Hlen; assert (2 ^ 31 < 2 ^ 53) by reflexivity; lia).
  rewrite luaSetGlobalArray_spec in H
    by (unfold INT_MAX in Hlen; assert (2 ^ 31 < 2 ^ 53) by reflexivity; lia).
  change (Z.to_nat 3) with 3%nat in H.
  replace (Z.to_nat (3 + numkeys)) with (3 + Z.to_nat numkeys)%nat in H by lia.
  replace (firstn (Z.to_nat (Z.of_nat (length args) - 3 - numkeys))
             (skipn (3 + Z.to_nat numkeys) args))
    with (skipn (3 + Z.to_nat numkeys) args) in H
    by (symmetry; apply firstn_all2; rewrite length_skipn; lia).
  destruct (updateFakeClient _) as [l1|] eqn:Hu; [|discriminate].
  assert (Hl1 : calls l1 = calls l0
                ++ [CallSetGlobal (str "KEYS")
                      (string_array (firstn (Z.to_nat numkeys) (skipn 3 args)));
                    CallSetGlobal (str "ARGV")
                      (string_array (skipn (3 + Z.to_nat numkeys) args))]).
  { unfold updateFakeClient in Hu.
    break_match_in Hu; injection Hu as <-;
      cbn [calls log set_lua set_fakeSess]; rewrite <- app_assoc; reflexivity. }
  destruct (_fakeSess l1) as [fake|]; [|discriminate].
  destruct (getAllKeysLocked _ fake args _) as [[]|st].
  - destruct (evalGenericCommand_run _ _ now) as [[ret l2]|] eqn:Hrun; [|discriminate].
    apply run_log in Hrun; [|assumption]. destruct Hrun as (post & Hpost).
    cbn [calls log] in Hpost. injection H as _ <-.
    exists pre, post. cbn [calls set_sess]. rewrite Hpost, Hl1, Hpre.
    rewrite <- !app_assoc. reflexivity.
  - break_match_in H. injection H as _ <-.
    exists pre, []. cbn [calls log set_lua set_sess]. rewrite Hl1, Hpre.
    rewrite <- !app_assoc. reflexivity.
Qed.

End RunnerProperties.

(** ** Scripts over the deterministic generator *)

Section ScriptFacts.

Context {DB RedisRand : Type} {C : Collaborators DB RedisRand}.

Lemma redis_math_random_log (ls : LuaState DB RedisRand) :
  exists new, calls (snd (redis_math_random ls)) = calls ls ++ new.
Proof.
  unfold redis_math_random, random_return.
  destruct (redisLrand48 (_rand ls)) as [x rnd].
  repeat match goal with
         | |- context [match ?x with _ => _ end] => destruct x
         end; cbn [snd]; ext_log.
Qed.

Lemma redis_math_randomseed_log (ls : LuaState DB RedisRand) :
  exists new, calls (snd (redis_math_randomseed ls)) = calls ls ++ new.
Proof.
  unfold redis_math_randomseed.
  destruct (luaL_checkint _ 1); cbn [snd]; ext_log.
Qed.

Lemma call_c_log (f : LuaState DB RedisRand -> CResult * LuaState DB RedisRand)
    (args : list LuaValue) (ls : LuaState DB RedisRand) :
  (forall s, exists new, calls (snd (f s)) = calls s ++ new) ->
  exists new, calls (snd (call_c f args ls)) = calls ls ++ new.
Proof.
  intros Hf. unfold call_c.
  match goal with |- context [f ?x] => destruct (Hf x) as (new & Hnew); destruct (f x) as [r l0] end.
  cbn [snd] in Hnew. destruct r; cbn [snd]; ext_log.
Qed.

Lemma exec_script_log (p : Script) :
  forall ls : LuaState DB RedisRand,
  exists new, calls (snd (exec_script p ls)) = calls ls ++ new.
Proof.
  induction p as [v|e|args k IH|args k IH|name f k IH]; intros ls; cbn [exec_script].
  - exists []. rewrite app_nil_r. reflexivity.
  - exists []. rewrite app_nil_r. reflexivity.
  - destruct (call_c_log redis_math_random args ls redis_math_random_log) as (n1 & H1).
    destruct (call_c redis_math_random args ls) as [[v|e] l0]; cbn [snd] in *.
    + destruct (IH v l0) as (n2 & H2). rewrite H2, H1, <- app_assoc. eexists; reflexivity.
    + eexists; eassumption.
  - destruct (call_c_log redis_math_randomseed args ls redis_math_randomseed_log)
      as (n1 & H1).
    destruct (call_c redis_math_randomseed args ls) as [[v|e] l0]; cbn [snd] in *.
    + destruct (IH l0) as (n2 & H2). rewrite H2, H1, <- app_assoc. eexists; reflexivity.
    + eexists; eassumption.
  - match goal with |- context [exec_script k ?x] => destruct (IH x) as (n & Hn) end.
    rewrite Hn. exists n. reflexivity.
Qed.

Lemma ScriptInterpreter_log_extending (compile : bytes -> bytes -> LuaValue + bytes)
    (sem : LuaValue -> Script) :
  log_extending (ScriptInterpreter compile sem).
Proof. intros f h ls. apply exec_script_log. Qed.

End ScriptFacts.

(** ** The runner on the small instance *)

Import Demo.

Lemma numkeys_rejected_before_interpreter_witness :
  exists st ls',
    evalGenericCommand Demo.engine (eval_args ["EVAL"; "return 1"; "-1"]%string) 0 [] 42
    = Some (Err st, ls')
    /\ _lua ls' = _lua Demo.engine /\ db ls' = db Demo.engine
    /\ calls ls' = calls Demo.engine ++ [CallSrand48 0].
Proof.
  apply (numkeys_rejected_before_interpreter (C := Demo.collaborators)
           (I := Demo.interpreter) Demo.engine
           (eval_args ["EVAL"; "return 1"; "-1"]%string) 0 [] 42 (str "-1") (-1)).
  - reflexivity.
  - reflexivity.
  - vm_compute. discriminate.
  - left. lia.
Defined.

Lemma resolve_twice_no_recompile_witness :
  exists ls1 f s,
    evalGenericCommand_resolve Demo.engine (map str ["EVAL"; "return 1"; "0"]%string) 0
      ("f"%char :: "_"%char :: sha1hex (str "return 1") ++ [NUL])
    = Some (Ok tt, ls1)
    /\ stack (_lua ls1) = f :: s /\ f = LFunction 1
    /\ evalGenericCommand_resolve ls1 (map str ["EVAL"; "return 1"; "0"]%string) 0
         ("f"%char :: "_"%char :: sha1hex (str "return 1") ++ [NUL])
       = Some (Ok tt, after_lookup ls1
                        ("f"%char :: "_"%char :: sha1hex (str "return 1") ++ [NUL]) f).
Proof.
  set (args := map str ["EVAL"; "return 1"; "0"]%string).
  set (fn := "f"%char :: "_"%char :: sha1hex (str "return 1") ++ [NUL]).
  set (ls1 := run_of (evalGenericCommand_resolve Demo.engine args 0 fn) Demo.engine).
  assert (H : evalGenericCommand_resolve Demo.engine args 0 fn = Some (Ok tt, ls1))
    by (vm_compute; reflexivity).
  destruct (resolve_twice_no_recompile (C := Demo.collaborators) (I := Demo.interpreter)
              Demo.engine ls1 args (str "return 1") H) as (f & s & Hs & _ & Hg & H2).
  exists ls1, f, s.
  split; [exact H|]. split; [exact Hs|]. split; [|exact H2].
  rewrite <- Hg. vm_compute. reflexivity.
Defined.

Lemma bind_after_reseed_before_lock_witness :
  exists pre post ls',
    evalGenericCommand Demo.engine
      (eval_args ["EVAL"; "return 1"; "1"; "k1"; "a1"]%string) 0 [] 42
    = Some (Ok (str ":1" ++ CRLF), ls')
    /\ calls ls'
       = CallSrand48 0 :: pre
         ++ CallSetGlobal (str "KEYS") (string_array [str "k1"])
         :: CallSetGlobal (str "ARGV") (string_array [str "a1"])
         :: CallLockKeys [3] :: post.
Proof.
  set (sess := eval_args ["EVAL"; "return 1"; "1"; "k1"; "a1"]%string).
  set (ls' := run_of (evalGenericCommand Demo.engine sess 0 [] 42) Demo.engine).
  assert (H : evalGenericCommand Demo.engine sess 0 [] 42
              = Some (Ok (str ":1" ++ CRLF), ls')) by (vm_compute; reflexivity).
  destruct (bind_after_reseed_before_lock (C := Demo.collaborators)
              (I := Demo.interpreter) Demo.engine ls' sess 0 [] 42 (str "1") 1
              (Ok (str ":1" ++ CRLF))
              (ScriptInterpreter_log_extending Demo.compile Demo.sem)
              eq_refl eq_refl ltac:(vm_compute; split; discriminate)
              ltac:(vm_compute; discriminate) H)
    as [(st & Hst & _)|(pre & post & Hc)]; [discriminate Hst|].
  exists pre, post, ls'. split; [exact H | exact Hc].
Defined.

(** C9 as stated fails: in the run of [EVAL "return 1" 1 k1 a1] the
    generator is reseeded before KEYS and ARGV are bound, not after. *)
Lemma bind_before_reseed_counterexample :
  option_map (fun x => all_before is_bind is_reseed (calls (snd x)))
    (evalGenericCommand Demo.engine
       (eval_args ["EVAL"; "return 1"; "1"; "k1"; "a1"]%string) 0 [] 42)
  = Some false
  /\ option_map (fun x => all_before is_reseed is_bind (calls (snd x)))
       (evalGenericCommand Demo.engine
          (eval_args ["EVAL"; "return 1"; "1"; "k1"; "a1"]%string) 0 [] 42)
     = Some true.
Proof. split; vm_compute; reflexivity. Qed.

(** C7 at a failing input: after [EVAL "return 1" 0] has defined its
    function, [EVALSHA] with a digest that names no function, entered with the
    name of that function still in the array [funcname], runs the function and
    answers [:1]; entered with the array zeroed, [EVALSHA] with the digest of
    the defined function answers NOSCRIPT. *)
Lemma evalsha_ignores_its_digest :
  let ls1 := run_of (evalGenericCommand Demo.engine
                       (eval_args ["EVAL"; "return 1"; "0"]%string) 0 [] 42)
                    Demo.engine in
  let unknown := repeat "f"%char 40 in
  let known := sha1hex (str "return 1") in
  rawget (globals (_lua ls1)) (KString (str "f_" ++ unknown)) = LNil
  /\ rawget (globals (_lua ls1)) (KString (str "f_" ++ known)) = LFunction 1
  /\ option_map fst
       (evalGenericCommand ls1 (Demo.client [str "EVALSHA"; unknown; str "0"]) 1
          (str "f_" ++ known ++ [NUL]) 43)
     = Some (Ok (str ":1" ++ CRLF))
  /\ option_map fst
       (evalGenericCommand ls1 (Demo.client [str "EVALSHA"; known; str "0"]) 1
          (repeat NUL 43) 43)
     = Some (Err (mkStatus ERR_LUA
                    (str "-NOSCRIPT No matching script. Please use EVAL." ++ CRLF))).
Proof. repeat split; vm_compute; reflexivity. Qed.

(** ** Two runs of a script over the generator *)

Lemma with_globals_stack (L : lua_State) (g : table) : stack (with_globals L g) = stack L.
Proof. reflexivity. Qed.

(** The encoding of a value depends on the value alone: whatever lies under
    it on the stack, and whatever the rest of the interpreter state is. *)
Lemma lua_gettable_2_any (L : lua_State) (kv : LuaValue) (es : table) (s : list LuaValue) :
  lua_gettable (with_stack L (kv :: LTable es :: s)) (-2)
  = Some (with_stack L ((match key_of kv with Some k => rawget es k | None => LNil end)
                        :: LTable es :: s)).
Proof.
  unfold lua_gettable, index2adr, index_pos. cbn.
  destruct (key_of kv); reflexivity.
Qed.

Definition frame_free (rec : lua_State -> option (bytes * lua_State)) : Prop :=
  forall L v s b L',
    rec (with_stack L (v :: s)) = Some (b, L') ->
    L' = with_stack L s
    /\ forall L2 s2, rec (with_stack L2 (v :: s2)) = Some (b, with_stack L2 s2).

Lemma reply_loop_frame (rec : lua_State -> option (bytes * lua_State)) :
  frame_free rec ->
  forall n j m rsp L t s m' rsp' L',
    reply_loop rec n j m rsp (with_stack L (LTable t :: s)) = Some (m', rsp', L') ->
    L' = with_stack L (LTable t :: s)
    /\ forall L2 s2,
        reply_loop rec n j m rsp (with_stack L2 (LTable t :: s2))
        = Some (m', rsp', with_stack L2 (LTable t :: s2)).
Proof.
  intros Hrec. induction n as [|n IH]; intros j m rsp L t s m' rsp' L' H; [discriminate|].
  cbn [reply_loop] in H |- *. unfold lua_pushnumber in *.
  rewrite lua_push_with_stack, lua_gettable_2_any in H.
  set (x := match key_of (LNumber (int_to_double j)) with
            | Some k => rawget t k | None => LNil end) in *.
  erewrite lua_type_top in H by reflexivity.
  destruct (lua_type_tag_eqb (type_of x) LUA_TNIL) eqn:Hx.
  - erewrite lua_pop_1 in H by reflexivity. rewrite with_stack_idem in H.
    injection H as <- <- <-. split; [reflexivity|]. intros L2 s2.
    rewrite lua_push_with_stack, lua_gettable_2_any. fold x.
    erewrite lua_type_top by reflexivity. rewrite Hx.
    erewrite lua_pop_1 by reflexivity. rewrite with_stack_idem. reflexivity.
  - destruct (rec _) as [[r L1]|] eqn:Hr; [|discriminate].
    apply Hrec in Hr. destruct Hr as (-> & Hr2).
    apply IH in H. destruct H as (-> & H2). split; [reflexivity|]. intros L2 s2.
    rewrite lua_push_with_stack, lua_gettable_2_any. fold x.
    erewrite lua_type_top by reflexivity. rewrite Hx, Hr2. apply H2.
Qed.

Lemma encode_frame (fuel : nat) : frame_free (luaReplyToRedisReply_fuel fuel).
Proof.
  induction fuel as [|fuel IH]; intros L v s b L' H; [discriminate|].
  cbn [luaReplyToRedisReply_fuel] in H |- *.
  erewrite lua_type_top in H by reflexivity.
  assert (Hty : forall L2 s2, lua_type (with_stack L2 (v :: s2)) (-1) = type_of v)
    by (intros; apply lua_type_top with (s := s2); reflexivity).
  destruct v as [|bb|n|str0|t|f]; cbn [type_of] in H;
    try (cbn in H; injection H as <- <-; split; [reflexivity|];
         intros L2 s2; rewrite Hty; reflexivity).
  unfold lua_pushstring in H. rewrite lua_push_with_stack, lua_gettable_2_any in H.
  cbn [key_of] in H.
  remember (rawget t (KString (c_str (str "err")))) as e eqn:Ee.
  erewrite lua_type_top in H by reflexivity.
  destruct (lua_type_tag_eqb (type_of e) LUA_TSTRING) eqn:He.
  { destruct e as [| | |es| |]; try discriminate He.
    cbn in H. injection H as <- <-. split; [reflexivity|]. intros L2 s2.
    rewrite Hty. cbn [type_of]. unfold lua_pushstring.
    rewrite lua_push_with_stack, lua_gettable_2_any. cbn [key_of]. rewrite <- Ee.
    reflexivity. }
  erewrite lua_pop_1 in H by reflexivity. rewrite with_stack_idem in H.
  rewrite lua_push_with_stack, lua_gettable_2_any in H. cbn [key_of] in H.
  remember (rawget t (KString (c_str (str "ok")))) as o eqn:Eo.
  erewrite lua_type_top in H by reflexivity.
  destruct (lua_type_tag_eqb (type_of o) LUA_TSTRING) eqn:Ho.
  { destruct o as [| | |os| |]; try discriminate Ho.
    cbn in H. injection H as <- <-. split; [reflexivity|]. intros L2 s2.
    rewrite Hty. cbn [type_of]. unfold lua_pushstring.
    rewrite lua_push_with_stack, lua_gettable_2_any. cbn [key_of]. rewrite <- Ee.
    erewrite lua_type_top by reflexivity. rewrite He.
    erewrite lua_pop_1 by reflexivity. rewrite with_stack_idem.
    rewrite lua_push_with_stack, lua_gettable_2_any. cbn [key_of]. rewrite <- Eo.
    reflexivity. }
  erewrite lua_pop_1 in H by reflexivity. rewrite with_stack_idem in H.
  destruct (reply_loop _ fuel 1 0 [] _) as [[[m' rsp'] L1]|] eqn:Hloop; [|discriminate].
  apply (reply_loop_frame _ IH) in Hloop. destruct Hloop as (-> & Hloop2).
  erewrite lua_pop_1 in H by reflexivity. rewrite with_stack_idem in H.
  injection H as <- <-. split; [reflexivity|]. intros L2 s2.
  rewrite Hty. cbn [type_of]. unfold lua_pushstring.
  rewrite lua_push_with_stack, lua_gettable_2_any. cbn [key_of]. rewrite <- Ee.
  erewrite lua_type_top by reflexivity. rewrite He.
  erewrite lua_pop_1 by reflexivity. rewrite with_stack_idem.
  rewrite lua_push_with_stack, lua_gettable_2_any. cbn [key_of]. rewrite <- Eo.
  erewrite lua_type_top by reflexivity. rewrite Ho.
  erewrite lua_pop_1 by reflexivity. rewrite with_stack_idem.
  rewrite Hloop2. erewrite lua_pop_1 by reflexivity. rewrite with_stack_idem. reflexivity.
Qed.

Lemma luaReplyToRedisReply_frame (L L' : lua_State) (v : LuaValue) (s : list LuaValue)
    (b : bytes) :
  stack L = v :: s ->
  luaReplyToRedisReply L = Some (b, L') ->
  L' = with_stack L s
  /\ forall L2 s2, stack L2 = v :: s2 ->
                   luaReplyToRedisReply L2 = Some (b, with_stack L2 s2).
Proof.
  intros Hs H. unfold luaReplyToRedisReply in *. rewrite Hs in H.
  rewrite <- (with_stack_same L), Hs in H.
  apply encode_frame in H. destruct H as (-> & H2).
  split; [reflexivity|].
  intros L2 s2 Hs2. rewrite Hs2. rewrite <- (with_stack_same L2), Hs2.
  rewrite with_stack_idem. apply H2.
Qed.

(** Engine states are normalised with sharing: every setter copies its
    argument a dozen times. *)
Ltac norm_state :=
  lazy beta iota zeta delta
    [set_lua set_sess set_fakeSess set_inuse set_random_dirty set_write_dirty
     set_replicate_commands set_timedout set_time_start set_rand set_db log
     set_calls after_draws _lua _svr _sess _fakeSess inuse lua_random_dirty
     lua_write_dirty lua_replicate_commands lua_timedout lua_time_start _rand db
     calls with_stack with_globals with_hook stack globals level1 hook
     lua_push lua_pushnumber lua_sethook hd fst snd].

Ltac norm_state_in H :=
  lazy beta iota zeta delta
    [set_lua set_sess set_fakeSess set_inuse set_random_dirty set_write_dirty
     set_replicate_commands set_timedout set_time_start set_rand set_db log
     set_calls after_draws _lua _svr _sess _fakeSess inuse lua_random_dirty
     lua_write_dirty lua_replicate_commands lua_timedout lua_time_start _rand db
     calls with_stack with_globals with_hook stack globals level1 hook
     lua_push lua_pushnumber lua_sethook hd fst snd] in H.

Section DeterminismFacts.

Context {DB RedisRand : Type} {C : Collaborators DB RedisRand}.

Lemma bytes_eqb_eq (a b : bytes) : bytes_eqb a b = true <-> a = b.
Proof.
  revert b. induction a as [|x a IH]; intros [|y b]; cbn [bytes_eqb];
    try (split; [discriminate | discriminate]); [tauto|].
  rewrite andb_true_iff, Ascii.eqb_eq, IH. split.
  - intros [-> ->]. reflexivity.
  - intros E. injection E as -> ->. auto.
Qed.

Lemma key_eqb_string (k : LuaKey) (a : bytes) :
  key_eqb k (KString a) = true -> k = KString a.
Proof.
  destruct k; cbn [key_eqb]; try discriminate.
  intros H. apply bytes_eqb_eq in H. subst. reflexivity.
Qed.

Lemma key_eqb_string_refl (a : bytes) : key_eqb (KString a) (KString a) = true.
Proof. cbn [key_eqb]. apply bytes_eqb_eq. reflexivity. Qed.

Lemma rawget_put_same (g : table) (a : bytes) (v : LuaValue) :
  rawget (table_put g (KString a) v) (KString a) = v.
Proof.
  induction g as [|[k x] g IH]; cbn [table_put rawget].
  - rewrite key_eqb_string_refl. reflexivity.
  - destruct (key_eqb k (KString a)) eqn:E; cbn [rawget]; rewrite E; auto.
Qed.

Lemma rawget_put_other (g : table) (a b : bytes) (v : LuaValue) :
  a <> b -> rawget (table_put g (KString a) v) (KString b) = rawget g (KString b).
Proof.
  intros Hab.
  assert (Hn : key_eqb (KString a) (KString b) = false).
  { cbn [key_eqb]. destruct (bytes_eqb a b) eqn:E; [|reflexivity].
    apply bytes_eqb_eq in E. contradiction. }
  induction g as [|[k x] g IH]; cbn [table_put rawget].
  - rewrite Hn. reflexivity.
  - destruct (key_eqb k (KString a)) eqn:E; cbn [rawget].
    + apply key_eqb_string in E. subst k. rewrite Hn. reflexivity.
    + rewrite IH. reflexivity.
Qed.

Lemma rawget_remove_other (g : table) (a b : bytes) :
  a <> b -> rawget (table_remove g (KString a)) (KString b) = rawget g (KString b).
Proof.
  intros Hab.
  assert (Hn : key_eqb (KString a) (KString b) = false).
  { cbn [key_eqb]. destruct (bytes_eqb a b) eqn:E; [|reflexivity].
    apply bytes_eqb_eq in E. contradiction. }
  induction g as [|[k x] g IH]; cbn [table_remove rawget]; [reflexivity|].
  destruct (key_eqb k (KString a)) eqn:E; cbn [rawget].
  - apply key_eqb_string in E. subst k. rewrite Hn. reflexivity.
  - rewrite IH. reflexivity.
Qed.

Lemma rawget_rawset_same (g : table) (a : bytes) (v : LuaValue) :
  v <> LNil -> rawget (rawset g (KString a) v) (KString a) = v.
Proof. intros Hv. destruct v; try contradiction; apply rawget_put_same. Qed.

Lemma rawget_rawset_other (g : table) (a b : bytes) (v : LuaValue) :
  a <> b -> rawget (rawset g (KString a) v) (KString b) = rawget g (KString b).
Proof.
  intros Hab. destruct v; cbn [rawset];
    auto using rawget_put_other, rawget_remove_other.
Qed.

(** *** The digest-derived name is a C string *)

Lemma cset_nibble (z : Z) : 0 <= z < 16 -> nth (Z.to_nat z) cset NUL <> NUL.
Proof.
  intros Hz. assert (Hn : (Z.to_nat z < 16)%nat) by lia.
  revert Hn. generalize (Z.to_nat z). intros n Hn.
  do 16 (destruct n as [|n]; [discriminate|]). lia.
Qed.

Lemma low_nibble (h : Z) : 0 <= Z.land h 15 < 16.
Proof.
  change 15 with (Z.ones 4). rewrite Z.land_ones by lia.
  apply Z.mod_pos_bound. reflexivity.
Qed.

Lemma high_nibble (h : Z) : 0 <= Z.shiftr (Z.land h 240) 4 < 16.
Proof.
  rewrite Z.shiftr_land. change (Z.shiftr 240 4) with 15. apply low_nibble.
Qed.

Lemma sha1hex_no_nul (script : bytes) : Forall (fun c => c <> NUL) (sha1hex script).
Proof.
  unfold sha1hex. generalize (seq 0 20). intros l.
  induction l as [|j l IH]; cbn [flat_map app]; [constructor|].
  constructor; [apply cset_nibble, high_nibble|].
  constructor; [apply cset_nibble, low_nibble|]. exact IH.
Qed.

Lemma c_str_terminated (s : bytes) (rest : bytes) :
  Forall (fun c => c <> NUL) s -> c_str (s ++ NUL :: rest) = s.
Proof.
  induction 1 as [|c s Hc Hs IH]; cbn [app c_str].
  - reflexivity.
  - destruct (Ascii.eqb c NUL) eqn:E; [apply Ascii.eqb_eq in E; contradiction|].
    rewrite IH. reflexivity.
Qed.

Lemma c_str_funcname (body : bytes) :
  c_str ("f"%char :: "_"%char :: (sha1hex body ++ [NUL])) = str "f_" ++ sha1hex body.
Proof.
  change ("f"%char :: "_"%char :: (sha1hex body ++ [NUL]))
    with ((str "f_" ++ sha1hex body) ++ NUL :: []).
  apply c_str_terminated.
  change (str "f_" ++ sha1hex body) with ("f"%char :: "_"%char :: sha1hex body).
  constructor; [discriminate|]. constructor; [discriminate|]. apply sha1hex_no_nul.
Qed.

Lemma c_str_plain (s : bytes) : Forall (fun c => c <> NUL) s -> c_str s = s.
Proof.
  induction 1 as [|c s Hc Hs IH]; cbn [c_str]; [reflexivity|].
  destruct (Ascii.eqb c NUL) eqn:E; [apply Ascii.eqb_eq in E; contradiction|].
  rewrite IH. reflexivity.
Qed.

(** *** The generator calls see the generator and their arguments only *)

Lemma luaL_checkint_stack (L : lua_State) (s : list LuaValue) (n : Z) :
  luaL_checkint (with_stack L s) n
  = match luaL_checkint (mkLua s [] None None) n with
    | inl (e, L0) => inl (e, with_stack L (stack L0))
    | inr z => inr z
    end.
Proof.
  unfold luaL_checkint, lua_raise, lua_pushstring, lua_push, lua_type, index2adr, index_pos.
  cbn [with_stack stack globals level1 hook].
  repeat match goal with
         | |- context [match ?x with _ => _ end] => destruct x
         end; reflexivity.
Qed.

Lemma call_random_frame (args : list LuaValue) (lsA lsB : LuaState DB RedisRand) :
  _rand lsA = _rand lsB ->
  exists v evs rnd,
    call_c redis_math_random args lsA = (v, after_draws lsA evs rnd)
    /\ call_c redis_math_random args lsB = (v, after_draws lsB evs rnd).
Proof.
  destruct lsA as [[sa ga la ha] ? ? ? ? ? ? ? ? ? ra ? ca].
  destruct lsB as [[sb gb lb hb] ? ? ? ? ? ? ? ? ? rb ? cb].
  cbn [_rand]. intros <-.
  unfold call_c, redis_math_random, random_return, after_draws, set_calls.
  unfold leave_raising, lua_raise.
  simpl_state. unfold lua_gettop. cbn [with_stack stack].
  rewrite !(luaL_checkint_stack (mkLua sa ga la ha) (rev args)).
  rewrite !(luaL_checkint_stack (mkLua sb gb lb hb) (rev args)).
  destruct (redisLrand48 ra) as [x rnd].
  repeat match goal with
         | |- context [if Z.of_nat ?n =? ?k then _ else _] =>
             destruct (Z.of_nat n =? k)
         | |- context [if negb ?b then _ else _] => destruct b; cbn [negb]
         | |- context [match luaL_checkint ?l ?n with _ => _ end] =>
             destruct (luaL_checkint l n) as [[? ?]|?]
         end;
    change (1 =? 0) with false; cbn [fst snd]; norm_state;
    eexists _, _, _; split; rewrite <- ?app_assoc; reflexivity.
Qed.

Lemma call_randomseed_frame (args : list LuaValue) (lsA lsB : LuaState DB RedisRand) :
  exists v evs rnd,
    call_c redis_math_randomseed args lsA = (v, after_draws lsA evs rnd)
    /\ (_rand lsA = _rand lsB ->
        call_c redis_math_randomseed args lsB = (v, after_draws lsB evs rnd)).
Proof.
  destruct lsA as [[sa ga la ha] ? ? ? ? ? ? ? ? ? ra ? ca].
  destruct lsB as [[sb gb lb hb] ? ? ? ? ? ? ? ? ? rb ? cb].
  cbn [_rand].
  unfold call_c, redis_math_randomseed, after_draws, set_calls.
  unfold leave_raising.
  simpl_state. cbn [with_stack stack].
  rewrite (luaL_checkint_stack (mkLua sa ga la ha) (rev args) 1).
  rewrite (luaL_checkint_stack (mkLua sb gb lb hb) (rev args) 1).
  destruct (luaL_checkint _ 1) as [[e L0]|seed]; change (0 =? 0) with true;
    cbn [fst snd]; norm_state.
  - exists (inr e), [], ra. rewrite !app_nil_r. split; [reflexivity|].
    intros <-. reflexivity.
  - eexists _, _, _. split; [reflexivity|]. intros _. reflexivity.
Qed.

Lemma after_draws_twice (ls : LuaState DB RedisRand) (e1 e2 : list Call)
    (r1 r2 : RedisRand) :
  after_draws (after_draws ls e1 r1) e2 r2 = after_draws ls (e1 ++ e2) r2.
Proof. norm_state. rewrite app_assoc. reflexivity. Qed.

Lemma after_draws_nil (ls : LuaState DB RedisRand) : after_draws ls [] (_rand ls) = ls.
Proof. destruct ls. norm_state. rewrite app_nil_r. reflexivity. Qed.

Lemma exec_rng_frame (p : Script) :
  rng_only p ->
  forall lsA lsB : LuaState DB RedisRand,
  _rand lsA = _rand lsB ->
  exists res evs rnd,
    exec_script p lsA = (res, after_draws lsA evs rnd)
    /\ exec_script p lsB = (res, after_draws lsB evs rnd).
Proof.
  induction p as [v|e|args k IH|args k IH|name f k IH]; cbn [rng_only exec_script];
    intros Hp lsA lsB Hr.
  - exists (PcallOk v), [], (_rand lsA).
    split; [|rewrite Hr]; rewrite after_draws_nil; reflexivity.
  - exists (PcallErr e), [], (_rand lsA).
    split; [|rewrite Hr]; rewrite after_draws_nil; reflexivity.
  - destruct (call_random_frame args lsA lsB Hr) as (v & e1 & r1 & -> & ->).
    destruct v as [v|e].
    + destruct (IH v (Hp v) (after_draws lsA e1 r1) (after_draws lsB e1 r1) eq_refl)
        as (res & e2 & r2 & -> & ->).
      rewrite !after_draws_twice. eexists _, _, _. split; reflexivity.
    + eexists _, _, _. split; reflexivity.
  - destruct (call_randomseed_frame args lsA lsB) as (v & e1 & r1 & -> & HB).
    rewrite (HB Hr). destruct v as [v|e].
    + destruct (IH Hp (after_draws lsA e1 r1) (after_draws lsB e1 r1) eq_refl)
        as (res & e2 & r2 & -> & ->).
      rewrite !after_draws_twice. eexists _, _, _. split; reflexivity.
    + eexists _, _, _. split; reflexivity.
  - contradiction.
Qed.

End DeterminismFacts.

Section DeterminismRun.

Context {DB RedisRand : Type} {C : Collaborators DB RedisRand}
        (compile : bytes -> bytes -> LuaValue + bytes) (sem : LuaValue -> Script).


Lemma random_outputs_app (a b : list Call) :
  random_outputs (a ++ b) = random_outputs a ++ random_outputs b.
Proof. apply flat_map_app. Qed.

Ltac same_outputs :=
  rewrite ?random_outputs_app; cbn [random_outputs flat_map app];
  rewrite ?app_nil_r; reflexivity.

(** The call of a function over the generator and the translation of its
    result: two engines whose generators agree give the same answer and
    hand the script the same numbers. *)
Lemma run_sim (A B A' : LuaState DB RedisRand) (f hA hB : LuaValue)
    (sA sB : list LuaValue) (fn : bytes) (nowA nowB : Z) (r : Expected bytes) :
  stack (_lua A) = f :: hA :: sA -> stack (_lua B) = f :: hB :: sB ->
  rng_only (sem f) -> _rand A = _rand B ->
  evalGenericCommand_run (I := ScriptInterpreter compile sem) A fn nowA = Some (r, A') ->
  exists B' evA evB,
    evalGenericCommand_run (I := ScriptInterpreter compile sem) B fn nowB = Some (r, B')
    /\ calls A' = calls A ++ evA /\ calls B' = calls B ++ evB
    /\ random_outputs evA = random_outputs evB
    /\ _rand A' = _rand B'.
Proof.
  destruct A as [[stA gA lA hkA] svrA sessA fakeA iuA rdA wdA rcA toA tsA rA dbA cA].
  destruct B as [[stB gB lB hkB] svrB sessB fakeB iuB rdB wdB rcB toB tsB rB dbB cB].
  cbn [_lua stack _rand calls]. intros -> -> Hrng <- H.
  unfold evalGenericCommand_run, lua_pcall in *.
  norm_state. norm_state_in H.
  change (-2 =? 0) with false in *. change (1 =? 0) with false in *.
  destruct (0 <? luaTimeLimit svrA); destruct (0 <? luaTimeLimit svrB);
    norm_state; norm_state_in H;
    match type of H with
    | context [run_pcall f ?h ?x] =>
        change (run_pcall f h x) with (exec_script (sem f) x) in H;
        match goal with
        | |- context [run_pcall f ?h2 ?y] =>
            change (run_pcall f h2 y) with (exec_script (sem f) y);
            destruct (exec_rng_frame (sem f) Hrng x y eq_refl)
              as (res & evs & rnd & EA & EB);
            rewrite EA in H; rewrite EB; clear EA EB
        end
    end;
    destruct res as [v|e]; norm_state; norm_state_in H;
    change (0 =? 0) with true in *; change (1 =? 0) with false in *;
    cbn [negb] in *;
    destruct (toA =? 0); destruct (toB =? 0); cbn [negb] in *;
    norm_state; norm_state_in H.
  all: try (destruct (luaReplyToRedisReply _) as [[ret L1]|] eqn:E in H;
            [|discriminate H];
            eapply luaReplyToRedisReply_frame in E; [|reflexivity];
            destruct E as (-> & E2);
            erewrite E2 by reflexivity).
  all: try (unfold lua_tostring, lua_tolstring, index2adr, index_pos in *;
            cbn [Z.ltb Z.compare Z.opp Z.sub Z.add Z.to_nat Z.pos_sub nth_error stack]
              in *;
            match type of H with
            | context [match ?e with LString _ => _ | _ => _ end] =>
                destruct e; try discriminate H
            end).
  all: unfold lua_pop in *;
       cbn [with_stack stack length Nat.leb skipn] in *;
       injection H as <- <-;
       eexists _, _, _; (split; [reflexivity|]);
       norm_state; rewrite <- ?app_assoc;
       (split; [reflexivity|]); (split; [reflexivity|]); split; [|reflexivity];
       same_outputs.
Qed.

Lemma updateFakeClient_synced (X A : LuaState DB RedisRand) (sess : Session) :
  _sess X = Some sess -> _fakeSess X = _fakeSess A -> _svr X = _svr A ->
  updateFakeClient X = Some (set_fakeSess X (Some (synced_fake A sess))).
Proof.
  intros Hs Hf Hv. unfold updateFakeClient, synced_fake. rewrite Hs, Hf, Hv. reflexivity.
Qed.

(** From the binding of KEYS and ARGV on: the same holds of the whole
    invocation of a resolved function when the two engines also lock the
    keys against the same store for the same session. *)
Lemma invoke_sim (A B A' : LuaState DB RedisRand) (f hA hB : LuaValue)
    (sA sB : list LuaValue) (args : list bytes) (numkeys : Z) (fn : bytes)
    (nowA nowB : Z) (sess : Session) (r : Expected bytes) :
  stack (_lua A) = f :: hA :: sA -> stack (_lua B) = f :: hB :: sB ->
  rng_only (sem f) -> _rand A = _rand B ->
  _sess A = Some sess -> _sess B = Some sess -> db A = db B ->
  synced_fake A sess = synced_fake B sess ->
  0 <= numkeys <= Z.of_nat (length args) - 3 ->
  Z.of_nat (length args) - 3 <= INT_MAX ->
  evalGenericCommand_invoke (I := ScriptInterpreter compile sem) A args numkeys fn nowA
  = Some (r, A') ->
  exists B' evA evB,
    evalGenericCommand_invoke (I := ScriptInterpreter compile sem) B args numkeys fn nowB
    = Some (r, B')
    /\ calls A' = calls A ++ evA /\ calls B' = calls B ++ evB
    /\ random_outputs evA = random_outputs evB
    /\ _rand A' = _rand B'.
Proof.
  intros HsA HsB Hrng Hr HseA HseB Hdb Hfake Hnk Hlen H.
  unfold evalGenericCommand_invoke, evalGenericCommand_bind in *.
  rewrite !luaSetGlobalArray_spec in H
    by (unfold INT_MAX in Hlen; assert (2 ^ 31 < 2 ^ 53) by reflexivity; lia).
  rewrite !luaSetGlobalArray_spec
    by (unfold INT_MAX in Hlen; assert (2 ^ 31 < 2 ^ 53) by reflexivity; lia).
  rewrite (updateFakeClient_synced _ A sess) in H by (try exact HseA; reflexivity).
  rewrite (updateFakeClient_synced _ B sess) by (try exact HseB; reflexivity).
  cbn [_fakeSess set_fakeSess] in H |- *.
  simpl_state. rewrite <- Hfake, <- Hdb.
  destruct (getAllKeysLocked (db A) (synced_fake A sess) args _) as [[]|st].
  - destruct (evalGenericCommand_run _ fn nowA) as [[ret A1]|] eqn:Hrun; [|discriminate].
    injection H as <- <-.
    match goal with
    | |- context [evalGenericCommand_run ?y fn nowB] =>
        apply (run_sim _ y _ f hA hB sA sB fn nowA nowB) in Hrun;
          [| exact HsA | exact HsB | exact Hrng | exact Hr]
    end.
    destruct Hrun as (B1 & evA & evB & -> & HcA & HcB & Hout & Hrand).
    eexists _, _, _. split; [reflexivity|]. simpl_state. rewrite HcA, HcB.
    simpl_state. rewrite <- !app_assoc.
    split; [reflexivity|]. split; [reflexivity|]. split; [|exact Hrand].
    rewrite !random_outputs_app, Hout. reflexivity.
  - unfold lua_pop in *. cbn [with_globals stack] in *. rewrite HsA in H. rewrite HsB.
    cbn [length Nat.leb skipn] in *. injection H as <- <-.
    eexists _, _, _. split; [reflexivity|]. simpl_state. rewrite <- !app_assoc.
    split; [reflexivity|]. split; [reflexivity|]. split; [|exact Hr].
    reflexivity.
Qed.

Lemma luaCreateFunction_defines (X : LuaState DB RedisRand) (body : bytes)
    (c f : LuaValue) :
  compile (funcdef_of body) (str "@user_script") = inl c ->
  sem c = SDefine (str "f_" ++ sha1hex body) f (SReturn LNil) ->
  luaCreateFunction (I := ScriptInterpreter compile sem) X body
  = Some (Ok (str "f_" ++ sha1hex body),
          set_lua (set_calls X (calls X ++ [CallLoadBuffer (funcdef_of body); CallPcall c]))
            (with_globals (_lua X)
               (rawset (globals (_lua X)) (KString (str "f_" ++ sha1hex body)) f))).
Proof.
  intros Hc Hsem.
  destruct X as [[st g l hk] svr se fk iu rd wd rc to ts rnd d cs].
  unfold luaCreateFunction, luaL_loadbuffer.
  change (compile_chunk ?b ?n) with (compile b n).
  fold (funcdef_of body). rewrite Hc.
  change (negb (0 =? 0)) with false. cbv iota.
  unfold lua_pcall. norm_state.
  change (run_pcall c ?h ?x) with (exec_script (sem c) x). rewrite Hsem.
  cbn [exec_script]. change (0 =? 0) with true. norm_state.
  rewrite <- app_assoc. reflexivity.
Qed.

(** The resolution of a body that compiles to a chunk defining [f], on an
    engine whose global table holds nothing or [f] under the name. *)
Lemma resolve_script (X : LuaState DB RedisRand) (args : list bytes) (fn body : bytes)
    (c f : LuaValue) :
  nth_error args 1 = Some body ->
  c_str fn = str "f_" ++ sha1hex body ->
  compile (funcdef_of body) (str "@user_script") = inl c ->
  sem c = SDefine (str "f_" ++ sha1hex body) f (SReturn LNil) ->
  f <> LNil ->
  rawget (globals (_lua X)) (KString (str "f_" ++ sha1hex body)) = LNil
  \/ rawget (globals (_lua X)) (KString (str "f_" ++ sha1hex body)) = f ->
  exists X1 h ev,
    evalGenericCommand_resolve (I := ScriptInterpreter compile sem) X args 0 fn = Some (Ok tt, X1)
    /\ stack (_lua X1) = f :: h :: stack (_lua X)
    /\ _rand X1 = _rand X /\ _sess X1 = _sess X /\ db X1 = db X
    /\ (forall sess, synced_fake X1 sess = synced_fake X sess)
    /\ calls X1 = calls X ++ ev /\ random_outputs ev = [].
Proof.
  intros Hbody Hname Hc Hsem Hf [Hg|Hg].
  - destruct X as [[st g l hk] svr se fk iu rd wd rc to ts rnd d cs].
    cbn [_lua globals] in Hg.
    unfold evalGenericCommand_resolve, ls_getglobal, lua_getglobal, lua_isnil,
      lua_type, index2adr, index_pos, lua_pop.
    rewrite Hbody. norm_state. rewrite Hname, Hg.
    cbn [Z.ltb Z.compare Z.opp Z.sub Z.add Z.to_nat Z.pos_sub nth_error
         type_of lua_type_tag_eqb length Nat.leb skipn].
    change (negb (0 =? 0)) with false. cbv iota.
    erewrite luaCreateFunction_defines by eassumption.
    cbn [expected_ok negb]. cbv iota. norm_state.
    rewrite rawget_rawset_same by exact Hf.
    cbn [Z.ltb Z.compare Z.opp Z.sub Z.add Z.to_nat Z.pos_sub nth_error
         type_of lua_type_tag_eqb length Nat.leb skipn].
    destruct f; try contradiction;
      eexists _, _, _; (split; [reflexivity|]); unfold synced_fake; norm_state;
      rewrite <- ?app_assoc; repeat split; reflexivity.
  - rewrite (resolve_hit X args 0 fn f) by (rewrite ?Hname; assumption).
    unfold after_lookup. eexists _, _, _. split; [reflexivity|].
    unfold synced_fake. simpl_state. cbn [with_stack stack]. rewrite <- ?app_assoc.
    repeat split; reflexivity.
Qed.

End DeterminismRun.

(** ** Two-run determinism *)

Section Determinism.

Context {DB RedisRand : Type} {C : Collaborators DB RedisRand}
        (compile : bytes -> bytes -> LuaValue + bytes) (sem : LuaValue -> Script).


(** C5: every EVAL starts by reseeding the generator with 0 (the first call
    it makes), and so two invocations of the same script, a body whose
    function only calls [math.random] and [math.randomseed], give the same
    answer and hand the script the same sequence of random numbers: on any
    two engine states, whatever their generators held, whether or not the
    function was already defined, provided the key locks are taken against
    the same store for the same session. The second run is shown to return. *)
Theorem reseed_gives_two_run_determinism
    (lsA lsB lsA' : LuaState DB RedisRand) (sess : Session) (body : bytes)
    (c f : LuaValue) (fnA fnB : bytes) (nowA nowB : Z) (r : Expected bytes) :
  let args := sess_args sess in
  let name := str "f_" ++ sha1hex body in
  nth_error args 1 = Some body ->
  Z.of_nat (length args) - 3 <= INT_MAX ->
  compile (funcdef_of body) (str "@user_script") = inl c ->
  sem c = SDefine name f (SReturn LNil) ->
  f <> LNil ->
  rng_only (sem f) ->
  rawget (globals (_lua lsA)) (KString name) = LNil
  \/ rawget (globals (_lua lsA)) (KString name) = f ->
  rawget (globals (_lua lsB)) (KString name) = LNil
  \/ rawget (globals (_lua lsB)) (KString name) = f ->
  db lsA = db lsB ->
  synced_fake lsA sess = synced_fake lsB sess ->
  evalGenericCommand (I := ScriptInterpreter compile sem) lsA sess 0 fnA nowA = Some (r, lsA') ->
  exists lsB' outA outB,
    evalGenericCommand (I := ScriptInterpreter compile sem) lsB sess 0 fnB nowB = Some (r, lsB')
    /\ calls lsA' = calls lsA ++ CallSrand48 0 :: outA
    /\ calls lsB' = calls lsB ++ CallSrand48 0 :: outB
    /\ random_outputs outA = random_outputs outB
    /\ _rand lsA' = _rand lsB'.
Proof.
  intros args name Hbody Hlen Hc Hsem Hf Hrng HgA HgB Hdb Hfake H.
  unfold evalGenericCommand in *. fold args in H |- *.
  destruct (nth_error args 2) as [a2|]; [|discriminate].
  assert (Hdone : forall (st : Status) (XA XB : LuaState DB RedisRand),
    calls XA = calls lsA ++ [CallSrand48 0] -> calls XB = calls lsB ++ [CallSrand48 0] ->
    _rand XA = _rand XB ->
    Some (Err st, XA) = Some (r, lsA') ->
    exists lsB' outA outB,
      Some (@Err bytes st, XB) = Some (r, lsB')
      /\ calls lsA' = calls lsA ++ CallSrand48 0 :: outA
      /\ calls lsB' = calls lsB ++ CallSrand48 0 :: outB
      /\ random_outputs outA = random_outputs outB
      /\ _rand lsA' = _rand lsB').
  { intros st XA XB HcA HcB Hr E. injection E as <- <-.
    exists XB, [], []. rewrite HcA, HcB. repeat split; assumption || reflexivity. }
  destruct (stoll a2) as [numkeys|st]; [|eapply Hdone; try exact H; reflexivity].
  rewrite static_cast_int_id in *
    by (unfold INT_MAX in Hlen; split; [lia | eapply Z.le_lt_trans; [exact Hlen|reflexivity]]).
  destruct (numkeys >? Z.of_nat (length args) - 3) eqn:Hgt;
    [eapply Hdone; try exact H; reflexivity|].
  destruct (numkeys <? 0) eqn:Hlt; [eapply Hdone; try exact H; reflexivity|].
  clear Hdone.
  change (0 =? 0) with true in *. cbv iota in H |- *. rewrite Hbody in *.
  cbv beta iota zeta in H |- *.
  set (fn := "f"%char :: "_"%char :: sha1hex body ++ [NUL]) in *.
  pose proof (c_str_funcname body) as Hname. fold fn in Hname.
  match type of H with
  | context [evalGenericCommand_resolve ?x args 0 fn] =>
      destruct (resolve_script compile sem x args fn body c f Hbody Hname Hc Hsem Hf HgA)
        as (XA1 & hA & evA & EA & HstA & HrA & HseA & HdbA & HfkA & HcA & HoA);
      rewrite EA in H; clear EA
  end.
  match goal with
  | |- context [evalGenericCommand_resolve ?x args 0 fn] =>
      destruct (resolve_script compile sem x args fn body c f Hbody Hname Hc Hsem Hf HgB)
        as (XB1 & hB & evB & EB & HstB & HrB & HseB & HdbB & HfkB & HcB & HoB);
      rewrite EB; clear EB
  end.
  simpl_state.
  apply (invoke_sim compile sem XA1 XB1 lsA' f hA hB _ _ args numkeys fn nowA nowB sess r
           HstA HstB Hrng) in H.
  - destruct H as (B' & oA & oB & -> & HA' & HB' & Hout & Hrand).
    exists B', (evA ++ oA), (evB ++ oB). split; [reflexivity|].
    rewrite HA', HB', HcA, HcB. rewrite <- !app_assoc.
    split; [reflexivity|]. split; [reflexivity|]. split; [|exact Hrand].
    rewrite !random_outputs_app, HoA, HoB, Hout. reflexivity.
  - rewrite HrA, HrB. reflexivity.
  - rewrite HseA. reflexivity.
  - rewrite HseB. reflexivity.
  - rewrite HdbA, HdbB. exact Hdb.
  - rewrite HfkA, HfkB. exact Hfake.
  - apply Z.ltb_ge in Hlt. rewrite Z.gtb_ltb in Hgt. apply Z.ltb_ge in Hgt. lia.
  - exact Hlen.
Qed.

End Determinism.

(** ** Two runs on the small instance *)

Import Demo.

Lemma reseed_gives_two_run_determinism_witness :
  exists ls1 ls2 out1 out2,
    evalGenericCommand Demo.engine
      (eval_args ["EVAL"; "return math.random(10)"; "0"]%string) 0 [] 42
    = Some (Ok (str ":7" ++ CRLF), ls1)
    /\ evalGenericCommand ls1
         (eval_args ["EVAL"; "return math.random(10)"; "0"]%string) 0 (str "f_junk") 43
       = Some (Ok (str ":7" ++ CRLF), ls2)
    /\ calls ls1 = calls Demo.engine ++ CallSrand48 0 :: out1
    /\ calls ls2 = calls ls1 ++ CallSrand48 0 :: out2
    /\ random_outputs out1 = random_outputs out2
    /\ length (random_outputs out1) = 2%nat
    /\ _rand ls1 = _rand ls2.
Proof.
  set (sess := eval_args ["EVAL"; "return math.random(10)"; "0"]%string).
  set (ls1 := run_of (evalGenericCommand Demo.engine sess 0 [] 42) Demo.engine).
  assert (H1 : evalGenericCommand Demo.engine sess 0 [] 42
               = Some (Ok (str ":7" ++ CRLF), ls1)) by (vm_compute; reflexivity).
  assert (Hlen : Z.of_nat (length (sess_args sess)) - 3 <= INT_MAX)
    by (vm_compute; discriminate).
  assert (Hc : Demo.compile (funcdef_of (str "return math.random(10)"))
                 (str "@user_script") = inl (LFunction 4))
    by (vm_compute; reflexivity).
  assert (Hg : rawget (globals (_lua ls1))
                 (KString (str "f_" ++ sha1hex (str "return math.random(10)")))
               = LFunction 2)
    by (vm_compute; reflexivity).
  assert (Hdb : db Demo.engine = db ls1) by (vm_compute; reflexivity).
  assert (Hfake : synced_fake Demo.engine sess = synced_fake ls1 sess)
    by (vm_compute; reflexivity).
  destruct (reseed_gives_two_run_determinism (C := Demo.collaborators)
              Demo.compile Demo.sem Demo.engine ls1 ls1 sess
              (str "return math.random(10)") (LFunction 4) (LFunction 2)
              [] (str "f_junk") 42 43 (Ok (str ":7" ++ CRLF))
              eq_refl Hlen Hc eq_refl ltac:(discriminate) (fun _ _ => Logic.I)
              (or_introl eq_refl) (or_intror Hg) Hdb Hfake H1)
    as (ls2 & o1 & o2 & H2 & Hc1 & Hc2 & Ho & Hr).
  exists ls1, ls2, o1, o2.
  split; [exact H1|]. split; [exact H2|]. split; [exact Hc1|]. split; [exact Hc2|].
  split; [exact Ho|]. split; [|exact Hr].
  replace o1 with (tl (calls ls1)) by (rewrite Hc1; reflexivity).
  vm_compute. reflexivity.
Defined.

(** ** The command gateway *)

Section GatewayFacts.

Context {DB RedisRand : Type} {C : Collaborators DB RedisRand}
        {I : Interpreter DB RedisRand}.

Lemma luaPushError_eq (lua : lua_State) (error : bytes) :
  luaPushError lua error = Some (lua_push lua (error_table lua error)).
Proof.
  unfold luaPushError, error_table, error_text.
  cbn [level1 lua_newtable lua_pushstring lua_push with_stack].
  destruct (level1 lua) as [[source currentline]|];
    (erewrite lua_settable_3; [| reflexivity | reflexivity]);
    destruct lua; reflexivity.
Qed.

Lemma luaRaiseError_eq (lua : lua_State) (v : LuaValue) (s : list LuaValue) :
  stack lua = LTable [(KString (str "err"), v)] :: s ->
  luaRaiseError lua
  = Some (CRaise v, with_stack lua (v :: LTable [(KString (str "err"), v)] :: s)).
Proof.
  intros Hs. unfold luaRaiseError, lua_pushstring.
  erewrite lua_gettable_2;
    [| cbn [lua_push with_stack stack]; rewrite Hs; reflexivity | reflexivity].
  reflexivity.
Qed.

Lemma updateFakeClient_eq (ls ls' : LuaState DB RedisRand) :
  updateFakeClient ls = Some ls' ->
  exists fake, ls' = set_fakeSess ls (Some fake) /\ _sess ls <> None.
Proof.
  unfold updateFakeClient. intros H.
  destruct (_sess ls) as [sess|]; [|discriminate].
  injection H as <-. eexists. split; [reflexivity | discriminate].
Qed.

Lemma guard_exit_state (ls ls' : LuaState DB RedisRand) (raise_error : Z) (r : CResult) :
  guard_exit ls raise_error = Some (r, ls') ->
  exists lua, ls' = set_lua (set_inuse ls (inuse ls - 1)) lua.
Proof.
  unfold guard_exit. intros H.
  destruct (negb (raise_error =? 0)).
  - break_match_in H. injection H as _ <-. eexists. reflexivity.
  - injection H as _ <-. exists (_lua ls). destruct ls; reflexivity.
Qed.

Lemma early_exit_state (ls ls' : LuaState DB RedisRand) (raise_error : Z) (msg : bytes)
    (r : CResult) :
  early_exit ls raise_error msg = Some (r, ls') ->
  exists lua, ls' = set_lua (set_inuse ls (inuse ls - 1)) lua.
Proof.
  unfold early_exit. intros H.
  break_match_in H; injection H as _ <-; eexists; reflexivity.
Qed.

(** A rejection pushed by [luaPushError] and taken through the scope
    guard: raised with the message when [raise_error] is set, returned as
    the error table otherwise. *)
Lemma guard_exit_error (ls : LuaState DB RedisRand) (raise_error : Z) (lua : lua_State)
    (msg : bytes) :
  guard_exit (set_lua ls (lua_push lua (error_table lua msg))) raise_error
  = Some (if raise_error =? 0 then CReturn 1
          else CRaise (LString (error_text lua msg)),
          set_lua (set_inuse ls (inuse ls - 1))
            (if raise_error =? 0 then lua_push lua (error_table lua msg)
             else lua_push (lua_push lua (error_table lua msg))
                    (LString (error_text lua msg)))).
Proof.
  unfold guard_exit. destruct (raise_error =? 0); cbn [negb].
  - reflexivity.
  - cbn [_lua set_lua set_inuse]. unfold error_table.
    erewrite luaRaiseError_eq by reflexivity. reflexivity.
Qed.

End GatewayFacts.

Section GatewayProperties.

Context {DB RedisRand : Type} {C : Collaborators DB RedisRand}
        {I : Interpreter DB RedisRand}.

Ltac exits H :=
  first [ apply guard_exit_state in H; destruct H as (? & ->)
        | apply early_exit_state in H; destruct H as (? & ->)
        | injection H as _ <- ].

Lemma luaSortArray_raise (lua lua' : lua_State) (e : LuaValue) :
  luaSortArray lua = Some (Some e, lua') -> sort_retry_raises e.
Proof.
  unfold luaSortArray, sort_retry_raises. intros H.
  destruct (index2adr lua (-1)) as [a|]; [|discriminate].
  destruct (table_sort _ a) as [a1 [e1|]].
  - destruct (table_sort_compare_helper _ a1) as [a2 [e2|]] eqn:E2.
    + injection H as <- _. eexists _, _. rewrite E2. reflexivity.
    + break_match_in H; try discriminate H.
  - break_match_in H; try discriminate H.
Qed.

(** Every exit of the gateway leaves the busy flag as it found it, the
    raise out of the retry of the sort apart. *)
Lemma gateway_inuse (ls ls' : LuaState DB RedisRand) (raise_error : Z) (r : CResult) :
  luaRedisGenericCommand ls raise_error = Some (r, ls') ->
  inuse ls' = inuse ls
  \/ (has_flag (called_flags ls) CMD_SORT_FOR_SCRIPT = true
      /\ lua_replicate_commands ls = 0
      /\ exists e, r = CRaise e /\ sort_retry_raises e).
Proof.
  unfold called_flags, called_args, luaRedisGenericCommand. intros H.
  destruct (updateFakeClient ls) as [l0|] eqn:Hu; [|discriminate].
  apply updateFakeClient_eq in Hu. destruct Hu as (fake0 & -> & _).
  simpl_state.
  destruct (_sess ls) as [sess|]; [|discriminate].
  destruct (inuse ls =? 0) eqn:Hin; cbn [negb] in H.
  2:{ break_match_in H. injection H as _ <-. left. reflexivity. }
  apply Z.eqb_eq in Hin.
  break_match_in H;
    first [ match goal with
            | E : luaSortArray _ = Some (Some ?e, _), B : _ && _ && _ = true |- _ =>
                apply luaSortArray_raise in E; injection H as <- _;
                apply andb_true_iff in B; destruct B as [B _];
                apply andb_true_iff in B; destruct B as [B1 B2];
                simpl_state; apply Z.eqb_eq in B2;
                right; cbn [fst]; split; [exact B1|]; split; [exact B2|];
                exists e; split; [reflexivity | exact E]
            end
          | exits H; simpl_state; left; lia ].
Qed.









(** C4 (as the code has it): a call made while the busy flag is set is
    answered with the recursion diagnostic as an error table, returned and
    not raised whatever [raise_error] is, without any call to a
    collaborator; and every exit of the gateway leaves the busy flag with the
    value it had on entry, unless the call, of a command whose reply is
    sorted, is left by an error that the retry of the sort raises. *)
Theorem reentrancy_guard (ls : LuaState DB RedisRand) (raise_error : Z) :
  (inuse ls <> 0 -> _sess ls <> None ->
   exists ls',
     luaRedisGenericCommand ls raise_error = Some (CReturn 1, ls')
     /\ _lua ls' = lua_push (_lua ls) (error_table (_lua ls) recursion_warning)
     /\ calls ls' = calls ls /\ db ls' = db ls)
  /\ (forall r ls',
         luaRedisGenericCommand ls raise_error = Some (r, ls') ->
         inuse ls' = inuse ls
         \/ (has_flag (called_flags ls) CMD_SORT_FOR_SCRIPT = true
             /\ lua_replicate_commands ls = 0
             /\ exists e, r = CRaise e /\ sort_retry_raises e)).
Proof.
  split.
  - intros Hin Hs. unfold luaRedisGenericCommand, updateFakeClient.
    destruct (_sess ls) as [sess|] eqn:Es; [|contradiction].
    simpl_state. rewrite Es.
    replace (inuse ls =? 0) with false by (symmetry; apply Z.eqb_neq; exact Hin).
    cbn [negb]. rewrite luaPushError_eq.
    eexists. split; [reflexivity|]. simpl_state. repeat split.
  - intros r ls' H. eapply gateway_inuse; eassumption.
Qed.

End GatewayProperties.

(** ** The gateway on the small instance *)

Import Demo.


(** A call of [redis.call('get', 'k')] made while the busy flag is set, and
    the same call made with the flag clear. *)
Lemma reentrancy_guard_witness :
  let ls := Demo.running [LString (str "k"); LString (str "get")] 1 0 in
  let ls0 := Demo.running [LString (str "k"); LString (str "get")] 0 0 in
  (exists ls',
      luaRedisGenericCommand ls 1 = Some (CReturn 1, ls')
      /\ _lua ls' = lua_push (_lua ls) (error_table (_lua ls) recursion_warning)
      /\ calls ls' = calls ls /\ db ls' = db ls)
  /\ (inuse (run_of (luaRedisGenericCommand ls0 1) ls0) = inuse ls0
      \/ (has_flag (called_flags ls0) CMD_SORT_FOR_SCRIPT = true
          /\ lua_replicate_commands ls0 = 0
          /\ exists e, CReturn 1 = CRaise e /\ sort_retry_raises e)).
Proof.
  intros ls ls0. split.
  - apply (proj1 (reentrancy_guard (C := Demo.collaborators) (I := Demo.interpreter)
                    ls 1)).
    + vm_compute. discriminate.
    + vm_compute. discriminate.
  - apply (proj2 (reentrancy_guard (C := Demo.collaborators) (I := Demo.interpreter)
                    ls0 1)).
    vm_compute. reflexivity.
Defined.

(** C4 as stated fails: [redis.call] made while the busy flag is set returns
    the error table instead of raising, and the flag is still set afterwards;
    the same call made with the flag clear raises nothing and leaves it
    clear. *)
Lemma reentrancy_raise_counterexample :
  option_map (fun x => (fst x, inuse (snd x)))
    (luaRedisGenericCommand
       (Demo.running [LString (str "k"); LString (str "get")] 1 0) 1)
  = Some (CReturn 1, 1)
  /\ option_map (fun x => (fst x, inuse (snd x)))
       (luaRedisGenericCommand (Demo.running [] 0 0) 1)
     = Some (CRaise (LString (str "Please specify at least one argument for redis.call()")),
             0).
Proof. split; vm_compute; reflexivity. Qed.

(** The exit that the statement of the guard leaves out. [redis.pcall('keys')]
    on the small instance, whose reply is an array that is to be sorted
    and whose [table.sort] raises: the error of the retry leaves the gateway
    past the scope guard, raised although the call is a protected one, and
    the busy flag stays set, so that the next call is answered with the
    recursion diagnostic. *)
Lemma sort_retry_raise_skips_guard :
  let ls := Demo.running [LString (str "keys")] 0 0 in
  let ls' := run_of (luaRedisGenericCommand ls 0) ls in
  option_map fst (luaRedisGenericCommand ls 0)
  = Some (CRaise (LString (str "attempt to call a nil value")))
  /\ inuse ls' = 1
  /\ option_map (fun x => hd_error (stack (_lua (snd x))))
       (luaRedisGenericCommand (enter ls' [LString (str "k"); LString (str "get")]) 0)
     = Some (Some (error_table (_lua ls') recursion_warning)).
Proof. repeat split; vm_compute; reflexivity. Qed.

(** * Further properties of the code

    ** The reply translator *)

Lemma rawget_entries_hit_app (pre : list LuaValue) (v : LuaValue) (post : list LuaValue)
    (more : table) (a : Z) :
  0 < a -> a + Z.of_nat (length pre) < 2 ^ 53 ->
  rawget (entries_from a (pre ++ v :: post) ++ more)
    (KNumber (int_to_double (a + Z.of_nat (length pre)))) = v.
Proof.
  revert a. induction pre as [|x pre IH]; intros a Ha Hb.
  - cbn [app entries_from rawget key_eqb length] in *. rewrite Z.add_0_r.
    rewrite double_eqb_int, Z.eqb_refl by lia. reflexivity.
  - cbn [app entries_from rawget key_eqb length] in *.
    rewrite double_eqb_int by lia.
    replace (a =? a + Z.of_nat (S (length pre))) with false
      by (symmetry; apply Z.eqb_neq; lia).
    replace (a + Z.of_nat (S (length pre))) with (a + 1 + Z.of_nat (length pre)) by lia.
    apply IH; lia.
Qed.

Lemma rawget_entries_miss_app (vs : list LuaValue) (more : table) (a j : Z) :
  0 < a -> a + Z.of_nat (length vs) <= j < 2 ^ 53 ->
  rawget (entries_from a vs ++ more) (KNumber (int_to_double j))
  = rawget more (KNumber (int_to_double j)).
Proof.
  revert a. induction vs as [|x vs IH]; intros a Ha Hb; [reflexivity|].
  cbn [entries_from rawget key_eqb length app] in *.
  rewrite double_eqb_int by lia.
  replace (a =? j) with false by (symmetry; apply Z.eqb_neq; lia).
  apply IH; lia.
Qed.

Lemma rawget_entries_below (vs : list LuaValue) (a j : Z) :
  0 < j < a -> a + Z.of_nat (length vs) < 2 ^ 53 ->
  rawget (entries_from a vs) (KNumber (int_to_double j)) = LNil.
Proof.
  revert a. induction vs as [|x vs IH]; intros a Ha Hb; [reflexivity|].
  cbn [entries_from rawget key_eqb length] in *.
  rewrite double_eqb_int by lia.
  replace (a =? j) with false by (symmetry; apply Z.eqb_neq; lia).
  apply IH; lia.
Qed.

Lemma rawget_entries_string_app (vs ws : list LuaValue) (a b : Z) (s : bytes) :
  rawget (entries_from a vs ++ entries_from b ws) (KString s) = LNil.
Proof.
  revert a. induction vs as [|x vs IH]; intros a; cbn [entries_from app rawget key_eqb].
  - apply rawget_entries_string.
  - apply IH.
Qed.

(** The loop over the indices of any table that holds the values of [pre]
    and [post] at the indices from 1 and nothing at the next one. *)
Lemma reply_loop_table (rec : lua_State -> option (bytes * lua_State)) (t : table)
    (post : list Reply) :
  Forall (fun r => forall L s,
            rec (with_stack L (value_of r :: s)) = Some (reencode r, with_stack L s)) post ->
  forall (n : nat) (pre : list Reply) (rsp : bytes) (L : lua_State) (s : list LuaValue),
    (length post < n)%nat ->
    Z.of_nat (length (pre ++ post)) < 2 ^ 53 - 1 ->
    (forall p r q, pre ++ post = p ++ r :: q ->
                   rawget t (KNumber (int_to_double (1 + Z.of_nat (length p)))) = value_of r) ->
    rawget t (KNumber (int_to_double (1 + Z.of_nat (length (pre ++ post))))) = LNil ->
    reply_loop rec n (1 + Z.of_nat (length pre)) (Z.of_nat (length pre)) rsp
      (with_stack L (LTable t :: s))
    = Some (Z.of_nat (length (pre ++ post)), rsp ++ flat_map reencode post,
            with_stack L (LTable t :: s)).
Proof.
  induction 1 as [|r post Hr Hpost IH]; intros n pre rsp L s Hn Hb Hhit Hmiss;
    (destruct n as [|n]; [simpl in Hn; lia|]); cbn [reply_loop].
  - rewrite app_nil_r in *. cbn [flat_map]. rewrite app_nil_r.
    norm_stack.
    erewrite lua_gettable_2;
      [| reflexivity | apply int_to_double_not_nan; lia].
    rewrite Hmiss. norm_stack.
    erewrite lua_type_top by reflexivity. cbn [type_of lua_type_tag_eqb].
    erewrite lua_pop_1 by reflexivity. norm_stack. reflexivity.
  - norm_stack.
    erewrite lua_gettable_2;
      [| reflexivity | apply int_to_double_not_nan; rewrite length_app in Hb; lia].
    norm_stack.
    rewrite (Hhit pre r post eq_refl).
    erewrite lua_type_top by reflexivity. rewrite type_of_value_not_nil.
    rewrite Hr.
    specialize (IH n (pre ++ [r]) (rsp ++ reencode r) L s).
    rewrite <- app_assoc in IH. cbn [app] in IH.
    replace (1 + Z.of_nat (length pre) + 1) with (1 + Z.of_nat (length (pre ++ [r])))
      by (rewrite length_app; cbn [length]; lia).
    replace (Z.of_nat (length pre) + 1) with (Z.of_nat (length (pre ++ [r])))
      by (rewrite length_app; cbn [length]; lia).
    rewrite IH by (cbn [length] in Hn; lia || assumption).
    cbn [flat_map]. rewrite <- app_assoc. reflexivity.
Qed.

Lemma value_size_list_app (a b : table) :
  value_size_list value_size (a ++ b)
  = (value_size_list value_size a + value_size_list value_size b)%nat.
Proof.
  induction a as [|[k v] a IH]; [reflexivity|]. cbn [app value_size_list].
  rewrite IH. lia.
Qed.

(** X1: the decoder takes exactly one reply off a buffer: on the text of a
    well-formed reply followed by any bytes it pushes the value of that
    reply, and nothing else, and returns the pointer to the bytes that
    follow. *)
Theorem decode_takes_one_reply (r : Reply) (lua : lua_State) (rest : bytes) :
  wf r = true ->
  redisProtocolToLuaType lua (wire r ++ rest) = Some (lua_push lua (value_of r), rest).
Proof.
  intros Hwf. unfold redisProtocolToLuaType.
  apply decode_wire; [assumption|].
  pose proof (reply_size_le_wire r). rewrite length_app. lia.
Qed.

Lemma decode_takes_one_reply_witness :
  redisProtocolToLuaType (mkLua [] [] None None)
    (wire (RArray [RInteger 7; RBulk (str "a")]) ++ str ":8")
  = Some (lua_push (mkLua [] [] None None)
            (value_of (RArray [RInteger 7; RBulk (str "a")])), str ":8").
Proof.
  apply (decode_takes_one_reply (RArray [RInteger 7; RBulk (str "a")])).
  reflexivity.
Defined.

(** X2: an array table is encoded up to its first missing index: the
    entries that follow a gap are left out of the reply, which is the
    reply of the entries before the gap. *)
Theorem array_encoding_stops_at_gap (rs : list Reply) (vs : list LuaValue)
    (lua : lua_State) :
  forallb wf rs = true ->
  Z.of_nat (length rs) + 2 + Z.of_nat (length vs) < 2 ^ 53 ->
  luaReplyToRedisReply
    (lua_push lua
       (LTable (entries_from 1 (map value_of rs)
                ++ entries_from (Z.of_nat (length rs) + 2) vs)))
  = Some (fmtMultiBulkLen (Z.of_nat (length rs)) ++ flat_map reencode rs, lua).
Proof.
  intros Hwf Hb. unfold luaReplyToRedisReply.
  set (t := entries_from 1 (map value_of rs)
            ++ entries_from (Z.of_nat (length rs) + 2) vs).
  assert (Hstr : forall k, rawget t (KString k) = LNil)
    by (intros k; apply rawget_entries_string_app).
  assert (Hsz : value_size_list value_size t
                = (list_sum (map reply_size rs) + list_sum (map value_size vs))%nat).
  { unfold t. rewrite value_size_list_app, !value_size_entries, map_map.
    f_equal. f_equal. apply map_ext. intros r. apply reply_size_value_size. }
  change (stack (lua_push lua (LTable t))) with (LTable t :: stack lua).
  cbv beta iota. unfold lua_push.
  change (value_size (LTable t)) with (S (value_size_list value_size t)).
  remember (S (value_size_list value_size t)) as fuel eqn:Hfuel.
  cbn [luaReplyToRedisReply_fuel].
  erewrite lua_type_top by reflexivity. cbn [type_of].
  norm_stack.
  erewrite lua_gettable_2; [| reflexivity | reflexivity].
  rewrite Hstr. norm_stack.
  erewrite lua_type_top by reflexivity. cbn [type_of lua_type_tag_eqb].
  erewrite lua_pop_1 by reflexivity. norm_stack.
  erewrite lua_gettable_2; [| reflexivity | reflexivity].
  rewrite Hstr. norm_stack.
  erewrite lua_type_top by reflexivity. cbn [type_of lua_type_tag_eqb].
  erewrite lua_pop_1 by reflexivity. norm_stack.
  pose proof (list_sum_ge_length rs) as Hge.
  pose proof (reply_loop_table (luaReplyToRedisReply_fuel fuel) t rs) as Hloop.
  specialize (Hloop ltac:(
    rewrite Forall_forall; intros r Hin L' s';
    apply encode_value_of;
    [ rewrite forallb_forall in Hwf; apply Hwf; assumption
    | pose proof (reply_size_in r rs Hin); lia ])).
  specialize (Hloop fuel [] [] lua (stack lua) ltac:(lia) ltac:(cbn [app]; lia)).
  cbn [app length] in Hloop. change (Z.of_nat 0) with 0 in Hloop.
  change (1 + 0) with 1 in Hloop.
  rewrite Hloop.
  - erewrite lua_pop_1 by reflexivity. norm_stack. rewrite with_stack_same. reflexivity.
  - intros p r q E. unfold t. rewrite E, map_app. cbn [map].
    rewrite <- (length_map value_of p).
    apply rawget_entries_hit_app; [lia|].
    rewrite length_map. apply (f_equal (@length Reply)) in E.
    rewrite length_app in E. cbn [length] in E. lia.
  - unfold t. rewrite rawget_entries_miss_app by (try rewrite length_map; lia).
    apply rawget_entries_below; lia.
Qed.

Lemma array_encoding_stops_at_gap_witness :
  luaReplyToRedisReply
    (lua_push (mkLua [] [] None None)
       (LTable (entries_from 1 (map value_of [RBulk (str "a"); RInteger 2])
                ++ entries_from 4 [LString (str "lost")])))
  = Some (fmtMultiBulkLen 2 ++ flat_map reencode [RBulk (str "a"); RInteger 2],
          mkLua [] [] None None).
Proof.
  apply (array_encoding_stops_at_gap [RBulk (str "a"); RInteger 2] [LString (str "lost")]).
  - reflexivity.
  - reflexivity.
Defined.

(** X3: a value the decoder built is always encoded, and the encoder
    takes it alone: on the value of a well-formed reply on top of any
    stack it returns the text [reencode] gives for that reply, whatever is
    below, removes that value and leaves the rest of the interpreter state
    as it is. *)
Theorem encoder_consumes_decoded_value (r : Reply) (L : lua_State) (s : list LuaValue) :
  wf r = true ->
  stack L = value_of r :: s ->
  luaReplyToRedisReply L = Some (reencode r, with_stack L s).
Proof.
  intros Hwf Hs. destruct L as [st g l h]. cbn [stack] in Hs. subst st.
  exact (encode_top r (mkLua s g l h) Hwf).
Qed.

(** The value of [*2 :3 $-1] above a string. *)
Lemma encoder_consumes_decoded_value_witness :
  luaReplyToRedisReply
    (mkLua [value_of (RArray [RInteger 3; RNil]); LString (str "below")] [] None None)
  = Some (str "*2" ++ CRLF ++ str ":3" ++ CRLF ++ str "$-1" ++ CRLF,
          mkLua [LString (str "below")] [] None None).
Proof.
  apply (encoder_consumes_decoded_value (RArray [RInteger 3; RNil])
           (mkLua [value_of (RArray [RInteger 3; RNil]); LString (str "below")] []
              None None)
           [LString (str "below")]).
  - reflexivity.
  - reflexivity.
Defined.

(** ** The digest, the fake client and the generator *)

Section EngineExtras.

Context {DB RedisRand : Type} {C : Collaborators DB RedisRand}.

Lemma hex_digit_nibble (z : Z) : 0 <= z < 16 -> hex_digit (nth (Z.to_nat z) cset NUL) = true.
Proof.
  intros Hz. assert (Hn : (Z.to_nat z < 16)%nat) by lia.
  revert Hn. generalize (Z.to_nat z). intros n Hn.
  do 16 (destruct n as [|n]; [reflexivity|]). lia.
Qed.

Lemma cset_nibble_inj (a b : Z) :
  0 <= a < 16 -> 0 <= b < 16 ->
  nth (Z.to_nat a) cset NUL = nth (Z.to_nat b) cset NUL -> a = b.
Proof.
  intros Ha Hb H.
  assert (E : Z.to_nat a = Z.to_nat b).
  { assert (Hn : (Z.to_nat a < 16)%nat) by lia.
    assert (Hm : (Z.to_nat b < 16)%nat) by lia.
    revert Hn Hm H. generalize (Z.to_nat a) (Z.to_nat b). intros n m Hn Hm H.
    do 16 (destruct n as [|n];
           [do 16 (destruct m as [|m]; [reflexivity || discriminate H|]); lia|]).
    lia. }
  lia.
Qed.

Lemma byte_of_nibbles (h : Z) :
  0 <= h < 256 -> h = 16 * Z.shiftr (Z.land h 240) 4 + Z.land h 15.
Proof.
  intros Hh. rewrite Z.shiftr_land. change (Z.shiftr 240 4) with 15.
  change 15 with (Z.ones 4). rewrite !Z.land_ones by lia.
  rewrite Z.shiftr_div_pow2 by lia. change (2 ^ 4) with 16.
  rewrite (Z.mod_small (h / 16)) by (split; [apply Z.div_pos; lia | apply Z.div_lt_upper_bound; lia]).
  apply Z.div_mod. lia.
Qed.

Lemma sha1hex_of_hash (hash : list Z) (l : list nat) :
  forallb hex_digit
    (flat_map (fun j => let h := nth j hash 0 in
                        [nth (Z.to_nat (Z.shiftr (Z.land h 240) 4)) cset NUL;
                         nth (Z.to_nat (Z.land h 15)) cset NUL]) l) = true.
Proof.
  induction l as [|j l IH]; [reflexivity|]. cbn [flat_map app forallb].
  rewrite (hex_digit_nibble _ (high_nibble _)), (hex_digit_nibble _ (low_nibble _)).
  exact IH.
Qed.

(** X4: a digest is always 40 characters, each one of [0-9a-f], whatever
    the hash function returns, so that the name [f_<digest>] with its
    terminator fills the 43 bytes of [funcname] exactly. *)
Theorem sha1hex_is_40_hex_digits (script : bytes) :
  length (sha1hex script) = 40%nat
  /\ forallb hex_digit (sha1hex script) = true
  /\ length ("f"%char :: "_"%char :: sha1hex script ++ [NUL]) = 43%nat.
Proof.
  assert (Hlen : length (sha1hex script) = 40%nat) by reflexivity.
  split; [exact Hlen|]. split; [apply sha1hex_of_hash|].
  cbn [length]. rewrite length_app, Hlen. reflexivity.
Qed.

Lemma digest_pairs_inj (ha hb : list Z) (l : list nat) :
  (forall j, In j l -> is_byte (nth j ha 0) = true /\ is_byte (nth j hb 0) = true) ->
  flat_map (fun j => let h := nth j ha 0 in
                     [nth (Z.to_nat (Z.shiftr (Z.land h 240) 4)) cset NUL;
                      nth (Z.to_nat (Z.land h 15)) cset NUL]) l
  = flat_map (fun j => let h := nth j hb 0 in
                       [nth (Z.to_nat (Z.shiftr (Z.land h 240) 4)) cset NUL;
                        nth (Z.to_nat (Z.land h 15)) cset NUL]) l ->
  forall j, In j l -> nth j ha 0 = nth j hb 0.
Proof.
  induction l as [|k l IH]; intros Hb H j Hj; [destruct Hj|].
  cbn [flat_map app] in H. injection H as Hhi Hlo Hrest.
  destruct Hj as [<-|Hj].
  - destruct (Hb k (or_introl eq_refl)) as [Ba Bb].
    unfold is_byte in Ba, Bb. apply andb_true_iff in Ba, Bb.
    rewrite Z.leb_le, Z.ltb_lt in Ba, Bb.
    apply cset_nibble_inj in Hhi; [|apply high_nibble|apply high_nibble].
    apply cset_nibble_inj in Hlo; [|apply low_nibble|apply low_nibble].
    rewrite (byte_of_nibbles (nth k ha 0)), (byte_of_nibbles (nth k hb 0)) by lia.
    rewrite Hhi, Hlo. reflexivity.
  - apply IH; [intros i Hi; apply Hb; right; exact Hi | exact Hrest | exact Hj].
Qed.

(** X5: the digest loses nothing of the hash: two scripts whose 20-byte
    hashes differ get different digests, hence different function names. *)
Theorem sha1hex_injective_on_hashes (a b : bytes) :
  length (SHA1 a) = 20%nat -> length (SHA1 b) = 20%nat ->
  forallb is_byte (SHA1 a) = true -> forallb is_byte (SHA1 b) = true ->
  sha1hex a = sha1hex b -> SHA1 a = SHA1 b.
Proof.
  intros La Lb Ba Bb H. unfold sha1hex in H. cbv zeta in H.
  apply (nth_ext _ _ 0 0); [congruence|].
  intros j Hj. rewrite La in Hj.
  apply (digest_pairs_inj (SHA1 a) (SHA1 b) (seq 0 20)); [|exact H|apply in_seq; lia].
  intros i Hi. apply in_seq in Hi. rewrite forallb_forall in Ba, Bb.
  split; [apply Ba | apply Bb]; apply nth_In; lia.
Qed.

Lemma sync_fake_props (f sess : Session) :
  ctx_dbId (sync_fake f sess) = ctx_dbId sess
  /\ (ctx_authed sess = true -> ctx_authed (sync_fake f sess) = true)
  /\ (ctx_authed f = true -> ctx_authed (sync_fake f sess) = true)
  /\ sess_args (sync_fake f sess) = sess_args f
  /\ ctx_isInMulti (sync_fake f sess) = ctx_isInMulti f
  /\ ctx_flags (sync_fake f sess) = ctx_flags f
  /\ sess_inLua (sync_fake f sess) = sess_inLua f.
Proof.
  destruct f as [fa fau fdb fm ffl fil]. destruct sess as [sa sau sdb sm sfl sil].
  unfold sync_fake, setAuthed, setDbId.
  cbn [ctx_authed ctx_dbId sess_args ctx_isInMulti ctx_flags sess_inLua].
  destruct fau, sau; cbn [negb andb];
    cbn [ctx_authed ctx_dbId sess_args ctx_isInMulti ctx_flags sess_inLua];
    destruct (Z.eqb_spec fdb sdb) as [E|E]; cbn [negb];
    cbn [ctx_authed ctx_dbId sess_args ctx_isInMulti ctx_flags sess_inLua];
    repeat split; auto.
Qed.

Lemma sync_fake_idem (f sess : Session) :
  sync_fake (sync_fake f sess) sess = sync_fake f sess.
Proof.
  destruct (sync_fake_props f sess) as (Hdb & Hau & _).
  unfold sync_fake at 1. cbv zeta.
  replace (negb (ctx_authed (sync_fake f sess)) && ctx_authed sess) with false.
  - rewrite Hdb, Z.eqb_refl. reflexivity.
  - destruct (ctx_authed sess); [rewrite Hau by reflexivity; reflexivity|].
    rewrite andb_false_r. reflexivity.
Qed.

(** X6: [updateFakeClient] brings the fake client to the database of the
    invoking session and authenticates it when the session is
    authenticated; it never takes an authentication back, so a fake client
    authenticated once stays so for a later unauthenticated session; a
    fake client created here is marked as running in Lua; a second call
    changes nothing. *)
Theorem updateFakeClient_syncs (ls : LuaState DB RedisRand) (sess : Session) :
  _sess ls = Some sess ->
  exists fake,
    updateFakeClient ls = Some (set_fakeSess ls (Some fake))
    /\ ctx_dbId fake = ctx_dbId sess
    /\ (ctx_authed sess = true -> ctx_authed fake = true)
    /\ (forall old, _fakeSess ls = Some old ->
                    (ctx_authed old = true -> ctx_authed fake = true)
                    /\ sess_args fake = sess_args old
                    /\ ctx_isInMulti fake = ctx_isInMulti old
                    /\ ctx_flags fake = ctx_flags old
                    /\ sess_inLua fake = sess_inLua old)
    /\ (_fakeSess ls = None -> sess_inLua fake = true)
    /\ updateFakeClient (set_fakeSess ls (Some fake))
       = Some (set_fakeSess ls (Some fake)).
Proof.
  intros Hs.
  set (f0 := match _fakeSess ls with
             | None => setInLua (LocalSession (_svr ls)) true
             | Some f => f
             end).
  assert (Hu : forall X, _sess X = Some sess ->
                 updateFakeClient X
                 = Some (set_fakeSess X
                           (Some (sync_fake
                                    match _fakeSess X with
                                    | None => setInLua (LocalSession (_svr X)) true
                                    | Some f => f
                                    end sess)))).
  { intros X HX. unfold updateFakeClient. rewrite HX. reflexivity. }
  destruct (sync_fake_props f0 sess) as (Hdb & Hau & Hold & Ha & Hm & Hfl & Hil).
  exists (sync_fake f0 sess).
  split; [apply Hu; exact Hs|]. split; [exact Hdb|]. split; [exact Hau|].
  split; [|split].
  - intros old E. unfold f0 in *. rewrite E in *. auto.
  - intros E. unfold f0 in *. rewrite E in *. rewrite Hil. reflexivity.
  - rewrite Hu by exact Hs. cbn [_fakeSess set_fakeSess]. rewrite sync_fake_idem.
    reflexivity.
Qed.

Lemma luaL_checkint_raise (L L' : lua_State) (n : Z) (e : LuaValue) :
  luaL_checkint L n = inl (e, L') ->
  exists m, L' = lua_push (lua_push L (LString m)) e.
Proof.
  unfold luaL_checkint, lua_raise, lua_pushstring. intros H.
  break_match_in H; injection H as <- <-; eexists; reflexivity.
Qed.

(** X7: every call of [math.random] draws from the generator once, also a
    call that fails on its arguments; a successful call pushes one number
    and nothing else; a failing one pushes no number: it leaves the error
    it raises on top of its arguments, above the text of the type error
    when it is one, and the rest of the interpreter state as it was. *)
Theorem math_random_always_draws (ls : LuaState DB RedisRand) :
  _rand (snd (redis_math_random ls)) = snd (redisLrand48 (_rand ls))
  /\ match fst (redis_math_random ls) with
     | CReturn n =>
         n = 1
         /\ exists d, _lua (snd (redis_math_random ls)) = lua_pushnumber (_lua ls) d
                      /\ calls (snd (redis_math_random ls))
                         = calls ls ++ [CallLrand48; RandomOutput (LNumber d)]
     | CRaise e =>
         (_lua (snd (redis_math_random ls)) = lua_push (_lua ls) e
          \/ exists m, _lua (snd (redis_math_random ls))
                       = lua_push (lua_push (_lua ls) (LString m)) e)
         /\ calls (snd (redis_math_random ls)) = calls ls ++ [CallLrand48]
     end.
Proof.
  unfold redis_math_random, random_return, leave_raising, lua_raise.
  destruct (redisLrand48 (_rand ls)) as [x rnd]. cbn [snd].
  repeat match goal with
         | |- context [if Z.eqb ?a ?b then _ else _] => destruct (Z.eqb a b)
         | |- context [if negb ?b then _ else _] => destruct b; cbn [negb]
         | |- context [match luaL_checkint ?l ?n with _ => _ end] =>
             let E := fresh "E" in
             destruct (luaL_checkint l n) as [[? ?]|?] eqn:E;
             [apply luaL_checkint_raise in E; destruct E as (? & ->)|]
         end;
    cbn [fst snd]; simpl_state; (split; [reflexivity|]);
    first [ split; [left; reflexivity | reflexivity]
          | split; [right; eexists; reflexivity | reflexivity]
          | split; [reflexivity|];
            eexists; split; [reflexivity | rewrite <- app_assoc; reflexivity] ].
Qed.

(** X8: [math.random] raises, having drawn from the generator, when it
    gets more than two arguments ("wrong number of arguments"), one number
    below 1, or two numbers of which the first is the larger ("interval is
    empty", for the last argument); the message raised is pushed on top of
    the arguments, and no number is. *)
Theorem math_random_rejects (ls : LuaState DB RedisRand) (u l : lua_Number) :
  let top := lua_gettop (_lua ls) in
  let int (d : lua_Number) := static_cast_int (double_to_int64 d) in
  let e := if 2 <? top then luaL_error (str "wrong number of arguments")
           else luaL_argerror top (str "interval is empty") in
  2 < top
  \/ (stack (_lua ls) = [LNumber u] /\ int u < 1)
  \/ (stack (_lua ls) = [LNumber u; LNumber l] /\ int u < int l) ->
  redis_math_random ls
  = (CRaise e,
     set_lua (set_rand (log ls CallLrand48) (snd (redisLrand48 (_rand ls))))
       (lua_push (_lua ls) e)).
Proof.
  intros top int e H. unfold e, redis_math_random, leave_raising, lua_raise.
  destruct (redisLrand48 (_rand ls)) as [x rnd]. cbn [fst snd]. fold top.
  destruct H as [H|[[Hs H]|[Hs H]]].
  - replace (top =? 0) with false by (symmetry; apply Z.eqb_neq; lia).
    replace (top =? 1) with false by (symmetry; apply Z.eqb_neq; lia).
    replace (top =? 2) with false by (symmetry; apply Z.eqb_neq; lia).
    replace (2 <? top) with true by (symmetry; apply Z.ltb_lt; lia).
    reflexivity.
  - assert (Ht : top = 1) by (unfold top, lua_gettop; rewrite Hs; reflexivity).
    assert (E1 : index2adr (_lua ls) 1 = Some (LNumber u))
      by (unfold index2adr, index_pos; rewrite Hs; reflexivity).
    rewrite Ht. unfold luaL_checkint. rewrite E1.
    change (1 =? 0) with false. change (1 =? 1) with true. change (2 <? 1) with false.
    cbv iota. fold (int u).
    replace (1 <=? int u) with false by (symmetry; apply Z.leb_gt; lia).
    reflexivity.
  - assert (Ht : top = 2) by (unfold top, lua_gettop; rewrite Hs; reflexivity).
    assert (E1 : index2adr (_lua ls) 1 = Some (LNumber l))
      by (unfold index2adr, index_pos; rewrite Hs; reflexivity).
    assert (E2 : index2adr (_lua ls) 2 = Some (LNumber u))
      by (unfold index2adr, index_pos; rewrite Hs; reflexivity).
    rewrite Ht. unfold luaL_checkint. rewrite E1, E2.
    change (2 =? 0) with false. change (2 =? 1) with false. change (2 =? 2) with true.
    change (2 <? 2) with false. cbv iota. fold (int u). fold (int l).
    replace (int l <=? int u) with false by (symmetry; apply Z.leb_gt; lia).
    reflexivity.
Qed.

End EngineExtras.

Import Demo.

Lemma updateFakeClient_syncs_witness :
  exists fake,
    updateFakeClient (Demo.running [] 0 0) = Some (set_fakeSess (Demo.running [] 0 0) (Some fake))
    /\ ctx_dbId fake = 0 /\ ctx_authed fake = true /\ sess_inLua fake = true.
Proof.
  destruct (updateFakeClient_syncs (C := Demo.collaborators) (Demo.running [] 0 0)
              (Demo.client []) eq_refl)
    as (fake & H & Hdb & Hau & _ & Hin & _).
  exists fake. split; [exact H|]. split; [exact Hdb|].
  split; [apply Hau; reflexivity | apply Hin; reflexivity].
Defined.


Lemma sha1hex_injective_on_hashes_witness :
  SHA1 (str "a") = SHA1 (str "b").
Proof.
  apply (sha1hex_injective_on_hashes (C := Demo.collaborators) (str "a") (str "b"));
    reflexivity.
Defined.

(** [math.random(0)]. *)
Lemma math_random_rejects_witness :
  redis_math_random (Demo.running [LNumber (int_to_double 0)] 0 0)
  = (CRaise (LString (str "interval is empty")),
     set_lua
       (set_rand (log (Demo.running [LNumber (int_to_double 0)] 0 0) CallLrand48) 12345)
       (mkLua [LString (str "interval is empty"); LNumber (int_to_double 0)] []
          None None)).
Proof.
  apply (math_random_rejects (C := Demo.collaborators)
           (Demo.running [LNumber (int_to_double 0)] 0 0)
           (int_to_double 0) (int_to_double 0)).
  right. left. split; [reflexivity | vm_compute; reflexivity].
Defined.

(** ** The command gateway: its errors and its answers *)

Section GatewayExtras.

Context {DB RedisRand : Type} {C : Collaborators DB RedisRand}
        {I : Interpreter DB RedisRand}.

(** An error pushed and taken through one of the early exits. *)
Lemma early_exit_error (ls : LuaState DB RedisRand) (raise_error : Z) (msg : bytes) :
  early_exit ls raise_error msg
  = Some (if raise_error =? 0 then CReturn 1
          else CRaise (LString (error_text (_lua ls) msg)),
          set_lua (set_inuse ls (inuse ls - 1))
            (if raise_error =? 0 then lua_push (_lua ls) (error_table (_lua ls) msg)
             else lua_push (lua_push (_lua ls) (error_table (_lua ls) msg))
                    (LString (error_text (_lua ls) msg)))).
Proof.
  unfold early_exit. rewrite luaPushError_eq. cbv beta iota zeta.
  destruct (raise_error =? 0); cbn [negb].
  - destruct ls; reflexivity.
  - cbn [_lua set_lua set_inuse]. unfold error_table.
    erewrite luaRaiseError_eq by reflexivity. destruct ls; reflexivity.
Qed.

Lemma same_env_refl (L : lua_State) : same_env L L.
Proof. repeat split. Qed.

Lemma same_env_trans (L1 L2 L3 : lua_State) :
  same_env L1 L2 -> same_env L2 L3 -> same_env L1 L3.
Proof. unfold same_env. intros (A & B & D) (A' & B' & D'). repeat split; congruence. Qed.

Lemma lua_pop_env (L L' : lua_State) (n : nat) : lua_pop L n = Some L' -> same_env L L'.
Proof.
  unfold lua_pop. intros H. destruct (n <=? length (stack L))%nat; [|discriminate].
  injection H as <-. repeat split.
Qed.

Lemma lua_settable_env (L L' : lua_State) (idx : Z) :
  lua_settable L idx = Some L' -> same_env L L'.
Proof.
  unfold lua_settable. intros H. break_match_in H.
  apply lua_pop_env in H. destruct H as (A & B & D). repeat split; assumption.
Qed.

Lemma lua_gettable_env (L L' : lua_State) (idx : Z) :
  lua_gettable L idx = Some L' -> same_env L L'.
Proof.
  unfold lua_gettable. intros H. break_match_in H; injection H as <-; repeat split.
Qed.

Ltac env_close :=
  repeat match goal with
         | H : lua_settable _ _ = Some _ |- _ => apply lua_settable_env in H
         | H : lua_gettable _ _ = Some _ |- _ => apply lua_gettable_env in H
         | H : lua_pop _ _ = Some _ |- _ => apply lua_pop_env in H
         end;
  unfold same_env, lua_newtable, lua_pushstring, lua_pushlstring, lua_pushnumber,
    lua_pushboolean, lua_push in *;
  cbn [globals level1 hook with_stack] in *;
  repeat match goal with
         | H : _ /\ _ |- _ => destruct H
         end;
  repeat split; congruence.

Lemma multibulk_loop_env (rec : lua_State -> bytes -> option (lua_State * bytes)) :
  (forall L p L' rest, rec L p = Some (L', rest) -> same_env L L') ->
  forall (n : nat) (j m : Z) (L : lua_State) (p : bytes) (L' : lua_State) (rest : bytes),
    multibulk_loop rec n j m L p = Some (L', rest) -> same_env L L'.
Proof.
  intros Hrec. induction n as [|n IH]; intros j m L p L' rest H; cbn [multibulk_loop] in H.
  - destruct (j <? m); [discriminate|]. injection H as <- _. apply same_env_refl.
  - destruct (j <? m); [|injection H as <- _; apply same_env_refl].
    destruct (rec _ p) as [[L1 p1]|] eqn:E1; [|discriminate].
    destruct (lua_settable L1 (-3)) as [L2|] eqn:E2; [|discriminate].
    apply Hrec in E1. apply IH in H. env_close.
Qed.

(** The decoder works on the stack alone, whatever the buffer holds. *)
Lemma decode_env (fuel : nat) :
  forall (L : lua_State) (reply : bytes) (L' : lua_State) (rest : bytes),
    redisProtocolToLuaType_fuel fuel L reply = Some (L', rest) -> same_env L L'.
Proof.
  induction fuel as [|fuel IH]; intros L reply L' rest H; [discriminate|].
  cbn [redisProtocolToLuaType_fuel] in H.
  destruct reply as [|c reply]; [injection H as <- _; apply same_env_refl|].
  destruct (Ascii.eqb c ":").
  { unfold redisProtocolToLuaType_Int in H. break_match_in H.
    injection H as <- _. env_close. }
  destruct (Ascii.eqb c "$").
  { unfold redisProtocolToLuaType_Bulk in H. break_match_in H;
      injection H as <- _; env_close. }
  destruct (Ascii.eqb c "+").
  { unfold redisProtocolToLuaType_Status in H. break_match_in H.
    injection H as <- _. env_close. }
  destruct (Ascii.eqb c "-").
  { unfold redisProtocolToLuaType_Error in H. break_match_in H.
    injection H as <- _. env_close. }
  destruct (Ascii.eqb c "*"); [|injection H as <- _; apply same_env_refl].
  unfold redisProtocolToLuaType_MultiBulk in H.
  destruct (strchr _ CR) as [[line p]|]; [|discriminate].
  destruct (string2ll line) as [m|]; [|discriminate].
  destruct (advance p 2) as [p'|]; [|discriminate].
  destruct (m =? -1); [injection H as <- _; env_close|].
  apply (multibulk_loop_env _ IH) in H. env_close.
Qed.

Lemma luaRaiseError_env (L L' : lua_State) (r : CResult) :
  luaRaiseError L = Some (r, L') -> same_env L L'.
Proof.
  unfold luaRaiseError. intros H. break_match_in H. injection H as _ <-. env_close.
Qed.

Lemma luaPushError_env (L L' : lua_State) (msg : bytes) :
  luaPushError L msg = Some L' -> same_env L L'.
Proof. rewrite luaPushError_eq. intros H. injection H as <-. repeat split. Qed.

Lemma guard_exit_env (ls ls' : LuaState DB RedisRand) (raise_error : Z) (r : CResult) :
  guard_exit ls raise_error = Some (r, ls') ->
  exists lua, ls' = set_lua (set_inuse ls (inuse ls - 1)) lua /\ same_env (_lua ls) lua.
Proof.
  unfold guard_exit. intros H.
  destruct (negb (raise_error =? 0)).
  - destruct (luaRaiseError _) as [[r0 lua]|] eqn:E; [|discriminate].
    injection H as _ <-. apply luaRaiseError_env in E. simpl_state.
    eexists. split; [reflexivity | exact E].
  - injection H as _ <-. exists (_lua ls). split; [destruct ls; reflexivity|].
    apply same_env_refl.
Qed.

Lemma early_exit_env (ls ls' : LuaState DB RedisRand) (raise_error : Z) (msg : bytes)
    (r : CResult) :
  early_exit ls raise_error msg = Some (r, ls') ->
  exists lua, ls' = set_lua (set_inuse ls (inuse ls - 1)) lua /\ same_env (_lua ls) lua.
Proof.
  rewrite early_exit_error. intros H. injection H as _ <-.
  eexists. split; [reflexivity|]. destruct (raise_error =? 0); repeat split.
Qed.

Ltac exits_env H :=
  first [ apply guard_exit_env in H; destruct H as (? & -> & ?)
        | apply early_exit_env in H; destruct H as (? & -> & ?)
        | injection H as _ <- ].

(** X12: a gateway call for a command that is not flagged for sorting
    works on the stack, the store, the fake client and its own flags only:
    whatever path it takes, the global variables, the count hook, the
    deterministic generator, the invoking session, the start time and the
    timeout flag of the run are as before. *)
Theorem gateway_keeps_environment (ls ls' : LuaState DB RedisRand) (raise_error : Z)
    (r : CResult) :
  has_flag (called_flags ls) CMD_SORT_FOR_SCRIPT = false ->
  luaRedisGenericCommand ls raise_error = Some (r, ls') ->
  same_env (_lua ls) (_lua ls')
  /\ _rand ls' = _rand ls /\ _sess ls' = _sess ls /\ _svr ls' = _svr ls
  /\ lua_time_start ls' = lua_time_start ls /\ lua_timedout ls' = lua_timedout ls.
Proof.
  unfold called_flags, called_args, luaRedisGenericCommand. intros Hsort H.
  destruct (updateFakeClient ls) as [l0|] eqn:Hu; [|discriminate].
  apply updateFakeClient_eq in Hu. destruct Hu as (fake0 & -> & _).
  simpl_state.
  destruct (collect_args _ _ 0 []) as [args j] eqn:Hc. cbn [fst] in Hsort.
  rewrite Hsort in H. cbn [andb] in H.
  break_match_in H; exits_env H; simpl_state;
    repeat match goal with
           | E : luaPushError _ _ = Some _ |- _ => apply luaPushError_env in E
           | E : redisProtocolToLuaType _ _ = Some _ |- _ => apply decode_env in E
           end;
    simpl_state;
    (split; [|repeat split]);
    repeat match goal with
           | E1 : same_env ?a ?b, E2 : same_env ?b ?c |- _ =>
               pose proof (same_env_trans _ _ _ E1 E2); clear E2
           end;
    first [ assumption | apply same_env_refl ].
Qed.

(** X9: a gateway call without arguments is answered with "Please specify
    at least one argument for redis.call()" (also under [redis.pcall]),
    raised by [redis.call] and returned as an error table by
    [redis.pcall]; no command is looked up or run, and the busy flag is
    clear again. *)
Theorem gateway_no_arguments (ls : LuaState DB RedisRand) (raise_error : Z) :
  _sess ls <> None -> inuse ls = 0 -> stack (_lua ls) = [] ->
  let msg := str "Please specify at least one argument for redis.call()" in
  exists ls',
    luaRedisGenericCommand ls raise_error
    = Some (if raise_error =? 0 then CReturn 1
            else CRaise (LString (error_text (_lua ls) msg)), ls')
    /\ stack (_lua ls')
       = (if raise_error =? 0 then [error_table (_lua ls) msg]
          else [LString (error_text (_lua ls) msg); error_table (_lua ls) msg])
    /\ calls ls' = calls ls /\ db ls' = db ls /\ inuse ls' = 0.
Proof.
  intros Hs Hin Hst msg. unfold luaRedisGenericCommand, updateFakeClient.
  destruct (_sess ls) as [sess|] eqn:Es; [|contradiction].
  simpl_state. rewrite Es, Hin. cbn [Z.eqb negb].
  unfold lua_gettop. rewrite Hst. cbn [length Z.of_nat Z.eqb].
  rewrite early_exit_error. fold msg. simpl_state.
  eexists. split; [reflexivity|]. simpl_state.
  split; [|repeat split; rewrite ?Hin; reflexivity].
  destruct (raise_error =? 0); cbn [lua_push with_stack stack]; rewrite Hst; reflexivity.
Qed.

Lemma wire_head (r : Reply) :
  match wire r with
  | c :: _ => Ascii.eqb c "-" = is_error_reply r
  | [] => False
  end.
Proof. destruct r; reflexivity. Qed.

Lemma index2adr_bottom (lua : lua_State) (pre : list LuaValue) (v : LuaValue)
    (post : list LuaValue) :
  rev (stack lua) = pre ++ v :: post ->
  index2adr lua (Z.of_nat (length pre) + 1) = Some v.
Proof.
  intros H. apply (f_equal (@rev LuaValue)) in H. rewrite rev_involutive in H.
  rewrite rev_app_distr in H. cbn [rev] in H. rewrite <- app_assoc in H. cbn [app] in H.
  unfold index2adr, index_pos. rewrite H.
  rewrite !length_app. cbn [length]. rewrite !length_rev.
  replace (Z.of_nat (length pre) + 1 <? 0) with false by (symmetry; apply Z.ltb_ge; lia).
  replace (0 <? Z.of_nat (length pre) + 1) with true by (symmetry; apply Z.ltb_lt; lia).
  replace (Z.of_nat (length pre) + 1 <=? Z.of_nat (length post + S (length pre)))
    with true by (symmetry; apply Z.leb_le; lia).
  cbn [andb].
  replace (Z.to_nat (Z.of_nat (length post + S (length pre)) - (Z.of_nat (length pre) + 1)))
    with (length (rev post)) by (rewrite length_rev; lia).
  rewrite nth_error_app2 by lia. rewrite Nat.sub_diag. reflexivity.
Qed.

(** The argument loop stops at the first value that is neither a number
    nor a string. *)
Lemma collect_args_stops (lua : lua_State) (good : list LuaValue) (bad : LuaValue)
    (more : list LuaValue) :
  forallb arg_ok good = true -> arg_ok bad = false ->
  forall (done : list LuaValue) (n : nat) (acc : list bytes),
    rev (stack lua) = done ++ good ++ bad :: more ->
    (length good < n)%nat ->
    snd (collect_args lua n (Z.of_nat (length done)) acc)
    = Z.of_nat (length done + length good).
Proof.
  intros Hgood Hbad. induction good as [|g good IH]; intros done n acc Hst Hn.
  - destruct n as [|n]; [cbn [length] in Hn; lia|]. cbn [collect_args app length] in *.
    unfold lua_type, lua_tolstring. rewrite (index2adr_bottom lua done bad more Hst).
    rewrite Nat.add_0_r. destruct bad; try discriminate Hbad; reflexivity.
  - destruct n as [|n]; [cbn [length] in Hn; lia|]. cbn [collect_args app length] in *.
    cbn [forallb] in Hgood. apply andb_true_iff in Hgood. destruct Hgood as [Hg Hgood].
    unfold lua_type, lua_tolstring.
    rewrite (index2adr_bottom lua done g (good ++ bad :: more) Hst).
    specialize (IH Hgood (done ++ [g]) n).
    rewrite length_app in IH. cbn [length] in IH.
    replace (Z.of_nat (length done + 1)) with (Z.of_nat (length done) + 1) in IH by lia.
    destruct g; try discriminate Hg; cbn [type_of lua_type_tag_eqb];
      rewrite IH by (rewrite <- ?app_assoc; cbn [app]; assumption || lia);
      f_equal; lia.
Qed.

Lemma collect_args_all (lua : lua_State) (good : list LuaValue) :
  forallb arg_ok good = true ->
  forall (done : list LuaValue) (acc : list bytes),
    rev (stack lua) = done ++ good ->
    collect_args lua (length good) (Z.of_nat (length done)) acc
    = (acc ++ map arg_bytes good, Z.of_nat (length done + length good)).
Proof.
  intros Hgood. induction good as [|g good IH]; intros done acc Hst.
  - cbn [collect_args length map]. rewrite app_nil_r, Nat.add_0_r. reflexivity.
  - cbn [collect_args length map].
    cbn [forallb] in Hgood. apply andb_true_iff in Hgood. destruct Hgood as [Hg Hgood].
    unfold lua_type, lua_tolstring, lua_tonumber.
    rewrite (index2adr_bottom lua done g good Hst).
    specialize (IH Hgood (done ++ [g])).
    rewrite length_app in IH. cbn [length] in IH.
    replace (Z.of_nat (length done + 1)) with (Z.of_nat (length done) + 1) in IH by lia.
    destruct g; try discriminate Hg; cbn [type_of lua_type_tag_eqb arg_bytes];
      rewrite IH by (rewrite <- app_assoc; exact Hst);
      rewrite <- app_assoc; f_equal; f_equal; lia.
Qed.

(** X13: a gateway call one of whose arguments is neither a string nor a
    number (nil, a boolean, a table, a function) is answered with "Lua
    redis() command arguments must be strings or integers", raised by
    [redis.call] and returned as an error table by [redis.pcall]; no
    command is looked up or run, and the busy flag is clear again. *)
Theorem gateway_bad_argument (ls : LuaState DB RedisRand) (raise_error : Z)
    (good : list LuaValue) (bad : LuaValue) (more : list LuaValue) :
  _sess ls <> None -> inuse ls = 0 ->
  rev (stack (_lua ls)) = good ++ bad :: more ->
  forallb arg_ok good = true -> arg_ok bad = false ->
  let msg := str "Lua redis() command arguments must be strings or integers" in
  exists ls',
    luaRedisGenericCommand ls raise_error
    = Some (if raise_error =? 0 then CReturn 1
            else CRaise (LString (error_text (_lua ls) msg)), ls')
    /\ nth_error (stack (_lua ls')) (if raise_error =? 0 then 0%nat else 1%nat)
       = Some (error_table (_lua ls) msg)
    /\ calls ls' = calls ls /\ db ls' = db ls /\ inuse ls' = 0.
Proof.
  intros Hs Hin Hst Hgood Hbad msg. unfold luaRedisGenericCommand, updateFakeClient.
  destruct (_sess ls) as [sess|] eqn:Es; [|contradiction].
  simpl_state. rewrite Es, Hin. cbn [Z.eqb negb].
  assert (Hlen : lua_gettop (_lua ls) = Z.of_nat (length good + S (length more))).
  { unfold lua_gettop. rewrite <- (length_rev (stack (_lua ls))), Hst, length_app.
    reflexivity. }
  rewrite Hlen.
  replace (Z.of_nat (length good + S (length more)) =? 0) with false
    by (symmetry; apply Z.eqb_neq; lia).
  pose proof (collect_args_stops (_lua ls) good bad more Hgood Hbad []
                (Z.to_nat (Z.of_nat (length good + S (length more)))) [] Hst
                ltac:(lia)) as Hc.
  cbn [length Z.of_nat Nat.add] in Hc.
  destruct (collect_args _ _ 0 []) as [args j]. cbn [snd] in Hc. subst j.
  replace (Z.of_nat (length good) =? Z.of_nat (length good + S (length more)))
    with false by (symmetry; apply Z.eqb_neq; lia).
  cbn [negb]. rewrite early_exit_error. fold msg. simpl_state.
  eexists. split; [reflexivity|]. simpl_state.
  split; [destruct (raise_error =? 0); reflexivity|].
  repeat split; rewrite ?Hin; reflexivity.
Qed.

(** From the entry of a call that reaches the lookup of the command to
    that lookup. *)
Ltac to_lookup ls Hlook sess Es args Hc :=
  let Hin := fresh "Hin" in
  let Hargc := fresh "Hargc" in
  let Hj := fresh "Hj" in
  let s0 := fresh "s0" in
  let Hs0 := fresh "Hs0" in
  let Hpre := fresh "Hpre" in
  destruct Hlook as (Hin & Hargc & Hj & s0 & Hs0 & Hpre);
  unfold executed_session, prechecked_session, called_flags, called_args in *;
  unfold luaRedisGenericCommand;
  destruct (_sess ls) as [sess|] eqn:Es; [|discriminate Hs0];
  rewrite (updateFakeClient_synced ls ls sess Es eq_refl eq_refl);
  simpl_state; rewrite Es, Hin; cbn [Z.eqb negb];
  replace (lua_gettop (_lua ls) =? 0) with false
    by (symmetry; apply Z.eqb_neq; exact Hargc);
  destruct (collect_args _ _ 0 []) as [args ?j] eqn:Hc; cbn [fst snd] in *;
  rewrite Hj, Z.eqb_refl; cbn [negb];
  injection Hs0 as <-;
  destruct (Command_precheck _); [|discriminate Hpre].

(** X10: a command flagged [CMD_NOSCRIPT] is never run from a script: the
    call is answered with "This Redis command is not allowed from
    scripts", raised by [redis.call] and returned as an error table by
    [redis.pcall], after the precheck of the session the call is made with
    and without any call of the command executor; the store is as it
    was. *)
Theorem gateway_noscript_rejected (ls : LuaState DB RedisRand) (raise_error : Z) :
  reaches_lookup ls ->
  has_flag (called_flags ls) CMD_NOSCRIPT = true ->
  let msg := str "This Redis command is not allowed from scripts" in
  exists ls',
    luaRedisGenericCommand ls raise_error
    = Some (if raise_error =? 0 then CReturn 1
            else CRaise (LString (error_text (_lua ls) msg)), ls')
    /\ nth_error (stack (_lua ls')) (if raise_error =? 0 then 0%nat else 1%nat)
       = Some (error_table (_lua ls) msg)
    /\ calls ls' = calls ls ++ [CallPrecheck (called_args ls)]
    /\ db ls' = db ls /\ inuse ls' = 0.
Proof.
  intros Hlook Hns msg. to_lookup ls Hlook sess Es args Hc.
  rewrite Hns. simpl_state.
  rewrite luaPushError_eq, guard_exit_error. fold msg.
  eexists. split; [reflexivity|]. simpl_state.
  split; [destruct (raise_error =? 0); reflexivity|].
  repeat split.
Qed.

(** X11: the answer of a command that is run. When the command executor,
    on the session the gateway hands it, answers with a well-formed reply
    [r], and no sorting is asked for, the call leaves the value of [r] on
    the stack and returns it, under [redis.pcall] always and under
    [redis.call] when [r] is not an error reply; [redis.call] raises the
    message of an error reply. The store is the one the command left, the
    fake client is the session that was run, and precheck and execution
    are the only calls made. *)
Theorem gateway_answers (ls : LuaState DB RedisRand) (raise_error : Z) (r : Reply)
    (db' : DB) (s : Session) :
  reaches_lookup ls ->
  has_flag (called_flags ls) CMD_NOSCRIPT = false ->
  (has_flag (called_flags ls) CMD_WRITE = true ->
   lua_random_dirty ls = 0 \/ lua_replicate_commands ls <> 0) ->
  has_flag (called_flags ls) CMD_SORT_FOR_SCRIPT = false ->
  executed_session ls = Some s ->
  Command_runSessionCmd (db ls) s = (db', Ok (wire r)) ->
  wf r = true ->
  let raised := is_error_reply r && negb (raise_error =? 0) in
  exists ls',
    luaRedisGenericCommand ls raise_error
    = Some (if raised
            then CRaise (match r with RError line => LString line | _ => LNil end)
            else CReturn 1, ls')
    /\ stack (_lua ls')
       = (if raised
          then match r with RError line => [LString line] | _ => [] end
          else [])
         ++ value_of r :: stack (_lua ls)
    /\ calls ls'
       = calls ls ++ [CallPrecheck (called_args ls); CallRunSessionCmd (called_args ls)]
    /\ db ls' = db' /\ _fakeSess ls' = Some s /\ inuse ls' = 0.
Proof.
  intros Hlook Hns Hgate Hsort Hs Hrun Hwf raised.
  to_lookup ls Hlook sess Es args Hc.
  rewrite Hns, Hsort. cbn [andb].
  replace (has_flag (command_flags (toLower (hd [] args))) CMD_WRITE
           && negb (lua_random_dirty ls =? 0) && (lua_replicate_commands ls =? 0))
    with false.
  2:{ symmetry. destruct (has_flag _ CMD_WRITE); [|reflexivity].
      destruct (Hgate eq_refl) as [E|E].
      - rewrite E. reflexivity.
      - apply Z.eqb_neq in E. rewrite E. apply andb_false_r. }
  pose proof (wire_head r) as Hh.
  destruct (has_flag _ CMD_RANDOM); destruct (has_flag _ CMD_WRITE); simpl_state;
    destruct (isClusterEnabled (_svr ls) && isRunning (_svr ls) && (ctx_flags sess =? 0));
    simpl_state;
    match type of Hs with
    | Some ?x = Some _ =>
        assert (Ex : x = s) by congruence; clear Hs; rewrite <- Ex in Hrun |- *
    end;
    rewrite Hrun;
    (destruct (wire r) as [|c w] eqn:Hw; [contradiction|]); rewrite Hh, <- Hw;
    rewrite decode_top by exact Hwf; cbv beta iota; simpl_state;
    unfold guard_exit; simpl_state; unfold raised;
    (destruct (raise_error =? 0) eqn:Hre; destruct (is_error_reply r) eqn:Her;
     cbn [negb andb]; rewrite ?Hre; cbn [negb andb Z.eqb];
     [ eexists; split; [reflexivity|]; simpl_state; rewrite <- app_assoc; repeat split ..
     | destruct r; try discriminate Her; cbn [value_of]; simpl_state;
       erewrite luaRaiseError_eq by reflexivity;
       eexists; split; [reflexivity|]; simpl_state; rewrite <- app_assoc;
       repeat split
     | eexists; split; [reflexivity|]; simpl_state; rewrite <- app_assoc; repeat split ]).
Qed.




Lemma first_bad (l : list LuaValue) :
  forallb arg_ok l = false ->
  exists good bad more,
    l = good ++ bad :: more /\ forallb arg_ok good = true /\ arg_ok bad = false.
Proof.
  induction l as [|v l IH]; [discriminate|]. cbn [forallb].
  destruct (arg_ok v) eqn:E; cbn [andb].
  - intros H. destruct (IH H) as (good & bad & more & -> & Hg & Hb).
    exists (v :: good), bad, more. cbn [forallb app]. rewrite E, Hg. auto.
  - intros _. exists [], v, l. auto.
Qed.

(** The argument loop gets to the end exactly when every argument is a
    string or a number, and then it has collected them all. *)
Lemma collect_args_complete (lua : lua_State) (args : list bytes) :
  collect_args lua (Z.to_nat (lua_gettop lua)) 0 [] = (args, lua_gettop lua) ->
  forallb arg_ok (stack lua) = true /\ args = map arg_bytes (rev (stack lua)).
Proof.
  intros H. unfold lua_gettop in H. rewrite Nat2Z.id in H.
  destruct (forallb arg_ok (rev (stack lua))) eqn:Hok.
  - pose proof (collect_args_all lua (rev (stack lua)) Hok [] [] eq_refl) as E.
    rewrite length_rev in E. cbn [length Z.of_nat app Nat.add] in E.
    rewrite E in H. injection H as <-. split; [|reflexivity].
    rewrite forallb_forall in *. intros v Hv. apply Hok. apply in_rev.
    rewrite rev_involutive. exact Hv.
  - destruct (first_bad _ Hok) as (good & bad & more & Hst & Hg & Hb).
    pose proof (collect_args_stops lua good bad more Hg Hb [] (length (stack lua)) []
                  Hst) as E.
    assert (Hlen : length (stack lua) = (length good + S (length more))%nat).
    { rewrite <- (length_rev (stack lua)), Hst, length_app. reflexivity. }
    cbn [length Z.of_nat Nat.add] in E. rewrite H in E. cbn [snd] in E.
    specialize (E ltac:(lia)). lia.
Qed.

Ltac exits_st H :=
  first [ apply guard_exit_state in H; destruct H as (? & ->)
        | apply early_exit_state in H; destruct H as (? & ->)
        | injection H as _ <- ].

Ltac not_executed Hc :=
  exfalso; simpl_state; rewrite <- ?app_assoc in Hc;
  first [ rewrite <- (app_nil_r (calls _)) in Hc at 1;
          apply app_inv_head in Hc; discriminate Hc
        | apply app_inv_head in Hc; discriminate Hc ].

(** X24: what a command receives. Whenever a gateway call runs a command,
    the command executor is run on the fake client, synchronised with the
    invoking session, whose arguments are the arguments of the call in
    their order, every string as it is, whatever bytes it holds, and every
    number in the ["%.17g"] format; the store the call leaves is the one
    the executor returned for that session. *)
Theorem gateway_passes_arguments (ls ls' : LuaState DB RedisRand) (raise_error : Z) :
  executes ls raise_error ls' ->
  exists s,
    executed_session ls = Some s
    /\ forallb arg_ok (stack (_lua ls)) = true
    /\ sess_args s = map arg_bytes (rev (stack (_lua ls)))
    /\ _fakeSess ls' = Some s
    /\ db ls' = fst (Command_runSessionCmd (db ls) s).
Proof.
  intros (r & Hg & Hc).
  unfold executed_session, prechecked_session, called_args in *.
  unfold luaRedisGenericCommand in Hg.
  destruct (_sess ls) as [sess|] eqn:Es;
    [|unfold updateFakeClient in Hg; rewrite Es in Hg; discriminate Hg].
  rewrite (updateFakeClient_synced ls ls sess Es eq_refl eq_refl) in Hg.
  simpl_state. rewrite Es in Hg.
  destruct (inuse ls =? 0); cbn [negb] in Hg.
  2:{ break_match_in Hg. injection Hg as _ <-. not_executed Hc. }
  destruct (lua_gettop (_lua ls) =? 0) eqn:Htop.
  { exits_st Hg. not_executed Hc. }
  destruct (collect_args _ _ 0 []) as [args j] eqn:Hcol. cbn [fst] in *.
  destruct (j =? lua_gettop (_lua ls)) eqn:Hj; cbn [negb] in Hg.
  2:{ exits_st Hg. not_executed Hc. }
  apply Z.eqb_eq in Hj. subst j.
  destruct (collect_args_complete _ _ Hcol) as (Hok & Hargs).
  destruct (Command_precheck _).
  2:{ break_match_in Hg. exits_st Hg. not_executed Hc. }
  destruct (has_flag _ CMD_NOSCRIPT).
  { break_match_in Hg. exits_st Hg. not_executed Hc. }
  destruct (has_flag _ CMD_WRITE && negb (lua_random_dirty ls =? 0)
            && (lua_replicate_commands ls =? 0)).
  { break_match_in Hg. exits_st Hg. not_executed Hc. }
  destruct (has_flag _ CMD_RANDOM); destruct (has_flag _ CMD_WRITE); simpl_state;
    destruct (isClusterEnabled (_svr ls) && isRunning (_svr ls) && (ctx_flags sess =? 0));
    simpl_state;
    (eexists; split; [reflexivity|]); (split; [exact Hok|]);
    (split; [exact Hargs|]);
    match type of Hg with
    | context [Command_runSessionCmd ?d ?x] =>
        destruct (Command_runSessionCmd d x) as [db' expect]
    end;
    break_match_in Hg; exits_st Hg; simpl_state; split; reflexivity.
Qed.

End GatewayExtras.

Import Demo.

Lemma gateway_no_arguments_witness :
  exists ls',
    luaRedisGenericCommand (Demo.running [] 0 0) 1
    = Some (CRaise (LString (str "Please specify at least one argument for redis.call()")),
            ls')
    /\ calls ls' = [] /\ db ls' = O /\ inuse ls' = 0.
Proof.
  destruct (gateway_no_arguments (C := Demo.collaborators) (I := Demo.interpreter)
              (Demo.running [] 0 0) 1 ltac:(discriminate) eq_refl eq_refl)
    as (ls' & H & _ & Hc & Hd & Hi).
  exists ls'. split; [exact H|]. split; [exact Hc|]. split; [exact Hd | exact Hi].
Defined.

(** [redis.pcall('multi')]. *)
Lemma gateway_noscript_rejected_witness :
  exists ls',
    luaRedisGenericCommand (Demo.running [LString (str "multi")] 0 0) 0
    = Some (CReturn 1, ls')
    /\ nth_error (stack (_lua ls')) 0
       = Some (LTable [(KString (str "err"),
                        LString (str "This Redis command is not allowed from scripts"))])
    /\ calls ls' = [CallPrecheck [str "multi"]] /\ db ls' = O /\ inuse ls' = 0.
Proof.
  apply (gateway_noscript_rejected (C := Demo.collaborators) (I := Demo.interpreter)
           (Demo.running [LString (str "multi")] 0 0) 0).
  - split; [reflexivity|]. split; [discriminate|]. split; [reflexivity|].
    eexists. split; vm_compute; reflexivity.
  - vm_compute. reflexivity.
Defined.

(** [redis.call('get', 'k')]. *)
Lemma gateway_answers_witness :
  exists ls',
    luaRedisGenericCommand
      (Demo.running [LString (str "k"); LString (str "get")] 0 0) 1
    = Some (CReturn 1, ls')
    /\ stack (_lua ls')
       = [LString (str "bar"); LString (str "k"); LString (str "get")]
    /\ calls ls'
       = [CallPrecheck [str "get"; str "k"]; CallRunSessionCmd [str "get"; str "k"]]
    /\ db ls' = 1%nat
    /\ _fakeSess ls' = Some (mkSession [str "get"; str "k"] true 0 false 0 true)
    /\ inuse ls' = 0.
Proof.
  apply (gateway_answers (C := Demo.collaborators) (I := Demo.interpreter)
           (Demo.running [LString (str "k"); LString (str "get")] 0 0) 1
           (RBulk (str "bar")) 1%nat).
  - split; [reflexivity|]. split; [discriminate|]. split; [reflexivity|].
    eexists. split; vm_compute; reflexivity.
  - vm_compute. reflexivity.
  - intros _. left. reflexivity.
  - vm_compute. reflexivity.
  - vm_compute. reflexivity.
  - vm_compute. reflexivity.
  - reflexivity.
Defined.

(** [redis.call('get', 'k')] again. *)
Lemma gateway_keeps_environment_witness :
  let ls := Demo.running [LString (str "k"); LString (str "get")] 0 0 in
  let ls' := run_of (luaRedisGenericCommand ls 1) ls in
  same_env (_lua ls) (_lua ls')
  /\ _rand ls' = _rand ls /\ _sess ls' = _sess ls /\ _svr ls' = _svr ls
  /\ lua_time_start ls' = lua_time_start ls /\ lua_timedout ls' = lua_timedout ls.
Proof.
  intros ls ls'.
  apply (gateway_keeps_environment (C := Demo.collaborators) (I := Demo.interpreter)
           ls ls' 1 (CReturn 1)).
  - vm_compute. reflexivity.
  - vm_compute. reflexivity.
Defined.

(** [redis.pcall('set', 'k', true)]. *)
Lemma gateway_bad_argument_witness :
  exists ls',
    luaRedisGenericCommand
      (Demo.running [LBoolean true; LString (str "k"); LString (str "set")] 0 0) 0
    = Some (CReturn 1, ls')
    /\ nth_error (stack (_lua ls')) 0
       = Some (LTable [(KString (str "err"),
                        LString (str "Lua redis() command arguments must be strings or integers"))])
    /\ calls ls' = [] /\ db ls' = O /\ inuse ls' = 0.
Proof.
  apply (gateway_bad_argument (C := Demo.collaborators) (I := Demo.interpreter)
           (Demo.running [LBoolean true; LString (str "k"); LString (str "set")] 0 0) 0
           [LString (str "set"); LString (str "k")] (LBoolean true) []).
  - discriminate.
  - reflexivity.
  - reflexivity.
  - reflexivity.
  - reflexivity.
Defined.

(** [redis.call('set', 'k', 5)]. *)
Lemma gateway_passes_arguments_witness :
  let ls := Demo.running [LNumber (int_to_double 5); LString (str "k");
                          LString (str "set")] 0 0 in
  let ls' := run_of (luaRedisGenericCommand ls 1) ls in
  exists s,
    executed_session ls = Some s
    /\ sess_args s = [str "set"; str "k"; str "5"]
    /\ _fakeSess ls' = Some s
    /\ db ls' = 1%nat.
Proof.
  intros ls ls'.
  destruct (gateway_passes_arguments (C := Demo.collaborators)
              (I := Demo.interpreter) ls ls' 1) as (s & Hs & _ & Ha & Hf & Hd).
  - exists (CReturn 1). split; vm_compute; reflexivity.
  - exists s. split; [exact Hs|]. split; [exact Ha|]. split; [exact Hf|].
    rewrite Hd. vm_compute in Hs. injection Hs as <-. reflexivity.
Defined.


(** ** The script runner: bindings, stack discipline and failures *)

Section RunnerExtras.

Context {DB RedisRand : Type} {C : Collaborators DB RedisRand}
        {I : Interpreter DB RedisRand}.

Lemma string_array_index (l : list bytes) (i : Z) :
  Z.of_nat (length l) < 2 ^ 53 - 1 ->
  1 <= i <= Z.of_nat (length l) ->
  rawget (entries_from 1 (map LString l)) (KNumber (int_to_double i))
  = LString (nth (Z.to_nat (i - 1)) l []).
Proof.
  intros Hb Hi.
  destruct (nth_split l [] (n := Z.to_nat (i - 1)) ltac:(lia)) as (l1 & l2 & E & Hl1).
  rewrite E at 1. rewrite map_app. cbn [map].
  replace i with (1 + Z.of_nat (length (map LString l1)))
    by (rewrite length_map; lia).
  rewrite length_map, <- (length_map LString l1).
  apply rawget_entries_hit with (post := map LString l2); [reflexivity | lia |].
  rewrite length_app, !length_map. cbn [length]. rewrite length_map.
  apply (f_equal (@length bytes)) in E. rewrite length_app in E. cbn [length] in E. lia.
Qed.

Lemma string_array_end (l : list bytes) :
  Z.of_nat (length l) < 2 ^ 53 - 1 ->
  rawget (entries_from 1 (map LString l))
    (KNumber (int_to_double (Z.of_nat (length l) + 1))) = LNil.
Proof.
  intros Hb. apply rawget_entries_miss; [lia|]. rewrite length_map. lia.
Qed.

(** The tables bound to KEYS and ARGV, read by index. *)
Lemma bind_lookup (ls : LuaState DB RedisRand) (args : list bytes)
    (numkeys : Z) :
  0 <= numkeys <= Z.of_nat (length args) - 3 ->
  Z.of_nat (length args) - 3 <= INT_MAX ->
  exists ls',
    evalGenericCommand_bind ls args numkeys = Some ls'
    /\ (forall i, 1 <= i <= numkeys ->
                  global_index (_lua ls') (str "KEYS") i
                  = LString (nth (Z.to_nat (2 + i)) args []))
    /\ global_index (_lua ls') (str "KEYS") (numkeys + 1) = LNil
    /\ (forall i, 1 <= i <= Z.of_nat (length args) - 3 - numkeys ->
                  global_index (_lua ls') (str "ARGV") i
                  = LString (nth (Z.to_nat (2 + numkeys + i)) args []))
    /\ global_index (_lua ls') (str "ARGV") (Z.of_nat (length args) - 3 - numkeys + 1)
       = LNil
    /\ (forall name, name <> str "KEYS" -> name <> str "ARGV" ->
                     rawget (globals (_lua ls')) (KString name)
                     = rawget (globals (_lua ls)) (KString name))
    /\ stack (_lua ls') = stack (_lua ls).
Proof.
  intros Hnk Hlen. unfold evalGenericCommand_bind.
  assert (H31 : 2 ^ 31 < 2 ^ 53) by reflexivity.
  rewrite !luaSetGlobalArray_spec by (unfold INT_MAX in Hlen; lia).
  cbv beta iota zeta.
  set (lk := firstn (Z.to_nat numkeys) (skipn (Z.to_nat 3) args)).
  set (la := firstn (Z.to_nat (Z.of_nat (length args) - 3 - numkeys))
               (skipn (Z.to_nat (3 + numkeys)) args)).
  assert (Hlk : length lk = Z.to_nat numkeys)
    by (unfold lk; rewrite length_firstn, length_skipn; lia).
  assert (Hla : length la = Z.to_nat (Z.of_nat (length args) - 3 - numkeys))
    by (unfold la; rewrite length_firstn, length_skipn; lia).
  change (c_str (str "KEYS")) with (str "KEYS").
  change (c_str (str "ARGV")) with (str "ARGV").
  eexists. split; [reflexivity|].
  simpl_state. cbn [with_globals globals stack].
  assert (HK : rawget (rawset (rawset (globals (_lua ls)) (KString (str "KEYS"))
                                 (string_array lk))
                         (KString (str "ARGV")) (string_array la))
                 (KString (str "KEYS")) = string_array lk).
  { rewrite rawget_rawset_other by discriminate.
    apply rawget_rawset_same. discriminate. }
  assert (HA : rawget (rawset (rawset (globals (_lua ls)) (KString (str "KEYS"))
                                 (string_array lk))
                         (KString (str "ARGV")) (string_array la))
                 (KString (str "ARGV")) = string_array la).
  { apply rawget_rawset_same. discriminate. }
  unfold global_index. cbn [with_globals globals stack]. rewrite HK, HA.
  unfold string_array.
  unfold INT_MAX in Hlen.
  split; [|split; [|split; [|split; [|split]]]].
  - intros i Hi. rewrite string_array_index by lia. f_equal.
    unfold lk. rewrite nth_firstn, nth_skipn.
    replace (Z.to_nat (i - 1) <? Z.to_nat numkeys)%nat with true
      by (symmetry; apply Nat.ltb_lt; lia).
    f_equal. lia.
  - replace (numkeys + 1) with (Z.of_nat (length lk) + 1) by lia.
    apply string_array_end. lia.
  - intros i Hi. rewrite string_array_index by lia. f_equal.
    unfold la. rewrite nth_firstn, nth_skipn.
    replace (Z.to_nat (i - 1) <? Z.to_nat (Z.of_nat (length args) - 3 - numkeys))%nat
      with true by (symmetry; apply Nat.ltb_lt; lia).
    f_equal. lia.
  - replace (Z.of_nat (length args) - 3 - numkeys + 1)
      with (Z.of_nat (length la) + 1) by lia.
    apply string_array_end. lia.
  - intros name Hk Ha.
    rewrite !rawget_rawset_other by (intros E; symmetry in E; contradiction).
    reflexivity.
  - reflexivity.
Qed.

(** X14: what a script finds in KEYS and ARGV. After the binding, [KEYS[i]]
    is the argument at position [2 + i] for [i] from 1 to [numkeys] and
    nil at [numkeys + 1]; [ARGV[i]] is the argument at position
    [2 + numkeys + i] up to the last one and nil after it; whatever the two
    globals held before is gone, every other global is as it was, and so
    is the stack. *)
Theorem keys_and_argv_lookup (ls : LuaState DB RedisRand) (args : list bytes)
    (numkeys : Z) :
  0 <= numkeys <= Z.of_nat (length args) - 3 ->
  Z.of_nat (length args) - 3 <= INT_MAX ->
  exists ls',
    evalGenericCommand_bind ls args numkeys = Some ls'
    /\ (forall i, 1 <= i <= numkeys ->
                  global_index (_lua ls') (str "KEYS") i
                  = LString (nth (Z.to_nat (2 + i)) args []))
    /\ global_index (_lua ls') (str "KEYS") (numkeys + 1) = LNil
    /\ (forall i, 1 <= i <= Z.of_nat (length args) - 3 - numkeys ->
                  global_index (_lua ls') (str "ARGV") i
                  = LString (nth (Z.to_nat (2 + numkeys + i)) args []))
    /\ global_index (_lua ls') (str "ARGV") (Z.of_nat (length args) - 3 - numkeys + 1)
       = LNil
    /\ (forall name, name <> str "KEYS" -> name <> str "ARGV" ->
                     rawget (globals (_lua ls')) (KString name)
                     = rawget (globals (_lua ls)) (KString name))
    /\ stack (_lua ls') = stack (_lua ls).
Proof. exact (bind_lookup ls args numkeys). Qed.

Lemma lua_pcall_stack (ls ls' : LuaState DB RedisRand) (nresults errfunc rc : Z)
    (f : LuaValue) (s : list LuaValue) :
  stack (_lua ls) = f :: s ->
  lua_pcall ls nresults errfunc = Some (rc, ls') ->
  (rc = 0 /\ exists v, stack (_lua ls') = if nresults =? 0 then s else v :: s)
  \/ (rc = 1 /\ exists e, stack (_lua ls') = e :: s).
Proof.
  intros Hs H. unfold lua_pcall in H. rewrite Hs in H.
  destruct (run_pcall f _ _) as [[v|e] l0]; injection H as <- <-; simpl_state;
    cbn [with_stack stack]; [left | right]; (split; [reflexivity|]);
    eexists; reflexivity.
Qed.

Lemma luaCreateFunction_stack (ls ls' : LuaState DB RedisRand) (body : bytes)
    (ret : Expected bytes) :
  luaCreateFunction ls body = Some (ret, ls') -> stack (_lua ls') = stack (_lua ls).
Proof.
  unfold luaCreateFunction, luaL_loadbuffer. intros H.
  destruct (compile_chunk _ _) as [c|msg]; cbn [Z.eqb negb] in H.
  - destruct (lua_pcall _ 0 0) as [[rc l0]|] eqn:Hp; [|discriminate].
    eapply lua_pcall_stack in Hp; [|reflexivity].
    destruct Hp as [(-> & v & Hv)|(-> & e & He)]; cbn [Z.eqb negb] in H.
    + injection H as _ <-. exact Hv.
    + unfold lua_pop in H. rewrite He in H.
      destruct (lua_tostring _ _); [|discriminate].
      cbn [length Nat.leb skipn] in H. injection H as _ <-. reflexivity.
  - unfold lua_pop in H. simpl_state. cbn [lua_push with_stack stack] in H.
    destruct (lua_tostring _ _); [|discriminate].
    cbn [length Nat.leb skipn] in H. injection H as _ <-. reflexivity.
Qed.

Lemma resolve_stack (ls ls' : LuaState DB RedisRand) (args : list bytes) (evalsha : Z)
    (fn : bytes) (res : Expected unit) :
  evalGenericCommand_resolve ls args evalsha fn = Some (res, ls') ->
  match res with
  | Ok _ => exists f h, stack (_lua ls') = f :: h :: stack (_lua ls)
  | Err _ => stack (_lua ls') = stack (_lua ls)
  end.
Proof.
  unfold evalGenericCommand_resolve, ls_getglobal, lua_getglobal, lua_pop, lua_push.
  intros H. simpl_state.
  cbn [with_stack stack globals length Nat.leb skipn] in H.
  destruct (lua_isnil _ (-1)).
  - simpl_state. cbn [with_stack stack globals length Nat.leb skipn] in H.
    destruct (negb (evalsha =? 0)).
    + injection H as <- <-. reflexivity.
    + destruct (nth_error args 1) as [body|]; [|discriminate].
      destruct (luaCreateFunction _ body) as [[ret l0]|] eqn:Hc; [|discriminate].
      apply luaCreateFunction_stack in Hc. simpl_state. cbn [with_stack stack] in Hc.
      destruct (negb (expected_ok ret)).
      * rewrite Hc in H. cbn [length Nat.leb skipn] in H.
        injection H as <- <-. reflexivity.
      * simpl_state. cbn [with_stack stack] in H.
        destruct (lua_isnil _ (-1)); [discriminate|].
        injection H as <- <-. simpl_state. cbn [with_stack stack]. rewrite Hc.
        eexists _, _. reflexivity.
  - injection H as <- <-. simpl_state. cbn [with_stack stack].
    eexists _, _. reflexivity.
Qed.

Lemma run_stack (ls ls' : LuaState DB RedisRand) (fn : bytes) (now : Z)
    (r : Expected bytes) (f h : LuaValue) (s : list LuaValue) :
  stack (_lua ls) = f :: h :: s ->
  evalGenericCommand_run ls fn now = Some (r, ls') ->
  stack (_lua ls') = s /\ lua_timedout ls' = 0.
Proof.
  intros Hs H. unfold evalGenericCommand_run in H.
  destruct (lua_pcall _ 1 (-2)) as [[rc l0]|] eqn:Hp; [|discriminate].
  eapply (lua_pcall_stack _ _ _ _ _ f (h :: s)) in Hp.
  2:{ destruct (0 <? luaTimeLimit _); simpl_state; cbn [lua_sethook with_hook stack];
        exact Hs. }
  set (l1 := if 0 <? luaTimeLimit (_svr (set_time_start ls now))
             then set_lua (log l0 (CallSetHook false)) (lua_sethook (_lua l0) None)
             else l0) in H.
  assert (Hl1 : stack (_lua l1) = stack (_lua l0))
    by (unfold l1; destruct (0 <? luaTimeLimit _); reflexivity).
  set (l2 := if negb (lua_timedout l1 =? 0) then set_timedout l1 0 else l1) in H.
  assert (Hl2 : stack (_lua l2) = stack (_lua l0) /\ lua_timedout l2 = 0).
  { unfold l2. destruct (lua_timedout l1 =? 0) eqn:E; cbn [negb]; simpl_state.
    - apply Z.eqb_eq in E. auto.
    - auto. }
  destruct Hl2 as [Hst Hto]. clearbody l2. clear l1 Hl1.
  destruct Hp as [(-> & v & Hv)|(-> & e & He)]; cbn [Z.eqb negb] in H.
  - rewrite <- Hst in Hv.
    destruct (luaReplyToRedisReply (_lua l2)) as [[ret lua]|] eqn:Hr; [|discriminate].
    apply (luaReplyToRedisReply_frame _ _ v (h :: s)) in Hr; [|exact Hv].
    destruct Hr as (-> & _). unfold lua_pop in H.
    cbn [with_stack stack length Nat.leb skipn] in H.
    injection H as _ <-. simpl_state. auto.
  - rewrite <- Hst in He. unfold lua_pop in H. rewrite He in H.
    destruct (lua_tostring _ _); [|discriminate].
    cbn [length Nat.leb skipn] in H. injection H as _ <-. simpl_state. auto.
Qed.

Lemma invoke_stack (ls ls' : LuaState DB RedisRand) (args : list bytes) (numkeys : Z)
    (fn : bytes) (now : Z) (r : Expected bytes) (f h : LuaValue) (s : list LuaValue) :
  0 <= numkeys <= Z.of_nat (length args) - 3 ->
  Z.of_nat (length args) - 3 <= INT_MAX ->
  stack (_lua ls) = f :: h :: s ->
  evalGenericCommand_invoke ls args numkeys fn now = Some (r, ls') ->
  stack (_lua ls') = s /\ _sess ls' = None
  /\ (forall reply, r = Ok reply -> lua_timedout ls' = 0).
Proof.
  intros Hnk Hlen Hs H. unfold evalGenericCommand_invoke in H.
  destruct (bind_lookup ls args numkeys Hnk Hlen)
    as (l0 & Hb & _ & _ & _ & _ & _ & Hst).
  rewrite Hb in H. rewrite Hs in Hst.
  destruct (updateFakeClient l0) as [l1|] eqn:Hu; [|discriminate].
  apply updateFakeClient_eq in Hu. destruct Hu as (fake & -> & _).
  simpl_state.
  destruct (getAllKeysLocked _ fake args _) as [[]|st].
  - destruct (evalGenericCommand_run _ fn now) as [[ret l2]|] eqn:Hrun; [|discriminate].
    eapply run_stack in Hrun; [|simpl_state; exact Hst].
    injection H as <- <-. simpl_state. destruct Hrun. auto.
  - unfold lua_pop in H. rewrite Hst in H. cbn [length Nat.leb skipn] in H.
    injection H as <- <-. simpl_state. cbn [with_stack stack].
    repeat split. intros reply E. discriminate E.
Qed.

(** X15: the runner keeps the interpreter stack balanced: whatever the
    answer of an invocation (a reply, a rejected key count, NOSCRIPT, a
    script that does not compile, a failed lock, a script error), the
    stack is the one it found; after a reply the session pointer is reset
    and the timeout flag is clear. *)
Theorem eval_leaves_stack_balanced (ls ls' : LuaState DB RedisRand) (sess : Session)
    (evalsha : Z) (funcname0 : bytes) (now : Z) (r : Expected bytes) :
  Z.of_nat (length (sess_args sess)) - 3 <= INT_MAX ->
  evalGenericCommand ls sess evalsha funcname0 now = Some (r, ls') ->
  stack (_lua ls') = stack (_lua ls)
  /\ (forall reply, r = Ok reply -> _sess ls' = None /\ lua_timedout ls' = 0).
Proof.
  intros Hlen H. unfold evalGenericCommand in H.
  set (args := sess_args sess) in *.
  destruct (nth_error args 2) as [a2|]; [|discriminate].
  destruct (stoll a2) as [numkeys|st];
    [|injection H as <- <-; split; [reflexivity | intros ? E; discriminate E]].
  rewrite static_cast_int_id in H
    by (unfold INT_MAX in Hlen; split; [lia | eapply Z.le_lt_trans; [exact Hlen|reflexivity]]).
  destruct (numkeys >? Z.of_nat (length args) - 3) eqn:Hgt;
    [injection H as <- <-; split; [reflexivity | intros ? E; discriminate E]|].
  destruct (numkeys <? 0) eqn:Hlt;
    [injection H as <- <-; split; [reflexivity | intros ? E; discriminate E]|].
  match type of H with
  | context [match ?x with Some hex => _ | None => None end] =>
      destruct x as [hex|]; [|discriminate]
  end.
  destruct (evalGenericCommand_resolve _ args evalsha _) as [[res l0]|] eqn:Hres;
    [|discriminate].
  apply resolve_stack in Hres. simpl_state.
  destruct res as [[]|st].
  - destruct Hres as (f & h & Hst).
    apply (invoke_stack _ _ _ _ _ _ _ f h (stack (_lua ls))) in H;
      [| apply Z.ltb_ge in Hlt; rewrite Z.gtb_ltb in Hgt; apply Z.ltb_ge in Hgt; lia
       | exact Hlen | exact Hst].
    destruct H as (H1 & H2 & H3). split; [exact H1|]. intros reply E. split; eauto.
  - injection H as <- <-. split; [exact Hres | intros ? E; discriminate E].
Qed.

(** X16: EVAL of a body that does not compile. The answer is the fixed
    text "luaCreateFunction failed": the message of the compiler is
    dropped. The interpreter state and the store are as before, nothing was
    called but the two lookups and the compiler, and, the return coming
    before the scope guard, the engine still points at the session. *)
Theorem eval_compile_failure (ls : LuaState DB RedisRand) (sess : Session)
    (funcname0 : bytes) (now : Z) (body a2 : bytes) (numkeys : Z) (msg : bytes) :
  let args := sess_args sess in
  let name := str "f_" ++ sha1hex body in
  nth_error args 1 = Some body ->
  nth_error args 2 = Some a2 -> stoll a2 = Ok numkeys ->
  0 <= numkeys <= Z.of_nat (length args) - 3 ->
  Z.of_nat (length args) - 3 <= INT_MAX ->
  rawget (globals (_lua ls)) (KString name) = LNil ->
  compile_chunk (funcdef_of body) (str "@user_script") = inr msg ->
  exists ls',
    evalGenericCommand ls sess 0 funcname0 now
    = Some (Err (mkStatus ERR_LUA (str "luaCreateFunction failed")), ls')
    /\ _lua ls' = _lua ls /\ db ls' = db ls /\ _sess ls' = Some sess
    /\ calls ls'
       = calls ls ++ [CallSrand48 0; CallGetGlobal handler_name; CallGetGlobal name;
                      CallLoadBuffer (funcdef_of body)].
Proof.
  intros args name Hbody Ha2 Hst Hnk Hlen Hg Hc.
  unfold evalGenericCommand. fold args. rewrite Ha2, Hst.
  rewrite static_cast_int_id
    by (unfold INT_MAX in Hlen; split; [lia | eapply Z.le_lt_trans; [exact Hlen|reflexivity]]).
  replace (numkeys >? Z.of_nat (length args) - 3) with false
    by (symmetry; rewrite Z.gtb_ltb; apply Z.ltb_ge; lia).
  replace (numkeys <? 0) with false by (symmetry; apply Z.ltb_ge; lia).
  change (0 =? 0) with true. cbv iota. rewrite Hbody. cbv beta iota zeta.
  unfold evalGenericCommand_resolve, ls_getglobal, lua_getglobal, lua_isnil,
    lua_type, index2adr, index_pos, lua_pop, lua_push.
  rewrite Hbody. rewrite (c_str_funcname body). fold name.
  simpl_state. cbn [with_stack stack globals]. rewrite Hg.
  cbn [Z.ltb Z.compare Z.opp Z.sub Z.add Z.to_nat Z.pos_sub nth_error
       type_of lua_type_tag_eqb length Nat.leb skipn].
  change (negb (0 =? 0)) with false. cbv iota.
  simpl_state. cbn [with_stack stack globals].
  unfold luaCreateFunction, luaL_loadbuffer. fold (funcdef_of body). rewrite Hc.
  change (negb (1 =? 0)) with true. cbv iota.
  unfold lua_tostring, lua_tolstring, index2adr, index_pos, lua_pop, lua_push.
  simpl_state.
  cbn [with_stack stack globals Z.ltb Z.compare Z.opp Z.sub Z.add Z.to_nat
       Z.pos_sub nth_error length Nat.leb skipn].
  cbn [expected_ok negb]. cbv iota. simpl_state.
  cbn [with_stack stack globals length Nat.leb skipn].
  eexists. split; [reflexivity|]. simpl_state. rewrite <- !app_assoc.
  repeat split. destruct ls as [[st g l hk] ? ? ? ? ? ? ? ? ? ? ? ?]. reflexivity.
Qed.

(** EVAL of a body whose function is defined, up to the binding. *)
Lemma eval_cached (ls : LuaState DB RedisRand) (sess : Session) (funcname0 : bytes)
    (now : Z) (body a2 : bytes) (numkeys : Z) (f : LuaValue) :
  let args := sess_args sess in
  let fn := "f"%char :: "_"%char :: sha1hex body ++ [NUL] in
  nth_error args 1 = Some body ->
  nth_error args 2 = Some a2 -> stoll a2 = Ok numkeys ->
  0 <= numkeys <= Z.of_nat (length args) - 3 ->
  Z.of_nat (length args) - 3 <= INT_MAX ->
  rawget (globals (_lua ls)) (KString (str "f_" ++ sha1hex body)) = f -> f <> LNil ->
  evalGenericCommand ls sess 0 funcname0 now
  = evalGenericCommand_invoke
      (after_lookup
         (set_replicate_commands
            (set_write_dirty
               (set_random_dirty
                  (set_rand (log (set_sess ls (Some sess)) (CallSrand48 0))
                     (redisSrand48 0)) 0) 0) 0) fn f)
      args numkeys fn now.
Proof.
  intros args fn Hbody Ha2 Hst Hnk Hlen Hg Hf.
  unfold evalGenericCommand. fold args. rewrite Ha2, Hst.
  rewrite static_cast_int_id
    by (unfold INT_MAX in Hlen; split; [lia | eapply Z.le_lt_trans; [exact Hlen|reflexivity]]).
  replace (numkeys >? Z.of_nat (length args) - 3) with false
    by (symmetry; rewrite Z.gtb_ltb; apply Z.ltb_ge; lia).
  replace (numkeys <? 0) with false by (symmetry; apply Z.ltb_ge; lia).
  change (0 =? 0) with true. cbv iota. rewrite Hbody. cbv beta iota zeta. fold fn.
  rewrite (resolve_hit _ args 0 fn f)
    by (try (unfold fn; rewrite c_str_funcname); assumption).
  reflexivity.
Qed.

(** The binding and the lock request of an invocation whose keys cannot
    be locked. *)
Lemma invoke_lock_failure (X ls : LuaState DB RedisRand) (sess : Session)
    (args : list bytes) (numkeys : Z) (fn : bytes) (now : Z) (f h : LuaValue)
    (s : list LuaValue) (st : Status) :
  let keyidx := map Z.of_nat (seq 3 (Z.to_nat numkeys)) in
  0 <= numkeys <= Z.of_nat (length args) - 3 ->
  Z.of_nat (length args) - 3 <= INT_MAX ->
  stack (_lua X) = f :: h :: s ->
  _sess X = Some sess -> _fakeSess X = _fakeSess ls -> _svr X = _svr ls ->
  getAllKeysLocked (db X) (synced_fake ls sess) args keyidx = Err st ->
  exists ls',
    evalGenericCommand_invoke X args numkeys fn now = Some (Err st, ls')
    /\ stack (_lua ls') = s /\ db ls' = db X /\ _sess ls' = None
    /\ exists binds,
         calls ls' = calls X ++ binds ++ [CallLockKeys keyidx]
         /\ forallb is_bind binds = true.
Proof.
  intros keyidx Hnk Hlen Hs Hse Hfk Hsv Hlock.
  unfold evalGenericCommand_invoke, evalGenericCommand_bind.
  assert (H31 : 2 ^ 31 < 2 ^ 53) by reflexivity.
  rewrite !luaSetGlobalArray_spec by (unfold INT_MAX in Hlen; lia).
  cbv beta iota zeta.
  rewrite (updateFakeClient_synced _ ls sess) by (simpl_state; assumption).
  simpl_state. fold keyidx. rewrite Hlock.
  unfold lua_pop. simpl_state. cbn [with_globals with_stack stack]. rewrite Hs.
  cbn [length Nat.leb skipn].
  eexists. split; [reflexivity|]. simpl_state. cbn [with_stack stack].
  repeat split. rewrite <- !app_assoc. cbn [app].
  match goal with
  | |- exists _, calls X ++ ?a :: ?b :: _ = _ /\ _ => exists [a; b]
  end.
  split; reflexivity.
Qed.

(** X25: when the keys cannot be locked the script is not run: the answer
    is the status of the lock request, the function found is not called,
    the stack is the one found and the session pointer is reset. *)
Theorem eval_lock_failure (ls : LuaState DB RedisRand) (sess : Session)
    (funcname0 : bytes) (now : Z) (body a2 : bytes) (numkeys : Z) (f : LuaValue)
    (st : Status) :
  let args := sess_args sess in
  let name := str "f_" ++ sha1hex body in
  let keyidx := map Z.of_nat (seq 3 (Z.to_nat numkeys)) in
  nth_error args 1 = Some body ->
  nth_error args 2 = Some a2 -> stoll a2 = Ok numkeys ->
  0 <= numkeys <= Z.of_nat (length args) - 3 ->
  Z.of_nat (length args) - 3 <= INT_MAX ->
  rawget (globals (_lua ls)) (KString name) = f -> f <> LNil ->
  getAllKeysLocked (db ls) (synced_fake ls sess) args keyidx = Err st ->
  exists ls',
    evalGenericCommand ls sess 0 funcname0 now = Some (Err st, ls')
    /\ stack (_lua ls') = stack (_lua ls) /\ db ls' = db ls /\ _sess ls' = None
    /\ exists binds,
         calls ls'
         = calls ls ++ [CallSrand48 0; CallGetGlobal handler_name; CallGetGlobal name]
           ++ binds ++ [CallLockKeys keyidx]
         /\ forallb is_bind binds = true.
Proof.
  intros args name keyidx Hbody Ha2 Hst Hnk Hlen Hg Hf Hlock.
  rewrite (eval_cached ls sess funcname0 now body a2 numkeys f) by assumption.
  fold args.
  match goal with
  | |- context [evalGenericCommand_invoke ?X args numkeys ?fn now] =>
      destruct (invoke_lock_failure X ls sess args numkeys fn now f
                  (rawget (globals (_lua ls)) (KString handler_name))
                  (stack (_lua ls)) st Hnk Hlen)
        as (ls' & E & H1 & H2 & H3 & binds & H4 & H5);
      [reflexivity | reflexivity | reflexivity | reflexivity | exact Hlock |]
  end.
  exists ls'. split; [exact E|]. split; [exact H1|]. split; [exact H2|].
  split; [exact H3|]. exists binds. split; [|exact H5].
  rewrite H4. unfold after_lookup. simpl_state. rewrite (c_str_funcname body).
  rewrite <- !app_assoc. reflexivity.
Qed.

(** The call of an invocation whose function raises a string. *)
Lemma invoke_script_error (X ls : LuaState DB RedisRand) (sess : Session)
    (args : list bytes) (numkeys : Z) (fn : bytes) (now : Z) (f h : LuaValue)
    (s : list LuaValue) (e : bytes) :
  0 <= numkeys <= Z.of_nat (length args) - 3 ->
  Z.of_nat (length args) - 3 <= INT_MAX ->
  stack (_lua X) = f :: h :: s ->
  _sess X = Some sess -> _fakeSess X = _fakeSess ls -> _svr X = _svr ls ->
  getAllKeysLocked (db X) (synced_fake ls sess) args
    (map Z.of_nat (seq 3 (Z.to_nat numkeys))) = Ok tt ->
  (forall Y, fst (run_pcall f (Some h) Y) = PcallErr (LString e)) ->
  exists ls',
    evalGenericCommand_invoke X args numkeys fn now
    = Some (Err (mkStatus ERR_LUA
                   (str "Error running script (call to " ++ c_str fn ++ str "):"
                    ++ c_str e)), ls')
    /\ stack (_lua ls') = s /\ _sess ls' = None.
Proof.
  intros Hnk Hlen Hs Hse Hfk Hsv Hlock Hrun.
  unfold evalGenericCommand_invoke, evalGenericCommand_bind.
  assert (H31 : 2 ^ 31 < 2 ^ 53) by reflexivity.
  rewrite !luaSetGlobalArray_spec by (unfold INT_MAX in Hlen; lia).
  cbv beta iota zeta.
  rewrite (updateFakeClient_synced _ ls sess) by (simpl_state; assumption).
  simpl_state. rewrite Hlock.
  unfold evalGenericCommand_run, lua_pcall. simpl_state.
  change (-2 =? 0) with false. cbv iota. unfold index2adr, index_pos.
  change (-2 <? 0) with true. cbv iota. change (Z.to_nat (- -2 - 1)) with 1%nat.
  destruct (0 <? luaTimeLimit (_svr X)); simpl_state;
    cbn [with_globals with_stack with_hook lua_sethook stack]; rewrite Hs;
    cbn [nth_error];
    match goal with
    | |- context [run_pcall f (Some h) ?Y] =>
        pose proof (Hrun Y) as E; destruct (run_pcall f (Some h) Y) as [r X'];
        cbn [fst] in E; subst r
    end;
    simpl_state; cbn [with_globals with_stack with_hook lua_sethook stack];
    destruct (lua_timedout X' =? 0); cbn [negb]; simpl_state;
    unfold lua_tostring, lua_tolstring, index2adr, index_pos, lua_pop;
    cbn [with_stack stack Z.ltb Z.compare Z.opp Z.sub Z.add Z.to_nat Z.pos_sub
         nth_error length Nat.leb skipn];
    change (negb (1 =? 0)) with true; cbv iota;
    (eexists; split; [reflexivity|]); simpl_state; cbn [with_stack stack];
    split; reflexivity.
Qed.

(** X26: once the keys are locked, the answer to a script that raises is
    "Error running script (call to f_<digest>):" followed by the message
    the call leaves on the stack, up to its first NUL: the error of the
    script as the handler installed with the call,
    [__redis__err__handler], returns it. The stack is the one found and
    the session pointer is reset. *)
Theorem eval_script_error (ls : LuaState DB RedisRand) (sess : Session)
    (funcname0 : bytes) (now : Z) (body a2 : bytes) (numkeys : Z) (f h : LuaValue)
    (e : bytes) :
  let args := sess_args sess in
  let name := str "f_" ++ sha1hex body in
  nth_error args 1 = Some body ->
  nth_error args 2 = Some a2 -> stoll a2 = Ok numkeys ->
  0 <= numkeys <= Z.of_nat (length args) - 3 ->
  Z.of_nat (length args) - 3 <= INT_MAX ->
  rawget (globals (_lua ls)) (KString name) = f -> f <> LNil ->
  rawget (globals (_lua ls)) (KString handler_name) = h ->
  getAllKeysLocked (db ls) (synced_fake ls sess) args
    (map Z.of_nat (seq 3 (Z.to_nat numkeys))) = Ok tt ->
  (forall Y, fst (run_pcall f (Some h) Y) = PcallErr (LString e)) ->
  exists ls',
    evalGenericCommand ls sess 0 funcname0 now
    = Some (Err (mkStatus ERR_LUA
                   (str "Error running script (call to " ++ name ++ str "):" ++ c_str e)),
            ls')
    /\ stack (_lua ls') = stack (_lua ls) /\ _sess ls' = None.
Proof.
  intros args name Hbody Ha2 Hst Hnk Hlen Hg Hf Hh Hlock Hrun.
  rewrite (eval_cached ls sess funcname0 now body a2 numkeys f) by assumption.
  fold args.
  match goal with
  | |- context [evalGenericCommand_invoke ?X args numkeys ?fn now] =>
      destruct (invoke_script_error X ls sess args numkeys fn now f h
                  (stack (_lua ls)) e Hnk Hlen)
        as (ls' & E & H1 & H2);
      [unfold after_lookup; simpl_state; cbn [with_stack stack]; rewrite Hh; reflexivity
      | reflexivity | reflexivity | reflexivity | exact Hlock | exact Hrun |]
  end.
  exists ls'. rewrite (c_str_funcname body) in E. auto.
Qed.

End RunnerExtras.

Import Demo.

Lemma keys_and_argv_lookup_witness :
  exists ls',
    evalGenericCommand_bind Demo.engine
      (map str ["EVAL"; "return 1"; "1"; "k1"; "a1"; "a2"]%string) 1 = Some ls'
    /\ global_index (_lua ls') (str "KEYS") 1 = LString (str "k1")
    /\ global_index (_lua ls') (str "KEYS") 2 = LNil
    /\ global_index (_lua ls') (str "ARGV") 2 = LString (str "a2")
    /\ global_index (_lua ls') (str "ARGV") 3 = LNil.
Proof.
  destruct (keys_and_argv_lookup Demo.engine (map str ["EVAL"; "return 1"; "1"; "k1"; "a1"; "a2"]%string) 1
              ltac:(vm_compute; split; discriminate) ltac:(vm_compute; discriminate))
    as (ls' & H & HK & HKe & HA & HAe & _).
  exists ls'. split; [exact H|].
  split; [exact (HK 1 ltac:(lia))|]. split; [exact HKe|].
  split; [exact (HA 2 ltac:(vm_compute; split; discriminate)) | exact HAe].
Defined.

Lemma eval_leaves_stack_balanced_witness :
  let sess := eval_args ["EVAL"; "return math.random(10)"; "0"]%string in
  let ls' := run_of (evalGenericCommand Demo.engine sess 0 [] 42) Demo.engine in
  stack (_lua ls') = stack (_lua Demo.engine)
  /\ (forall reply, Ok (str ":7" ++ CRLF) = Ok reply ->
                    _sess ls' = None /\ lua_timedout ls' = 0).
Proof.
  intros sess ls'.
  apply (eval_leaves_stack_balanced (C := Demo.collaborators) (I := Demo.interpreter)
           Demo.engine ls' sess 0 [] 42 (Ok (str ":7" ++ CRLF))).
  - vm_compute. discriminate.
  - vm_compute. reflexivity.
Defined.

Lemma eval_compile_failure_witness :
  exists ls',
    evalGenericCommand Demo.engine (eval_args ["EVAL"; "return ("; "0"]%string) 0 [] 42
    = Some (Err (mkStatus ERR_LUA (str "luaCreateFunction failed")), ls')
    /\ _lua ls' = _lua Demo.engine /\ db ls' = db Demo.engine
    /\ _sess ls' = Some (eval_args ["EVAL"; "return ("; "0"]%string).
Proof.
  destruct (eval_compile_failure (C := Demo.collaborators) (I := Demo.interpreter)
              Demo.engine (eval_args ["EVAL"; "return ("; "0"]%string) [] 42
              (str "return (") (str "0") 0 (str "syntax error")
              eq_refl eq_refl eq_refl ltac:(vm_compute; split; discriminate)
              ltac:(vm_compute; discriminate) eq_refl ltac:(vm_compute; reflexivity))
    as (ls' & H & Hl & Hd & Hs & _).
  exists ls'. split; [exact H|]. split; [exact Hl|]. split; [exact Hd | exact Hs].
Defined.

Lemma eval_lock_failure_witness :
  let body := str "return 1" in
  let ls := engine_with (str "f_" ++ sha1hex body) (LFunction 1) in
  exists ls',
    evalGenericCommand (C := locked_collaborators) ls
      (eval_args ["EVAL"; "return 1"; "1"; "k1"]%string) 0 [] 42
    = Some (Err (mkStatus (ERR_CODE 3) (str "lock timeout")), ls')
    /\ stack (_lua ls') = [] /\ db ls' = O /\ _sess ls' = None.
Proof.
  intros body ls.
  destruct (eval_lock_failure (C := locked_collaborators) (I := Demo.interpreter)
              ls (eval_args ["EVAL"; "return 1"; "1"; "k1"]%string) [] 42
              body (str "1") 1 (LFunction 1)
              (mkStatus (ERR_CODE 3) (str "lock timeout"))
              eq_refl eq_refl eq_refl ltac:(vm_compute; split; discriminate)
              ltac:(vm_compute; discriminate) ltac:(vm_compute; reflexivity)
              ltac:(discriminate) eq_refl)
    as (ls' & H & Hs & Hd & Hse & _).
  exists ls'. split; [exact H|]. split; [exact Hs|]. split; [exact Hd | exact Hse].
Defined.

(** A function that raises, called with a handler. *)
Lemma eval_script_error_witness :
  let body := str "error('boom')" in
  let ls := engine_with_handler (str "f_" ++ sha1hex body) (LFunction 5) (LFunction 9) in
  exists ls',
    evalGenericCommand (I := raising_interpreter) ls
      (eval_args ["EVAL"; "error('boom')"; "0"]%string) 0 [] 42
    = Some (Err (mkStatus ERR_LUA
                   (str "Error running script (call to " ++ (str "f_" ++ sha1hex body)
                    ++ str "):" ++ c_str (str "@user_script: 1: boom"))),
            ls')
    /\ stack (_lua ls') = [] /\ _sess ls' = None.
Proof.
  intros body ls.
  destruct (eval_script_error (C := Demo.collaborators) (I := raising_interpreter)
              ls (eval_args ["EVAL"; "error('boom')"; "0"]%string) [] 42
              body (str "0") 0 (LFunction 5) (LFunction 9)
              (str "@user_script: 1: boom")
              eq_refl eq_refl eq_refl ltac:(vm_compute; split; discriminate)
              ltac:(vm_compute; discriminate) ltac:(vm_compute; reflexivity)
              ltac:(discriminate) ltac:(vm_compute; reflexivity) eq_refl
              ltac:(intros; reflexivity))
    as (ls' & H & Hs & Hse).
  exists ls'. split; [exact H|]. split; [exact Hs | exact Hse].
Defined.

(** ** The other functions of the capability table *)

Section CapabilityExtras.

Context {DB RedisRand : Type} {C : Collaborators DB RedisRand}
        {I : Interpreter DB RedisRand}.

Variable lua_number2str : lua_Number -> bytes.

(** X17: [redis.sha1hex(s)] returns the digest of [s], 40 characters, and
    [f_] followed by it is the name under which EVAL defines, and later
    finds, the function of the body [s]; with any other number of
    arguments the call raises "wrong number of arguments". *)
Theorem sha1hex_command_names_the_function (lua : lua_State) :
  (forall s, stack lua = [LString s] ->
     luaRedisSha1hexCommand lua_number2str lua
     = Some (CReturn 1, lua_push lua (LString (sha1hex s)))
     /\ length (sha1hex s) = 40%nat
     /\ c_str ("f"%char :: "_"%char :: sha1hex s ++ [NUL]) = str "f_" ++ sha1hex s
     /\ forall (ls ls' : LuaState DB RedisRand) name,
          luaCreateFunction ls s = Some (Ok name, ls') -> name = str "f_" ++ sha1hex s)
  /\ (length (stack lua) <> 1%nat ->
      luaRedisSha1hexCommand lua_number2str lua
      = Some (CRaise (LString (str "wrong number of arguments")),
              lua_push lua (LString (str "wrong number of arguments")))).
Proof.
  split.
  - intros s Hs. split; [|split; [reflexivity|split; [apply c_str_funcname|]]].
    + unfold luaRedisSha1hexCommand, lua_gettop, lua_tolstring_conv, index_pos.
      rewrite Hs. cbn [length Z.of_nat Pos.of_succ_nat]. 
      change (negb (1 =? 1)) with false. cbv iota.
      change (1 <? 0) with false. change ((0 <? 1) && (1 <=? 1)) with true. cbv iota.
      change (Z.to_nat (1 - 1)) with 0%nat. cbn [nth_error].
      unfold lua_pushstring.
      rewrite (c_str_terminated (sha1hex s) []) by apply sha1hex_no_nul. reflexivity.
    + intros ls ls' name H. unfold luaCreateFunction in H.
      break_match_in H; injection H as <- _; reflexivity.
  - intros Hlen. unfold luaRedisSha1hexCommand, lua_gettop.
    replace (Z.of_nat (length (stack lua)) =? 1) with false
      by (symmetry; apply Z.eqb_neq; lia).
    reflexivity.
Qed.

(** X27: [redis.sha1hex] of one argument that is neither a string nor a
    number (nil, a boolean, a table, a function) does not fail: it returns
    the digest of the empty string. *)
Theorem sha1hex_command_other_argument (lua : lua_State) (v : LuaValue) :
  stack lua = [v] -> arg_ok v = false ->
  luaRedisSha1hexCommand lua_number2str lua
  = Some (CReturn 1, lua_push lua (LString (sha1hex []))).
Proof.
  intros Hs Hv.
  unfold luaRedisSha1hexCommand, lua_gettop, lua_tolstring_conv, index_pos.
  rewrite Hs. cbn [length Z.of_nat Pos.of_succ_nat].
  change (negb (1 =? 1)) with false. cbv iota.
  change (1 <? 0) with false. change ((0 <? 1) && (1 <=? 1)) with true. cbv iota.
  change (Z.to_nat (1 - 1)) with 0%nat. cbn [nth_error].
  unfold lua_pushstring.
  destruct v; try discriminate Hv;
    rewrite (c_str_terminated (sha1hex []) []) by apply sha1hex_no_nul; reflexivity.
Qed.

Lemma single_field_table (lua : lua_State) (field s : bytes) :
  stack lua = [LString s] ->
  luaRedisReturnSingleFieldTable lua field
  = Some (CReturn 1, lua_push lua (LTable [(KString (c_str field), LString s)])).
Proof.
  intros Hs. unfold luaRedisReturnSingleFieldTable, lua_gettop.
  erewrite lua_type_top by exact Hs. rewrite Hs. cbn [length Z.of_nat Pos.of_succ_nat].
  change (negb (1 =? 1)) with false. cbn [type_of lua_type_tag_eqb negb orb].
  unfold lua_pushvalue, lua_newtable, lua_pushstring, index2adr, index_pos.
  cbn [lua_push with_stack stack]. rewrite Hs.
  change (-3 <? 0) with true. cbv iota. change (Z.to_nat (- -3 - 1)) with 2%nat.
  cbn [nth_error].
  erewrite lua_settable_3; [| cbn [lua_push with_stack stack]; reflexivity | reflexivity].
  unfold lua_push. cbn [rawset table_put with_stack stack]. rewrite Hs.
  destruct lua; reflexivity.
Qed.

(** X18: [redis.error_reply(s)] and [redis.status_reply(s)] build the
    tables the decoder builds for an error and for a status reply: for a
    line [s], the value returned is the value that decoding [-s\r\n]
    (respectively [+s\r\n]) pushes. *)
Theorem reply_helpers_build_decoder_values (lua lua0 : lua_State) (s : bytes) :
  stack lua = [LString s] -> forallb line_char s = true ->
  luaRedisErrorReplyCommand lua = Some (CReturn 1, lua_push lua (value_of (RError s)))
  /\ redisProtocolToLuaType lua0 (wire (RError s))
     = Some (lua_push lua0 (value_of (RError s)), [])
  /\ luaRedisStatusReplyCommand lua = Some (CReturn 1, lua_push lua (value_of (RStatus s)))
  /\ redisProtocolToLuaType lua0 (wire (RStatus s))
     = Some (lua_push lua0 (value_of (RStatus s)), []).
Proof.
  intros Hs Hl. unfold luaRedisErrorReplyCommand, luaRedisStatusReplyCommand.
  rewrite !(single_field_table lua _ s Hs).
  split; [reflexivity|]. split; [apply decode_top; exact Hl|].
  split; [reflexivity|]. apply decode_top; exact Hl.
Qed.

Lemma sanitized_is_line (s : bytes) :
  forallb line_char (strmapchars (c_str s) [CR; LF] (str "  ") 2) = true.
Proof.
  induction s as [|c s IH]; [reflexivity|]. cbn [c_str].
  destruct (Ascii.eqb c NUL) eqn:En; [reflexivity|].
  unfold strmapchars in *. cbn [map forallb]. rewrite IH, andb_true_r.
  unfold str. cbn [mapchar list_ascii_of_string]. unfold line_char.
  destruct (Ascii.eqb c CR) eqn:Ec; [reflexivity|].
  destruct (Ascii.eqb c LF) eqn:El; [reflexivity|].
  rewrite Ec, El, En. reflexivity.
Qed.

Lemma sanitized_one_line (s : bytes) :
  strmapchars (c_str s) [CR; LF] (str "  ") 2 = one_line s.
Proof.
  unfold strmapchars, one_line. apply map_ext. intros c.
  unfold str. cbn [mapchar list_ascii_of_string].
  destruct (Ascii.eqb c CR); [reflexivity|]. destruct (Ascii.eqb c LF); reflexivity.
Qed.

(** X19: the value of [redis.error_reply(s)], returned by a script, always
    reaches the client as one error reply: the text is [-], the message up
    to its first NUL with every CR and LF replaced by a space, and CR LF;
    no string can make it more than one line. A message that is a line
    already is sent as it is. *)
Theorem error_reply_is_one_line (lua : lua_State) (s : bytes) :
  stack lua = [LString s] ->
  exists lua',
    luaRedisErrorReplyCommand lua = Some (CReturn 1, lua')
    /\ luaReplyToRedisReply lua' = Some (str "-" ++ one_line s ++ CRLF, lua)
    /\ forallb line_char (one_line s) = true
    /\ (forallb line_char s = true -> one_line s = s).
Proof.
  intros Hs. unfold luaRedisErrorReplyCommand.
  rewrite (single_field_table lua _ s Hs).
  eexists. split; [reflexivity|]. rewrite <- sanitized_one_line.
  split; [|split; [apply sanitized_is_line|]].
  - destruct lua as [st g l h]. cbn [stack] in Hs. subst st. reflexivity.
  - intros Hl. rewrite c_str_line, strmapchars_line by assumption. reflexivity.
Qed.

(** X20: [redis.error_reply] and [redis.status_reply] take exactly one
    string: with another number of arguments, or with an argument that is
    not a string (a number included), they return, and do not raise, the
    error table "wrong number or type of arguments", on top of the
    arguments. *)
Theorem reply_helpers_reject (lua : lua_State) (field : bytes) :
  length (stack lua) <> 1%nat
  \/ (exists v, stack lua = [v] /\ type_of v <> LUA_TSTRING) ->
  luaRedisReturnSingleFieldTable lua field
  = Some (CReturn 1,
          lua_push lua (error_table lua (str "wrong number or type of arguments"))).
Proof.
  intros H. unfold luaRedisReturnSingleFieldTable, lua_gettop.
  replace (negb (Z.of_nat (length (stack lua)) =? 1)
           || negb (lua_type_tag_eqb (lua_type lua (-1)) LUA_TSTRING)) with true.
  - rewrite luaPushError_eq. reflexivity.
  - symmetry. destruct H as [H|(v & Hs & Hv)].
    + replace (Z.of_nat (length (stack lua)) =? 1) with false
        by (symmetry; apply Z.eqb_neq; lia).
      reflexivity.
    + erewrite lua_type_top by exact Hs. rewrite Hs.
      destruct v; try contradiction; reflexivity.
Qed.

Lemma rawget_absent (t : table) (k : LuaKey) :
  (forall e, In e t -> key_eqb (fst e) k = false) -> rawget t k = LNil.
Proof.
  induction t as [|[k' v] t IH]; intros H; [reflexivity|]. cbn [rawget].
  pose proof (H (k', v) (or_introl eq_refl)) as E. cbn [fst] in E. rewrite E. apply IH. intros e He. apply H. right. exact He.
Qed.

Lemma rawget_remove_same (t : table) (a : bytes) :
  unique_keys t -> rawget (table_remove t (KString a)) (KString a) = LNil.
Proof.
  induction t as [|[k v] t IH]; intros Hu; [reflexivity|].
  cbn [unique_keys] in Hu. destruct Hu as [Hk Hu]. cbn [table_remove].
  destruct (key_eqb k (KString a)) eqn:E.
  - apply key_eqb_string in E. subst k. apply rawget_absent. exact Hk.
  - cbn [rawget]. rewrite E. apply IH. exact Hu.
Qed.

Lemma table_remove_incl (t : table) (k : LuaKey) (e : LuaKey * LuaValue) :
  In e (table_remove t k) -> In e t.
Proof.
  induction t as [|[k' v] t IH]; [intros []|]. cbn [table_remove].
  destruct (key_eqb k' k); [intros H; right; exact H|].
  intros [<-|H]; [left; reflexivity | right; apply IH; exact H].
Qed.

Lemma unique_keys_remove (t : table) (k : LuaKey) :
  unique_keys t -> unique_keys (table_remove t k).
Proof.
  induction t as [|[k' v] t IH]; intros Hu; [exact Logic.I|].
  cbn [unique_keys] in Hu. destruct Hu as [Hk Hu]. cbn [table_remove].
  destruct (key_eqb k' k); [exact Hu|]. cbn [unique_keys].
  split; [|apply IH; exact Hu].
  intros e He. apply Hk. eapply table_remove_incl. exact He.
Qed.

(** X21: [luaRemoveUnsupportedFunctions] takes [loadfile] and [dofile]
    out of the global table, whose entries it finds one per key, and
    touches nothing else: every other global, the stack and the hook are
    as before. *)
Theorem unsupported_functions_removed (lua : lua_State) :
  unique_keys (globals lua) ->
  exists lua',
    luaRemoveUnsupportedFunctions lua = Some lua'
    /\ rawget (globals lua') (KString (str "loadfile")) = LNil
    /\ rawget (globals lua') (KString (str "dofile")) = LNil
    /\ (forall name, name <> str "loadfile" -> name <> str "dofile" ->
                     rawget (globals lua') (KString name)
                     = rawget (globals lua) (KString name))
    /\ stack lua' = stack lua /\ level1 lua' = level1 lua /\ hook lua' = hook lua
    /\ unique_keys (globals lua').
Proof.
  intros Hu. unfold luaRemoveUnsupportedFunctions, lua_setglobal, lua_pushnil, lua_push.
  cbn [with_stack stack globals level1 hook].
  change (c_str (str "loadfile")) with (str "loadfile").
  change (c_str (str "dofile")) with (str "dofile").
  eexists. split; [reflexivity|]. cbn [globals stack level1 hook rawset].
  split; [|split; [|split; [|split; [|split; [|split]]]]]; try reflexivity.
  - rewrite rawget_remove_other by discriminate. apply rawget_remove_same. exact Hu.
  - apply rawget_remove_same. apply unique_keys_remove. exact Hu.
  - intros name H1 H2.
    rewrite !rawget_remove_other by (intros E; symmetry in E; contradiction).
    reflexivity.
  - apply unique_keys_remove, unique_keys_remove. exact Hu.
Qed.

Variables LL_DEBUG LL_WARNING : Z.

(** X22: [redis.log] raises, and logs nothing, when it gets fewer than two
    arguments, when its first argument is neither a number nor a string
    that reads as one, and when the level is below [LL_DEBUG] or above
    [LL_WARNING]. *)
Theorem log_command_rejects (lua : lua_State) :
  let argc := lua_gettop lua in
  let raises (msg : bytes) :=
    luaLogCommand lua_number2str LL_DEBUG LL_WARNING lua
    = Some (CRaise (LString msg), lua_push lua (LString msg), None) in
  (argc < 2 -> raises (str "redis.log() requires two arguments or more."))
  /\ (2 <= argc -> lua_isnumber lua (- argc) = false ->
      raises (str "First argument must be a number (log level)."))
  /\ (forall d level,
        2 <= argc -> lua_tonumber_conv lua (- argc) = Some d ->
        double_to_int d = Some level ->
        level < LL_DEBUG \/ LL_WARNING < level ->
        raises (str "Invalid debug level.")).
Proof.
  intros argc raises. unfold raises, luaLogCommand. fold argc.
  split; [|split].
  - intros H. replace (argc <? 2) with true by (symmetry; apply Z.ltb_lt; lia).
    reflexivity.
  - intros H Hn. replace (argc <? 2) with false by (symmetry; apply Z.ltb_ge; lia).
    rewrite Hn. reflexivity.
  - intros d level H Hd Hl Hr.
    replace (argc <? 2) with false by (symmetry; apply Z.ltb_ge; lia).
    unfold lua_isnumber. rewrite Hd. cbn [negb]. rewrite Hl.
    replace ((level <? LL_DEBUG) || (LL_WARNING <? level)) with true.
    + reflexivity.
    + symmetry. apply orb_true_iff. rewrite !Z.ltb_lt. exact Hr.
Qed.

Lemma index_from_top (lua : lua_State) (above : list LuaValue) (v : LuaValue)
    (below : list LuaValue) :
  stack lua = above ++ v :: below ->
  index_pos lua (- Z.of_nat (S (length above))) = Some (length above)
  /\ nth_error (stack lua) (length above) = Some v.
Proof.
  intros Hs. unfold index_pos.
  replace (- Z.of_nat (S (length above)) <? 0) with true
    by (symmetry; apply Z.ltb_lt; lia).
  split; [f_equal; lia|]. rewrite Hs, nth_error_app2 by lia.
  rewrite Nat.sub_diag. reflexivity.
Qed.

Lemma join_spaces_snoc (done : list bytes) (x : bytes) :
  join_spaces (done ++ [x])
  = (if negb (Z.of_nat (length done) + 1 =? 1) then join_spaces done ++ str " "
     else join_spaces done) ++ x.
Proof.
  destruct done as [|d done].
  - cbn. rewrite app_nil_r. reflexivity.
  - replace (Z.of_nat (length (d :: done)) + 1 =? 1) with false
      by (symmetry; apply Z.eqb_neq; cbn [length]; lia).
    cbn [negb app join_spaces]. rewrite flat_map_app. cbn [flat_map].
    rewrite app_nil_r, <- !app_assoc. reflexivity.
Qed.

Lemma luaLog_glue_strings (lua : lua_State) (lvl : LuaValue) (rest : list bytes) :
  forall done : list bytes,
    stack lua = rev (lvl :: map LString (done ++ rest)) ->
    luaLog_glue lua_number2str lua (Z.of_nat (S (length (done ++ rest))))
      (length rest) (Z.of_nat (length done) + 1) (join_spaces done)
    = (join_spaces (done ++ rest), lua).
Proof.
  induction rest as [|x rest IH]; intros done Hs.
  - rewrite app_nil_r. reflexivity.
  - change (length (x :: rest)) with (S (length rest)).
    cbn [luaLog_glue]. unfold lua_tolstring_conv.
    assert (Hs' : stack lua
                  = rev (map LString rest) ++ LString x :: rev (lvl :: map LString done)).
    { rewrite Hs. cbn [rev]. rewrite map_app. cbn [map]. rewrite rev_app_distr.
      cbn [rev]. rewrite <- !app_assoc. reflexivity. }
    destruct (index_from_top lua _ _ _ Hs') as [Hp Hn].
    rewrite length_rev, length_map in Hp, Hn.
    replace (- Z.of_nat (S (length (done ++ x :: rest))) + (Z.of_nat (length done) + 1))
      with (- Z.of_nat (S (length rest)))
      by (rewrite length_app; cbn [length]; lia).
    rewrite Hp, Hn.
    specialize (IH (done ++ [x])).
    replace ((done ++ [x]) ++ rest) with (done ++ x :: rest) in IH
      by (rewrite <- app_assoc; reflexivity).
    replace (Z.of_nat (length (done ++ [x])) + 1)
      with (Z.of_nat (length done) + 1 + 1) in IH
      by (rewrite length_app; cbn [length]; lia).
    rewrite join_spaces_snoc in IH. apply IH. exact Hs.
Qed.

(** X23: [redis.log(level, m1, ..., mk)] with string messages hands the
    messages joined by single spaces, up to the first NUL, to the server
    log at the level given, returns nothing, and leaves the stack as it
    was. *)
Theorem log_command_joins_messages (lua : lua_State) (d : lua_Number) (level : Z)
    (msgs : list bytes) :
  stack lua = rev (LNumber d :: map LString msgs) -> msgs <> [] ->
  double_to_int d = Some level -> LL_DEBUG <= level <= LL_WARNING ->
  luaLogCommand lua_number2str LL_DEBUG LL_WARNING lua
  = Some (CReturn 0, lua, Some (level, c_str (join_spaces msgs))).
Proof.
  intros Hs Hm Hd Hl. unfold luaLogCommand.
  assert (Hargc : lua_gettop lua = Z.of_nat (S (length msgs))).
  { unfold lua_gettop. rewrite Hs, length_rev. cbn [length]. rewrite length_map.
    reflexivity. }
  rewrite Hargc.
  replace (Z.of_nat (S (length msgs)) <? 2) with false
    by (symmetry; apply Z.ltb_ge; destruct msgs; [contradiction | cbn [length]; lia]).
  assert (Hlvl : lua_tonumber_conv lua (- Z.of_nat (S (length msgs))) = Some d).
  { unfold lua_tonumber_conv, index2adr.
    assert (Hs' : stack lua = rev (map LString msgs) ++ LNumber d :: [])
      by (rewrite Hs; reflexivity).
    destruct (index_from_top lua _ _ _ Hs') as [Hp Hn].
    rewrite length_rev, length_map in Hp, Hn. rewrite Hp, Hn. reflexivity. }
  unfold lua_isnumber. rewrite Hlvl. cbn [negb]. rewrite Hd.
  replace ((level <? LL_DEBUG) || (LL_WARNING <? level)) with false
    by (symmetry; apply orb_false_iff; rewrite !Z.ltb_ge; lia).
  replace (Z.to_nat (Z.of_nat (S (length msgs)) - 1)) with (length msgs) by lia.
  pose proof (luaLog_glue_strings lua (LNumber d) msgs [] Hs) as Hg.
  cbn [app join_spaces] in Hg. change (Z.of_nat (length (@nil bytes)) + 1) with 1 in Hg.
  rewrite Hg. reflexivity.
Qed.

End CapabilityExtras.

Import Demo.

Lemma sha1hex_command_names_the_function_witness :
  luaRedisSha1hexCommand (fun _ => []) (mkLua [LString (str "return 1")] [] None None)
  = Some (CReturn 1,
          lua_push (mkLua [LString (str "return 1")] [] None None)
            (LString (sha1hex (str "return 1"))))
  /\ length (sha1hex (str "return 1")) = 40%nat.
Proof.
  destruct (proj1 (sha1hex_command_names_the_function (C := Demo.collaborators)
                     (I := Demo.interpreter) (fun _ => [])
                     (mkLua [LString (str "return 1")] [] None None))
              (str "return 1") eq_refl) as (H & Hlen & _).
  split; [exact H | exact Hlen].
Defined.

(** [redis.sha1hex(true)]. *)
Lemma sha1hex_command_other_argument_witness :
  luaRedisSha1hexCommand (fun _ => []) (mkLua [LBoolean true] [] None None)
  = Some (CReturn 1,
          lua_push (mkLua [LBoolean true] [] None None) (LString (sha1hex (str "")))).
Proof.
  apply (sha1hex_command_other_argument (C := Demo.collaborators) (fun _ => [])
           (mkLua [LBoolean true] [] None None) (LBoolean true)).
  - reflexivity.
  - reflexivity.
Defined.

Lemma reply_helpers_build_decoder_values_witness :
  luaRedisErrorReplyCommand (mkLua [LString (str "bad")] [] None None)
  = Some (CReturn 1, lua_push (mkLua [LString (str "bad")] [] None None)
                       (value_of (RError (str "bad"))))
  /\ redisProtocolToLuaType (mkLua [] [] None None) (wire (RError (str "bad")))
     = Some (lua_push (mkLua [] [] None None) (value_of (RError (str "bad"))), []).
Proof.
  destruct (reply_helpers_build_decoder_values
              (mkLua [LString (str "bad")] [] None None) (mkLua [] [] None None)
              (str "bad") eq_refl eq_refl) as (H1 & H2 & _).
  split; [exact H1 | exact H2].
Defined.

(** [return redis.error_reply('a\r\nb\0c')]: the reply is [-a  b\r\n]. *)
Lemma error_reply_is_one_line_witness :
  let s := str "a" ++ [CR; LF] ++ str "b" ++ [NUL] ++ str "c" in
  exists lua',
    luaRedisErrorReplyCommand (mkLua [LString s] [] None None) = Some (CReturn 1, lua')
    /\ luaReplyToRedisReply lua'
       = Some (str "-a  b" ++ CRLF, mkLua [LString s] [] None None).
Proof.
  intros s.
  destruct (error_reply_is_one_line (mkLua [LString s] [] None None) s eq_refl)
    as (lua' & H1 & H2 & _).
  exists lua'. split; [exact H1 | exact H2].
Defined.

Lemma reply_helpers_reject_witness :
  luaRedisReturnSingleFieldTable
    (mkLua [LNumber (int_to_double 42)] [] None None) (str "err")
  = Some (CReturn 1,
          lua_push (mkLua [LNumber (int_to_double 42)] [] None None)
            (error_table (mkLua [LNumber (int_to_double 42)] [] None None)
               (str "wrong number or type of arguments"))).
Proof.
  apply reply_helpers_reject. right. eexists. split; [reflexivity | discriminate].
Defined.

Lemma unsupported_functions_removed_witness :
  let g := [(KString (str "loadfile"), LFunction 9); (KString (str "print"), LFunction 8)] in
  exists lua',
    luaRemoveUnsupportedFunctions (mkLua [] g None None) = Some lua'
    /\ rawget (globals lua') (KString (str "loadfile")) = LNil
    /\ rawget (globals lua') (KString (str "print")) = LFunction 8.
Proof.
  intros g.
  destruct (unsupported_functions_removed (mkLua [] g None None)) as
    (lua' & H & Hl & _ & Ho & _).
  - cbn [unique_keys globals g]. split; [|split; [|exact Logic.I]].
    + intros e [<-|[]]. reflexivity.
    + intros e [].
  - exists lua'. split; [exact H|]. split; [exact Hl|].
    rewrite Ho by discriminate. reflexivity.
Defined.

Lemma log_command_rejects_witness :
  luaLogCommand (fun _ => []) 0 3 (mkLua [LString (str "hello")] [] None None)
  = Some (CRaise (LString (str "redis.log() requires two arguments or more.")),
          lua_push (mkLua [LString (str "hello")] [] None None)
            (LString (str "redis.log() requires two arguments or more.")), None).
Proof.
  apply (proj1 (log_command_rejects (C := Demo.collaborators) (fun _ => []) 0 3
                  (mkLua [LString (str "hello")] [] None None))).
  reflexivity.
Defined.

Lemma log_command_joins_messages_witness :
  luaLogCommand (fun _ => []) 0 3
    (mkLua [LString (str "world"); LString (str "hello"); LNumber (int_to_double 2)]
       [] None None)
  = Some (CReturn 0,
          mkLua [LString (str "world"); LString (str "hello"); LNumber (int_to_double 2)]
            [] None None,
          Some (2, str "hello world")).
Proof.
  apply (log_command_joins_messages (C := Demo.collaborators) (fun _ => []) 0 3
           (mkLua [LString (str "world"); LString (str "hello"); LNumber (int_to_double 2)]
              [] None None)
           (int_to_double 2) 2 [str "hello"; str "world"]).
  - reflexivity.
  - discriminate.
  - vm_compute. reflexivity.
  - lia.
Defined.
